(** * Suno automation: a shallow embedding of the browser-driven workflow

The development follows the layout of the JavaScript sources:

- [JS], [Double]           strings and numbers of the language
- [Utils]                  utils.js          (sanitizeFilename)
- [SongCreator]            song-creator.js   (form filling and submission)
- [AuthManagerPersistent]  auth-persistent.js (Google OAuth / password login)
- [DownloadManager]        download-manager.js (status polling, downloads)
- [SunoBot]                suno-bot.js       (session-scoped bot)
- [Server]                 server.js         (single-job and batch runs)

Asynchronous browser code is embedded in a state-and-exception monad over
an abstract browser world [W]; a [Driver W] gives the behaviour of the
Playwright primitives.  All definitions come first, the theorems follow. *)

From Stdlib Require Import List String Ascii ZArith QArith Qround Qabs Qpower.
From Stdlib Require Import Qreduction Bool Lia Lqa Arith.
From Stdlib Require Import DecimalString.
Import ListNotations.

Local Open Scope string_scope.
Local Open Scope Z_scope.

Set Implicit Arguments.

(* ================================================================== *)
(** * Part I: the embedding                                            *)
(* ================================================================== *)

(** ** JavaScript string helpers *)

Module JS.

(** The double-quote character, and a quoted piece of a selector. *)
Definition dquote : string := String (ascii_of_nat 34) EmptyString.
Definition quoted (s : string) : string := dquote ++ s ++ dquote.

(** [s.includes(sub)] *)
Definition includes (s sub : string) : bool :=
  match String.index 0 sub s with
  | Some _ => true
  | None => false
  end.

Definition lowerChar (c : ascii) : ascii :=
  let n := nat_of_ascii c in
  if (andb (Nat.leb 65 n) (Nat.leb n 90)) then ascii_of_nat (n + 32) else c.

(** [s.toLowerCase()] on the ASCII range. *)
Fixpoint toLowerCase (s : string) : string :=
  match s with
  | EmptyString => EmptyString
  | String c r => String (lowerChar c) (toLowerCase r)
  end.

Definition isDigit (c : ascii) : bool :=
  let n := nat_of_ascii c in andb (Nat.leb 48 n) (Nat.leb n 57).

(** [/\d+:\d+/.test(s)]: some digit is directly followed by a colon and a
    digit (the two [+] only lengthen a match that already exists). *)
Fixpoint testDuration (s : string) : bool :=
  match s with
  | String a ((String b (String c _)) as r) =>
      (isDigit a && Ascii.eqb b ":" && isDigit c) || testDuration r
  | _ => false
  end.

(** *** Strings as sequences of UTF-16 code units

    The strings of the model are byte strings that hold the UTF-8 encoding
    of a JavaScript string (a lone surrogate is encoded like any other code
    unit of three bytes, a byte that starts no well-formed sequence stands
    for the code unit of the same number).  [units] gives the UTF-16 code
    units of the JavaScript string and [ofUnits] encodes them again. *)

(** A continuation byte. *)
Definition cont (b : N) : bool := ((128 <=? b) && (b <? 192))%N.

Fixpoint units (s : string) : list N :=
  match s with
  | EmptyString => []
  | String a r =>
      let b := N_of_ascii a in
      let single := b :: units r in
      match r with
      | String a1 r1 =>
          let b1 := N_of_ascii a1 in
          if ((192 <=? b) && (b <? 224))%N && cont b1
          then ((b - 192) * 64 + (b1 - 128))%N :: units r1
          else
            match r1 with
            | String a2 r2 =>
                let b2 := N_of_ascii a2 in
                if ((224 <=? b) && (b <? 240))%N && cont b1 && cont b2
                then ((b - 224) * 4096 + (b1 - 128) * 64 + (b2 - 128))%N
                       :: units r2
                else
                  match r2 with
                  | String a3 r3 =>
                      let b3 := N_of_ascii a3 in
                      let cp := ((b - 240) * 262144 + (b1 - 128) * 4096
                                 + (b2 - 128) * 64 + (b3 - 128))%N in
                      if ((240 <=? b) && (b <? 248))%N
                         && cont b1 && cont b2 && cont b3
                         && ((65536 <=? cp) && (cp <? 1114112))%N
                      then (55296 + (cp - 65536) / 1024)%N
                             :: (56320 + (cp - 65536) mod 1024)%N :: units r3
                      else single
                  | EmptyString => single
                  end
            | EmptyString => single
            end
      | EmptyString => single
      end
  end.

Definition byte (n : N) : ascii := ascii_of_N n.

Fixpoint ofUnits (l : list N) : string :=
  match l with
  | [] => EmptyString
  | u :: r =>
      if (u <? 128)%N then String (byte u) (ofUnits r)
      else if (u <? 2048)%N then
        String (byte (192 + u / 64)) (String (byte (128 + u mod 64)) (ofUnits r))
      else
        let three :=
          String (byte (224 + u / 4096))
            (String (byte (128 + (u / 64) mod 64))
               (String (byte (128 + u mod 64)) (ofUnits r))) in
        match r with
        | lo :: r' =>
            if ((55296 <=? u) && (u <? 56320) && (56320 <=? lo) && (lo <? 57344))%N
            then
              let cp := (65536 + (u - 55296) * 1024 + (lo - 56320))%N in
              String (byte (240 + cp / 262144))
                (String (byte (128 + (cp / 4096) mod 64))
                   (String (byte (128 + (cp / 64) mod 64))
                      (String (byte (128 + cp mod 64)) (ofUnits r'))))
            else three
        | [] => three
        end
  end.

(** The code units that [String.prototype.trim] strips: WhiteSpace and
    LineTerminator. *)
Definition isWhiteSpace (c : N) : bool :=
  (((9 <=? c) && (c <=? 13)) || (c =? 32) || (c =? 160) || (c =? 5760)
   || ((8192 <=? c) && (c <=? 8202)) || (c =? 8232) || (c =? 8233)
   || (c =? 8239) || (c =? 8287) || (c =? 12288) || (c =? 65279))%N.

(** [s.trim()] is the empty string. *)
Definition isBlank (s : string) : bool := forallb isWhiteSpace (units s).

(** Truthiness of a string value ([undefined] and [null] are modelled as
    the empty string). *)
Definition truthy (s : string) : bool :=
  match s with EmptyString => false | _ => true end.

(** [a || b] on numbers where [null] is [None]: [0] and [null] are falsy. *)
Definition orNum (a : option Z) (b : Z) : Z :=
  match a with
  | Some x => if x =? 0 then b else x
  | None => b
  end.

(** Decimal rendering of an integer, as in a template literal. *)
Definition showZ (z : Z) : string :=
  NilZero.string_of_int (Z.to_int z).

(** Template-literal rendering of [ms / 1000] for an integer [ms] of at
    most 2^52 in absolute value: the sign, the integer part, then the
    fractional digits without trailing zeros.  (In this range the shortest
    decimal that reads back as the double [ms / 1000] is the exact
    quotient.) *)
Definition showSeconds (ms : Z) : string :=
  let a := Z.abs ms in
  let q := a / 1000 in
  let r := a mod 1000 in
  (if ms <? 0 then "-" else EmptyString) ++
  (if r =? 0 then showZ q
   else if r mod 100 =? 0 then showZ q ++ "." ++ showZ (r / 100)
   else if r mod 10 =? 0 then
     showZ q ++ "." ++ (if r <? 100 then "0" else EmptyString) ++ showZ (r / 10)
   else showZ q ++ "." ++ (if r <? 10 then "00" else if r <? 100 then "0" else EmptyString)
                ++ showZ r).

(** [s.replace(/[:.]/g, '-')] *)
Fixpoint replaceColonDot (s : string) : string :=
  match s with
  | EmptyString => EmptyString
  | String c r =>
      String (if (Ascii.eqb c ":" || Ascii.eqb c ".")%bool then "-"%char else c)
             (replaceColonDot r)
  end.

(** [s.substring(0, n)] *)
Definition substring0 (n : nat) (s : string) : string := String.substring 0 n s.

End JS.

(** ** JavaScript numbers

    A number is an IEEE 754 double: a finite value, written as the rational
    it is, an infinity or NaN.  The result of an operation is the exact
    result rounded to the nearest double, ties to the even significand
    (53 bits, exponents from -1074 to 971 for the unit in the last place).
    The sign of a zero is not represented; no operation below tells the
    two zeros apart, except a division by zero, which is read as a
    division by +0. *)

Module Double.

Inductive number : Type :=
| Fin (q : Q)
| PosInf
| NegInf
| NaN.

Definition pow2 (e : Z) : Q := (2 ^ e)%Q.

(** The exponent [l] with [2^l <= |q| < 2^(l+1)], for [q] other than 0. *)
Definition ilog2 (q : Q) : Z :=
  let l := Z.log2 (Z.abs (Qnum q)) - Z.log2 (Zpos (Qden q)) in
  if Qle_bool (pow2 l) (Qabs q) then l else l - 1.

(** The exponent of the unit in the last place of the doubles around [q]:
    53 significant bits, and no less than that of the subnormal doubles. *)
Definition expo (q : Q) : Z := Z.max (ilog2 q - 52) (-1074).

(** The nearest integer, a tie going to the even one. *)
Definition rne (q : Q) : Z :=
  let f := Qfloor q in
  match (q - inject_Z f ?= 1 # 2)%Q with
  | Lt => f
  | Gt => f + 1
  | Eq => if Z.even f then f else f + 1
  end.

(** The double nearest to a rational; a result of magnitude 2^1024 or more
    is an infinity. *)
Definition round (x : Q) : number :=
  let q := Qred x in
  if Qeq_bool q 0 then Fin 0
  else
    let e := expo q in
    let v := Qred (inject_Z (rne (q / pow2 e)) * pow2 e) in
    if Qle_bool (pow2 1024) (Qabs v)
    then (if Qle_bool 0 q then PosInf else NegInf)
    else Fin v.

(** The number an integer literal or an integer value stands for. *)
Definition ofZ (z : Z) : number := round (inject_Z z).

Definition opp (a : number) : number :=
  match a with
  | Fin q => Fin (Qred (- q))
  | PosInf => NegInf
  | NegInf => PosInf
  | NaN => NaN
  end.

(** [a + b] *)
Definition add (a b : number) : number :=
  match a, b with
  | NaN, _ | _, NaN => NaN
  | PosInf, NegInf | NegInf, PosInf => NaN
  | PosInf, _ | _, PosInf => PosInf
  | NegInf, _ | _, NegInf => NegInf
  | Fin x, Fin y => round (x + y)
  end.

(** [a - b] *)
Definition sub (a b : number) : number := add a (opp b).

(** The infinity of the sign of [x], for [x] other than 0. *)
Definition infinityOf (x : Q) : number := if Qle_bool 0 x then PosInf else NegInf.

(** [a * b] *)
Definition mul (a b : number) : number :=
  match a, b with
  | NaN, _ | _, NaN => NaN
  | Fin x, Fin y => round (x * y)
  | Fin x, PosInf | PosInf, Fin x =>
      if Qeq_bool x 0 then NaN else infinityOf x
  | Fin x, NegInf | NegInf, Fin x =>
      if Qeq_bool x 0 then NaN else infinityOf (- x)
  | PosInf, PosInf | NegInf, NegInf => PosInf
  | PosInf, NegInf | NegInf, PosInf => NegInf
  end.

(** [a / b] *)
Definition div (a b : number) : number :=
  match a, b with
  | NaN, _ | _, NaN => NaN
  | Fin x, Fin y =>
      if Qeq_bool y 0 then (if Qeq_bool x 0 then NaN else infinityOf x)
      else round (x / y)
  | Fin _, _ => Fin 0
  | PosInf, Fin y => if Qeq_bool y 0 then PosInf else infinityOf y
  | NegInf, Fin y => if Qeq_bool y 0 then NegInf else infinityOf (- y)
  | _, _ => NaN
  end.

(** [Math.floor(a)] *)
Definition floor (a : number) : number :=
  match a with
  | Fin q => Fin (inject_Z (Qfloor q))
  | _ => a
  end.

(** The integer that an integer-valued number is.  It is applied to the
    results of [randomDelay] only, which are integers for the bounds of
    this code; a number that is no integer is cut to its integer part, an
    infinity and NaN give 0. *)
Definition toZ (a : number) : Z :=
  match a with
  | Fin q => Qfloor q
  | _ => 0
  end.

(** [xs[a]]: the element at an array index; [undefined] for any other
    number. *)
Definition nth {A} (xs : list A) (a : number) : option A :=
  match a with
  | Fin q =>
      if (Qeq_bool q (inject_Z (Qfloor q)) && (0 <=? Qfloor q))%bool
      then nth_error xs (Z.to_nat (Qfloor q))
      else None
  | _ => None
  end.

(** A rational is a double when rounding leaves it as it is. *)
Definition isDouble (q : Q) : Prop := round q = Fin (Qred q).

(** The largest double below one. *)
Definition belowOne : Q := (1 - pow2 (-53))%Q.

End Double.

(** ** utils.js *)

Module Utils.

(** A JavaScript string is a sequence of UTF-16 code units; the regular
    expressions of [sanitizeFilename] have no [u] flag, so they work on the
    code units one by one. *)
Definition jsstring := list N.

(** The code units of a literal of ASCII characters. *)
Definition ofString (s : string) : jsstring :=
  map N_of_ascii (list_ascii_of_string s).

(** The nine characters of the first character class: less-than,
    greater-than, colon, double quote, slash, backslash, bar, question mark
    and star. *)
Definition isInvalidChar (c : N) : bool :=
  existsb (N.eqb c) [60; 62; 58; 34; 47; 92; 124; 63; 42]%N.

(** The class [\s]: WhiteSpace and LineTerminator code points. *)
Definition isWhitespace (c : N) : bool :=
  (((9 <=? c) && (c <=? 13)) || (c =? 32) || (c =? 160) || (c =? 5760)
   || ((8192 <=? c) && (c <=? 8202)) || (c =? 8232) || (c =? 8233)
   || (c =? 8239) || (c =? 8287) || (c =? 12288) || (c =? 65279))%N.

Definition hyphen : N := 45.
Definition underscore : N := 95.

(** First [replace]: each invalid character becomes a hyphen. *)
Definition replaceInvalid (s : jsstring) : jsstring :=
  map (fun c => if isInvalidChar c then hyphen else c) s.

(** [.replace(/\s+/g, '_')]: every maximal run of white space becomes one
    underscore; [inRun] tells that the previous unit belonged to a run whose
    underscore is already written. *)
Fixpoint collapseWhitespace (inRun : bool) (s : jsstring) : jsstring :=
  match s with
  | [] => []
  | c :: r =>
      if isWhitespace c
      then (if inRun then collapseWhitespace true r
            else underscore :: collapseWhitespace true r)
      else c :: collapseWhitespace false r
  end.

(** [.substring(0, 200)] *)
Definition substring0 (n : nat) (s : jsstring) : jsstring := firstn n s.

Definition sanitizeFilename (filename : jsstring) : jsstring :=
  substring0 200 (collapseWhitespace false (replaceInvalid filename)).

(** [sanitizeFilename] on the titles of the orchestration code, which are
    kept as byte strings there: the title is read as its code units, and the
    result is encoded again. *)
Definition sanitizeTitle (title : string) : string :=
  JS.ofUnits (sanitizeFilename (JS.units title)).

End Utils.

(** ** The browser world and the monad of asynchronous code *)

(** A Playwright locator expression. *)
Inductive Locator : Type :=
| Css (sel : string)                       (* page.locator(sel) *)
| Within (parent : Locator) (sel : string) (* parent.locator(sel) *)
| First (l : Locator)                      (* l.first() *)
| Last (l : Locator)                       (* l.last() *)
| Nth (l : Locator) (i : nat)              (* element i of l.all() *)
| OrElse (a b : Locator)                   (* a.or(b) *)
| MenuItemNamed (parent : Locator) (name : string). (* getByRole('menuitem') *)

Record Box : Type := mkBox { box_x : Q; box_y : Q; box_width : Q; box_height : Q }.

(** Handle of a started file download. *)
Definition Download : Type := nat.

(** Page, file-system and browser operations that complete with no value. *)
Inductive Action : Type :=
| Goto (url : string)
| WaitForTimeout (ms : Z)
| WaitForURL (pattern : string) (timeout : Z)
| WaitForVisible (l : Locator) (timeout : Z)
| Click (l : Locator)
| Fill (l : Locator) (text : string)
| DispatchEvent (l : Locator) (event : string)
| Hover (l : Locator)
| Focus (l : Locator)
| ScrollIntoViewIfNeeded (l : Locator)
| MouseMove (x y : Double.number)
| MouseWheel (dx dy : Z)
| KeyboardPress (key : string)
| ScrollToTop
| Screenshot (path : string)
| EnsureDir (path : string)
| SaveAs (d : Download) (path : string)
| IncrementUsage (presetId : string)
| LaunchPersistentContext
| AddInitScript
| CloseContext.

Inductive Probe : Type :=
| IsVisible (l : Locator)
| IsEnabled (l : Locator)
| IsDisabled (l : Locator).

(** What a primitive answers: a value, or a rejected promise with the
    message of its error. *)
Inductive reply (A : Type) : Type :=
| Done (a : A)
| Fail (msg : string).
Arguments Fail {A} msg.

(** The behaviour of the environment: browser page, clock, random source,
    file system and credential store. *)
Record Driver (W : Type) : Type := mkDriver {
  now : W -> Z;                                   (* Date.now() *)
  isoTime : W -> string;                          (* new Date().toISOString() *)
  url : W -> string;                              (* page.url() *)
  isClosed : W -> bool;                           (* page.isClosed() *)
  random : W -> Q * W;                            (* Math.random() *)
  sleep : Z -> W -> W;                            (* setTimeout promise *)
  act : Action -> W -> reply unit * W;
  probe : Probe -> W -> reply bool * W;
  count : Locator -> W -> reply nat * W;
  textContent : Locator -> W -> reply string * W;
  getAttribute : Locator -> string -> W -> reply (option string) * W;
  boundingBox : Locator -> W -> reply (option Box) * W;
  waitForDownload : Z -> W -> reply (option Download) * W;
  stat : string -> W -> reply N * W;              (* fs.stat(path).size *)
  loadCredentials : W -> reply (option (string * string)) * W
}.

(** Values carried by status events. *)
Inductive val : Type :=
| VStr (s : string)
| VNum (n : Z)
| VNaN
| VBool (b : bool).

(** What an external observer sees: status events pushed to the status
    callback, login steps, and the calls of the session-release hook. *)
Inductive Event : Type :=
| Status (status : string) (data : list (string * val))
| LoginStep (step : string) (message : string) (level : string)
| Invoke (method : string).

(** The mutable state of one server process: the browser world, the events
    emitted so far (newest first), the fields of the bot and of its
    authentication manager that the control flow tests, the globals of
    server.js, and the variables of the batch closure. *)
Record State (W : Type) : Type := mkState {
  world : W;
  log : list Event;
  authManager : bool;     (* this.authManager !== null *)
  context : bool;         (* authManager.context !== null *)
  botVar : bool;          (* the batch closure's variable bot !== null *)
  currentBot : bool;      (* currentBot !== null *)
  isProcessing : bool;
  successCount : nat;     (* the batch closure's successCount *)
  failCount : nat         (* the batch closure's failCount *)
}.

(** Static configuration (settings.js). *)
Record Config : Type := mkConfig {
  authMethod : string;
  credEmail : string;
  credPassword : string;
  downloadPath : string;
  baseUrl : string;
  pollInterval : Z;
  maxWaitTime : Z;
  maxWaitMinutes : Z
}.

(** The result of running a computation: a value, a thrown error, or no
    answer because a loop ran out of fuel (an execution that has not
    finished; no handler can catch it). *)
Inductive outcome (A : Type) : Type :=
| Ok (a : A)
| Throw (msg : string)
| OutOfFuel.
Arguments Throw {A} msg.
Arguments OutOfFuel {A}.

Definition M (W A : Type) : Type := State W -> outcome A * State W.

(** How one iteration of a loop ends: go on, [break], or [return r] from the
    enclosing function. *)
Inductive ctl (S R : Type) : Type :=
| Continue (s : S)
| Break (s : S)
| Return (r : R).
Arguments Continue {S R} s.
Arguments Break {S R} s.
Arguments Return {S R} r.

Section Monad.
  Context {W : Type}.

Definition ret {A} (a : A) : M W A := fun st => (Ok a, st).

Definition bind {A B} (m : M W A) (k : A -> M W B) : M W B :=
  fun st =>
    match m st with
    | (Ok a, st') => k a st'
    | (Throw e, st') => (Throw e, st')
    | (OutOfFuel, st') => (OutOfFuel, st')
    end.

Definition throw {A} (msg : string) : M W A := fun st => (Throw msg, st).

(** [try { m } catch (error) { h error.message }] *)
Definition tryCatch {A} (m : M W A) (h : string -> M W A) : M W A :=
  fun st =>
    match m st with
    | (Throw e, st') => h e st'
    | r => r
    end.

(** [try { m } finally { f }]: the finalizer runs on both exits of [m], and
    an error of the finalizer replaces the pending result. *)
Definition tryFinally {A} (m : M W A) (f : M W unit) : M W A :=
  fun st =>
    match m st with
    | (OutOfFuel, st') => (OutOfFuel, st')
    | (r, st') =>
        match f st' with
        | (Ok _, st'') => (r, st'')
        | (Throw e, st'') => (Throw e, st'')
        | (OutOfFuel, st'') => (OutOfFuel, st'')
        end
    end.

(** [promise.catch(() => d)] *)
Definition catchDefault {A} (m : M W A) (d : A) : M W A :=
  tryCatch m (fun _ => ret d).

Definition setWorld (st : State W) (w : W) : State W :=
  mkState w (log st) (authManager st) (context st) (botVar st)
          (currentBot st) (isProcessing st) (successCount st) (failCount st).

(** Running a primitive of the driver on the world of the state. *)
Definition prim {A} (f : W -> reply A * W) : M W A :=
  fun st =>
    match f (world st) with
    | (Done a, w) => (Ok a, setWorld st w)
    | (Fail e, w) => (Throw e, setWorld st w)
    end.

(** A synchronous read of the world. *)
Definition peek {A} (f : W -> A) : M W A := fun st => (Ok (f (world st)), st).

(** A primitive that cannot fail. *)
Definition total {A} (f : W -> A * W) : M W A :=
  fun st => let (a, w) := f (world st) in (Ok a, setWorld st w).

(** A change of the state that cannot fail. *)
Definition modify (f : State W -> State W) : M W unit := fun st => (Ok tt, f st).

Definition getState {A} (f : State W -> A) : M W A := fun st => (Ok (f st), st).

Definition emit (e : Event) : M W unit :=
  modify (fun st => mkState (world st) (e :: log st) (authManager st)
                            (context st) (botVar st) (currentBot st)
                            (isProcessing st) (successCount st) (failCount st)).

Definition setAuthManager (b : bool) : M W unit :=
  modify (fun st => mkState (world st) (log st) b (context st) (botVar st)
                            (currentBot st) (isProcessing st)
                            (successCount st) (failCount st)).
Definition setContext (b : bool) : M W unit :=
  modify (fun st => mkState (world st) (log st) (authManager st) b (botVar st)
                            (currentBot st) (isProcessing st)
                            (successCount st) (failCount st)).
Definition setBotVar (b : bool) : M W unit :=
  modify (fun st => mkState (world st) (log st) (authManager st) (context st) b
                            (currentBot st) (isProcessing st)
                            (successCount st) (failCount st)).
Definition setCurrentBot (b : bool) : M W unit :=
  modify (fun st => mkState (world st) (log st) (authManager st) (context st)
                            (botVar st) b (isProcessing st)
                            (successCount st) (failCount st)).
Definition setIsProcessing (b : bool) : M W unit :=
  modify (fun st => mkState (world st) (log st) (authManager st) (context st)
                            (botVar st) (currentBot st) b
                            (successCount st) (failCount st)).
Definition setSuccessCount (n : nat) : M W unit :=
  modify (fun st => mkState (world st) (log st) (authManager st) (context st)
                            (botVar st) (currentBot st) (isProcessing st)
                            n (failCount st)).
Definition setFailCount (n : nat) : M W unit :=
  modify (fun st => mkState (world st) (log st) (authManager st) (context st)
                            (botVar st) (currentBot st) (isProcessing st)
                            (successCount st) n).

(** [for (const x of xs) body], with the loop-carried variables [s]; the
    result is [inl s] when the loop is left, [inr r] when the function
    returned from inside it. *)
Fixpoint forOf {A S R} (xs : list A) (body : A -> S -> M W (ctl S R)) (s : S)
  : M W (S + R) :=
  match xs with
  | [] => ret (inl s)
  | x :: rest =>
      bind (body x s) (fun c =>
        match c with
        | Continue s' => forOf rest body s'
        | Break s' => ret (inl s')
        | Return r => ret (inr r)
        end)
  end.

(** [while (cond) body], with at most [fuel] evaluations of the condition. *)
Fixpoint while (fuel : nat) {S R} (cond : S -> M W bool)
         (body : S -> M W (ctl S R)) (s : S) : M W (S + R) :=
  match fuel with
  | O => fun st => (OutOfFuel, st)
  | Datatypes.S n =>
      bind (cond s) (fun c =>
        if c : bool then
          bind (body s) (fun r =>
            match r with
            | Continue s' => while n cond body s'
            | Break s' => ret (inl s')
            | Return r => ret (inr r)
            end)
        else ret (inl s))
  end.

End Monad.

Declare Scope monad_scope.
Delimit Scope monad_scope with monad.
Notation "x <- m ;; k" := (bind m (fun x => k))
  (at level 61, m at next level, right associativity) : monad_scope.
Notation "m ;; k" := (bind m (fun _ => k))
  (at level 61, right associativity) : monad_scope.
Local Open Scope monad_scope.

(** The result, the final state and the final world of a run. *)
Definition res {W A} (r : outcome A * State W) : outcome A := fst r.
Definition final {W A} (r : outcome A * State W) : State W := snd r.

(** The state of a freshly started server process. *)
Definition initState {W} (w : W) : State W :=
  mkState w [] false false false false false O O.

(** ** Playwright calls, as computations *)

Section Playwright.
  Context {W : Type} (drv : Driver W).

Definition pageGoto (u : string) : M W unit := prim (act drv (Goto u)).
Definition waitForTimeout (ms : Z) : M W unit := prim (act drv (WaitForTimeout ms)).
Definition waitForURL (pattern : string) (timeout : Z) : M W unit :=
  prim (act drv (WaitForURL pattern timeout)).
Definition waitForVisible (l : Locator) (timeout : Z) : M W unit :=
  prim (act drv (WaitForVisible l timeout)).
Definition click (l : Locator) : M W unit := prim (act drv (Click l)).
Definition fill (l : Locator) (text : string) : M W unit := prim (act drv (Fill l text)).
Definition dispatchEvent (l : Locator) (ev : string) : M W unit :=
  prim (act drv (DispatchEvent l ev)).
Definition hover (l : Locator) : M W unit := prim (act drv (Hover l)).
Definition focus (l : Locator) : M W unit := prim (act drv (Focus l)).
Definition scrollIntoViewIfNeeded (l : Locator) : M W unit :=
  prim (act drv (ScrollIntoViewIfNeeded l)).
Definition mouseMove (x y : Double.number) : M W unit := prim (act drv (MouseMove x y)).
Definition mouseWheel (dx dy : Z) : M W unit := prim (act drv (MouseWheel dx dy)).
Definition keyboardPress (key : string) : M W unit := prim (act drv (KeyboardPress key)).
Definition screenshot (path : string) : M W unit := prim (act drv (Screenshot path)).
Definition ensureDir (path : string) : M W unit := prim (act drv (EnsureDir path)).
Definition saveAs (d : Download) (path : string) : M W unit := prim (act drv (SaveAs d path)).

Definition isVisible (l : Locator) : M W bool := prim (probe drv (IsVisible l)).
Definition isEnabled (l : Locator) : M W bool := prim (probe drv (IsEnabled l)).
Definition isDisabled (l : Locator) : M W bool := prim (probe drv (IsDisabled l)).

Definition locatorCount (l : Locator) : M W nat := prim (count drv l).

(** [l.all()]: one locator per matching element. *)
Definition all (l : Locator) : M W (list Locator) :=
  n <- locatorCount l ;; ret (map (Nth l) (seq 0 n)).

Definition pageUrl : M W string := peek (url drv).
Definition dateNow : M W Z := peek (now drv).
Definition mathRandom : M W Q := total (random drv).

(** [await new Promise(resolve => setTimeout(resolve, ms))] *)
Definition setTimeoutPromise (ms : Z) : M W unit :=
  total (fun w => (tt, sleep drv ms w)).

(** [await l.isVisible().catch(() => false)] *)
Definition visibleOrFalse (l : Locator) : M W bool := catchDefault (isVisible l) false.

(** [x && await x.isVisible().catch(() => false)] for a variable that may
    still be [null]. *)
Definition setAndVisible (x : option Locator) : M W bool :=
  match x with
  | Some l => visibleOrFalse l
  | None => ret false
  end.

(** A loop that has no [return] inside. *)
Definition forEach {A S} (xs : list A) (body : A -> S -> M W (ctl S Empty_set))
           (s : S) : M W S :=
  r <- forOf xs body s ;;
  match r with
  | inl s' => ret s'
  | inr e => match e with end
  end.

(** The idiom
    [let x = null;
     for (const selector of selectors) {
       x = page.locator(selector).first();
       if (await x.isVisible().catch(() => false)) break;
     }]
    which leaves in [x] the first visible candidate, or the last candidate
    tried when none is visible. *)
Definition scanSelectors (selectors : list string) : M W (option Locator) :=
  forEach selectors
    (fun selector (_ : option Locator) =>
       let x := First (Css selector) in
       v <- visibleOrFalse x ;;
       if v : bool then ret (Break (Some x)) else ret (Continue (Some x)))
    None.

End Playwright.

(** Selectors are written with [q] around their quoted parts. *)
Definition q (s : string) : string := JS.quoted s.

(** ** song-creator.js *)

Module SongCreator.

(** [Math.floor(r * (max - min + 1)) + min], the arithmetic of [randomDelay]
    for a given value [r] of [Math.random()]. *)
Definition randomDelayWith (r : Q) (min max : Double.number) : Double.number :=
  Double.add
    (Double.floor
       (Double.mul (Double.Fin r)
                   (Double.add (Double.sub max min) (Double.ofZ 1))))
    min.

Record CreateResult : Type := mkCreateResult {
  cr_timestamp : Z;
  cr_title : string;
  cr_style : string
}.

Definition debugDir : string :=
  "/Volumes/BASKETMAN G-Drive/000 YouTubeSong/05 DEV/downloads/debug".

Definition customSelectors : list string :=
  ["text=Custom"; ("button:has-text(" ++ q "Custom" ++ ")");
   ("[role=" ++ q "tab" ++ "]:has-text(" ++ q "Custom" ++ ")"); ".custom-mode"].

Definition lyricsSelectors : list string :=
  [("textarea[placeholder*=" ++ q "lyrics" ++ " i]"); ("textarea[placeholder*=" ++ q "Write" ++ " i]");
   ("textarea[name=" ++ q "lyrics" ++ "]"); ("[data-testid=" ++ q "lyrics-input" ++ "]"); "textarea"].

Definition styleSelectors : list string :=
  [("textarea[placeholder*=" ++ q "Hip-hop" ++ " i]"); ("textarea[placeholder*=" ++ q "R&B" ++ " i]");
   ("textarea[placeholder*=" ++ q "upbeat" ++ " i]"); ("textarea[maxlength=" ++ q "1000" ++ "]");
   ("textarea:not([placeholder*=" ++ q "lyric" ++ " i]):not([placeholder*=" ++ q "Write some" ++ " i])")].

Definition titleSelectors : list string :=
  [("input[placeholder*=" ++ q "title" ++ " i]"); ("input[name=" ++ q "title" ++ "]");
   ("[data-testid=" ++ q "song-title" ++ "]"); ("button:has-text(" ++ q "Add a song title" ++ ")")].

Definition createSelectors : list string :=
  [("button:has-text(" ++ q "Create" ++ ")"); ("button:has-text(" ++ q "Generate" ++ ")");
   ("button[type=" ++ q "submit" ++ "]"); ("[data-testid=" ++ q "create-button" ++ "]");
   ".create-button"; "#create-button"].

Definition captchaIndicators : list string :=
  [("iframe[src*=" ++ q "recaptcha" ++ "]"); ("iframe[src*=" ++ q "captcha" ++ "]"); ".g-recaptcha"; "#captcha"].

Definition advancedOptionsAncestor : string :=
  ("xpath=ancestor::*[contains(., " ++ q "Advanced Options" ++ ")]").

Definition styleNotFound : string :=
  "Could not find style input field - Check screenshot in downloads/debug/".

Definition createNotFound : string :=
  "Could not find enabled Create button - Check screenshot in downloads/debug/".

Definition captchaTimeout : string :=
  "CAPTCHA solution timeout - user did not solve CAPTCHA within 5 minutes".

(** [placeholder && (placeholder.toLowerCase().includes('write some lyrics')
     || placeholder.toLowerCase().includes('leave empty for instrumental'))] *)
Definition isLyricsPlaceholder (placeholder : option string) : bool :=
  match placeholder with
  | Some p =>
      JS.truthy p &&
      (JS.includes (JS.toLowerCase p) "write some lyrics"
       || JS.includes (JS.toLowerCase p) "leave empty for instrumental")
  | None => false
  end.

Section WithDriver.
  Context {W : Type} (drv : Driver W) (cfg : Config) (fuel : nat).

(** [randomDelay(min, max)] for two integer values. *)
Definition randomDelay (min max : Z) : M W Double.number :=
  r <- mathRandom drv ;;
  ret (randomDelayWith r (Double.ofZ min) (Double.ofZ max)).

Definition humanMouseMove (element : Locator) : M W unit :=
  tryCatch
    (box <- prim (boundingBox drv element) ;;
     match box with
     | Some b =>
         dx <- randomDelay (-50) 50 ;;
         dy <- randomDelay (-50) 50 ;;
         mouseMove drv (Double.add (Double.Fin (box_x b)) dx)
                       (Double.add (Double.Fin (box_y b)) dy) ;;
         d1 <- randomDelay 100 300 ;;
         waitForTimeout drv (Double.toZ d1) ;;
         tx <- randomDelay (-5) 5 ;;
         ty <- randomDelay (-5) 5 ;;
         mouseMove drv
           (Double.add (Double.add (Double.Fin (box_x b))
                                   (Double.div (Double.Fin (box_width b))
                                               (Double.ofZ 2)))
                       tx)
           (Double.add (Double.add (Double.Fin (box_y b))
                                   (Double.div (Double.Fin (box_height b))
                                               (Double.ofZ 2)))
                       ty) ;;
         d2 <- randomDelay 50 150 ;;
         waitForTimeout drv (Double.toZ d2)
     | None => ret tt
     end)
    (fun _ => ret tt).

Definition humanType (element : Locator) (text : string) : M W unit :=
  click drv element ;;
  d1 <- randomDelay 200 500 ;;
  waitForTimeout drv (Double.toZ d1) ;;
  fill drv element EmptyString ;;
  waitForTimeout drv 100 ;;
  _ <- randomDelay 30 80 ;;
  fill drv element text ;;
  dispatchEvent drv element "input" ;;
  dispatchEvent drv element "change" ;;
  d2 <- randomDelay 300 600 ;;
  waitForTimeout drv (Double.toZ d2).

Definition humanClick (element : Locator) : M W unit :=
  humanMouseMove element ;;
  click drv element ;;
  d <- randomDelay 200 500 ;;
  waitForTimeout drv (Double.toZ d).

Definition humanScroll : M W unit :=
  scrollAmount <- randomDelay 100 400 ;;
  mouseWheel drv 0 (Double.toZ scrollAmount) ;;
  d <- randomDelay 300 800 ;;
  waitForTimeout drv (Double.toZ d).

Definition navigateToCreate : M W unit :=
  pageGoto drv (baseUrl cfg ++ "/create") ;;
  d <- randomDelay 2000 4000 ;;
  waitForTimeout drv (Double.toZ d).

Definition takeDebugScreenshot (name : string) : M W unit :=
  tryCatch
    (timestamp <- peek (fun w => JS.replaceColonDot (isoTime drv w)) ;;
     let filename := "debug-" ++ name ++ "-" ++ timestamp ++ ".png" in
     ensureDir drv debugDir ;;
     screenshot drv (debugDir ++ "/" ++ filename))
    (fun _ => ret tt).

Definition selectCustomMode : M W unit :=
  tryCatch
    (customButton <- scanSelectors drv customSelectors ;;
     v <- setAndVisible drv customButton ;;
     match customButton with
     | Some b => if v : bool then humanClick b else ret tt
     | None => ret tt
     end)
    (fun _ => ret tt).

Definition fillLyrics (lyrics : string) : M W unit :=
  tryCatch
    (lyricsInput <- scanSelectors drv lyricsSelectors ;;
     v <- setAndVisible drv lyricsInput ;;
     match lyricsInput with
     | Some input =>
         if v : bool then humanType input lyrics
         else throw "Could not find lyrics input field"
     | None => throw "Could not find lyrics input field"
     end)
    (fun e => throw e).

(** One textarea of the style search: [None] when the loop goes on to
    the next textarea, [Some textarea] when it is taken as the style
    input. *)
Definition examineStyleCandidate (textarea : Locator) : M W (option Locator) :=
  v <- visibleOrFalse drv textarea ;;
  if v : bool then
    placeholder <- catchDefault (prim (getAttribute drv textarea "placeholder"))
                                (Some EmptyString) ;;
    _ <- catchDefault (prim (getAttribute drv textarea "maxlength"))
                      (Some EmptyString) ;;
    if isLyricsPlaceholder placeholder then ret None
    else
      parentText <- catchDefault
                      (locatorCount drv (Within textarea advancedOptionsAncestor))
                      O ;;
      if (0 <? parentText)%nat then ret None
      else ret (Some textarea)
  else ret None.

(** One textarea of the fallback search; reading [toLowerCase] of a
    missing placeholder is a TypeError. *)
Definition examineFallbackCandidate (textarea : Locator) : M W (option Locator) :=
  v <- visibleOrFalse drv textarea ;;
  if v : bool then
    placeholder <- catchDefault (prim (getAttribute drv textarea "placeholder"))
                                (Some EmptyString) ;;
    maxlength <- catchDefault (prim (getAttribute drv textarea "maxlength"))
                              (Some EmptyString) ;;
    match maxlength with
    | Some ml =>
        if String.eqb ml "1000" then
          match placeholder with
          | Some p =>
              if negb (JS.includes (JS.toLowerCase p) "lyric")
              then ret (Some textarea)
              else ret None
          | None =>
              throw "Cannot read properties of null (reading 'toLowerCase')"
          end
        else ret None
    | None => ret None
    end
  else ret None.

Definition fillStyles (style : string) : M W unit :=
  tryCatch
    (waitForTimeout drv 1000 ;;
     styleInput <-
       forEach styleSelectors
         (fun selector (styleInput : option Locator) =>
            tryCatch
              (textareas <- all drv (Css selector) ;;
               found <-
                 forEach textareas
                   (fun textarea (cur : option Locator) =>
                      r <- examineStyleCandidate textarea ;;
                      match r with
                      | Some t => ret (Break (Some t))
                      | None => ret (Continue cur)
                      end)
                   styleInput ;;
               match found with
               | Some _ => ret (Break found)
               | None => ret (Continue found)
               end)
              (fun _ => ret (Continue styleInput)))
         None ;;
     styleInput <-
       match styleInput with
       | Some _ => ret styleInput
       | None =>
           allTextareas <- all drv (Css "textarea") ;;
           forEach allTextareas
             (fun textarea (cur : option Locator) =>
                r <- examineFallbackCandidate textarea ;;
                match r with
                | Some t => ret (Break (Some t))
                | None => ret (Continue cur)
                end)
             None
       end ;;
     v <- setAndVisible drv styleInput ;;
     match styleInput with
     | Some input =>
         if v : bool then humanType input style else throw styleNotFound
     | None => throw styleNotFound
     end)
    (fun e => takeDebugScreenshot "style-fill-error" ;; throw e).

Definition addSongTitle (title : string) : M W unit :=
  tryCatch
    (let titleButton := First (Css ("button:has-text(" ++ q "Add a song title" ++ ")")) in
     b <- visibleOrFalse drv titleButton ;;
     (if b : bool then humanClick titleButton else ret tt) ;;
     titleInput <- scanSelectors drv titleSelectors ;;
     v <- setAndVisible drv titleInput ;;
     match titleInput with
     | Some input => if v : bool then humanType input title else ret tt
     | None => ret tt
     end)
    (fun _ => ret tt).

Definition checkForCaptchaPresent : M W bool :=
  r <- forOf captchaIndicators
         (fun indicator (_ : unit) =>
            tryCatch
              (v <- isVisible drv (First (Css indicator)) ;;
               if v : bool then ret (Return true) else ret (Continue tt))
              (fun _ => ret (Continue tt)))
         tt ;;
  match r with
  | inr b => ret b
  | inl _ => ret false
  end.

Definition waitForCaptchaSolution (maxWait : Z) : M W bool :=
  startTime <- dateNow drv ;;
  r <- while fuel
         (fun _ : unit => t <- dateNow drv ;; ret (t - startTime <? maxWait))
         (fun _ =>
            waitForTimeout drv 5000 ;;
            stillHasCaptcha <- checkForCaptchaPresent ;;
            if negb stillHasCaptcha then ret (Return true)
            else
              u <- pageUrl drv ;;
              if JS.includes u "suno.com/create" then ret (Return true)
              else ret (Continue tt))
         tt ;;
  match r with
  | inr b => ret b
  | inl _ => throw captchaTimeout
  end.

Definition checkForPostCreateIssues : M W unit :=
  u <- pageUrl drv ;;
  if (JS.includes u "404" || JS.includes u "error")%bool
  then throw ("Rate limited: " ++ u)
  else
    _ <- forOf captchaIndicators
           (fun indicator (_ : unit) =>
              tryCatch
                (v <- isVisible drv (First (Css indicator)) ;;
                 if v : bool
                 then waitForCaptchaSolution 300000 ;; ret (Return tt)
                 else ret (Continue tt))
                (fun e => if JS.includes e "CAPTCHA solved"
                          then ret (Return tt) else ret (Continue tt)))
           tt ;;
    ret tt.

(** The diagnostic listing of the first ten buttons, when no enabled
    Create button is found. *)
Definition logButtons (buttons : list Locator) : M W unit :=
  forEach (firstn 10 buttons)
    (fun button (_ : unit) =>
       _ <- catchDefault (prim (textContent drv button)) EmptyString ;;
       _ <- visibleOrFalse drv button ;;
       _ <- catchDefault (isDisabled drv button) false ;;
       ret (Continue tt))
    tt.

Definition clickCreate : M W bool :=
  tryCatch
    (d <- randomDelay 2000 3000 ;;
     waitForTimeout drv (Double.toZ d) ;;
     takeDebugScreenshot "before-create-click" ;;
     createButton <-
       forEach createSelectors
         (fun selector (_ : option Locator) =>
            let b := First (Css selector) in
            v <- visibleOrFalse drv b ;;
            if v : bool then
              disabled <- catchDefault (isDisabled drv b) false ;;
              if negb disabled then ret (Break (Some b)) else ret (Continue None)
            else ret (Continue None))
         None ;;
     match createButton with
     | Some b =>
         d1 <- randomDelay 1000 2000 ;;
         waitForTimeout drv (Double.toZ d1) ;;
         humanClick b ;;
         d2 <- randomDelay 3000 5000 ;;
         waitForTimeout drv (Double.toZ d2) ;;
         takeDebugScreenshot "after-create-click" ;;
         checkForPostCreateIssues ;;
         ret true
     | None =>
         takeDebugScreenshot "create-button-not-found" ;;
         allButtons <- all drv (Css "button") ;;
         logButtons allButtons ;;
         throw createNotFound
     end)
    (fun e => takeDebugScreenshot "create-error" ;; throw e).

Definition createSong (title lyrics style : string) : M W CreateResult :=
  tryCatch
    (navigateToCreate ;;
     humanScroll ;;
     selectCustomMode ;;
     d <- randomDelay 500 1500 ;;
     waitForTimeout drv (Double.toZ d) ;;
     (if (JS.truthy lyrics && negb (JS.isBlank lyrics))%bool then
        fillLyrics lyrics ;;
        d1 <- randomDelay 800 1500 ;;
        waitForTimeout drv (Double.toZ d1)
      else ret tt) ;;
     fillStyles style ;;
     (if JS.truthy title then
        d2 <- randomDelay 500 1200 ;;
        waitForTimeout drv (Double.toZ d2) ;;
        addSongTitle title
      else ret tt) ;;
     humanScroll ;;
     _ <- clickCreate ;;
     timestamp <- dateNow drv ;;
     ret (mkCreateResult timestamp
            (if JS.truthy title then title else "Untitled") style))
    (fun e => throw e).

  End WithDriver.
End SongCreator.

(** ** auth-persistent.js *)

Module AuthManagerPersistent.

(** What the login methods resolve to: the object
    [{ success: true, automated }], the object [{ success: false, error }],
    or plain [true]. *)
Inductive LoginResult : Type :=
| LoginSuccess (automated : bool)
| LoginFailure (error : string)
| LoginTrue.

Definition userDataDir : string := "playwright/.auth/user-data".

Definition emailSelectors : list string :=
  [("input[type=" ++ q "email" ++ "]"); ("input[name=" ++ q "identifier" ++ "]");
   ("input[id=" ++ q "identifierId" ++ "]"); "#Email";
   ("input[autocomplete=" ++ q "username" ++ "]");
   ("input[aria-label*=" ++ q "email" ++ " i]");
   ("input[placeholder*=" ++ q "email" ++ " i]")].

Definition passwordSelectors : list string :=
  [("input[type=" ++ q "password" ++ "]"); ("input[name=" ++ q "password" ++ "]");
   ("input[name=" ++ q "Passwd" ++ "]"); "#password"; "#Passwd";
   ("input[autocomplete=" ++ q "current-password" ++ "]");
   ("input[aria-label*=" ++ q "password" ++ " i]");
   ("input[placeholder*=" ++ q "password" ++ " i]")].

Definition nextSelectors : list string :=
  [("button:has-text(" ++ q "Next" ++ ")"); ("button:has-text(" ++ q "next" ++ ")");
   "#identifierNext"; "#passwordNext"; ("button[type=" ++ q "submit" ++ "]");
   ("button:has-text(" ++ q "Continue" ++ ")");
   ("button:has-text(" ++ q "Sign in" ++ ")"); ".VfPpkd-LgbsSe";
   ("[jsname=" ++ q "LgbsSe" ++ "]")].

Definition twoFAIndicators : list string :=
  ["text=2-Step Verification"; "text=Verify it's you";
   "text=Get a verification code"; "text=Enter the code";
   ("input[name=" ++ q "totpPin" ++ "]"); "#totpPin";
   ("[aria-label*=" ++ q "verification code" ++ " i]");
   "text=Use your phone to sign in"; "text=Confirm your recovery email"].

Definition detectionPhrases : list string :=
  ["text=automated test software"; "text=Chrome is being controlled";
   "text=Suspicious activity"; "text=Unusual activity"].

Definition signInSelectors : list string :=
  ["text=Sign In"; "text=Sign in"; "text=Log In"; "text=Login";
   ("button:has-text(" ++ q "Sign" ++ ")"); ("a:has-text(" ++ q "Sign" ++ ")")].

Definition googleSelectors : list string :=
  ["text=Continue with Google"; "text=Sign in with Google";
   ("button:has-text(" ++ q "Google" ++ ")"); ("[aria-label*=" ++ q "Google" ++ "]");
   ".google-button"; "#google-signin-button"].

Definition emailLoginSelectors : list string :=
  ["text=Continue with Email"; "text=Sign in with Email"; "text=Email";
   ("button:has-text(" ++ q "Email" ++ ")")].

Definition sunoUrlPattern : string := "suno\.com".

Section WithDriver.
  Context {W : Type} (drv : Driver W) (cfg : Config).

(** Launching the persistent context stands for the launch itself and for
    getting or creating its page. *)
Definition initialize : M W unit :=
  ensureDir drv userDataDir ;;
  prim (act drv LaunchPersistentContext) ;;
  setContext true ;;
  prim (act drv AddInitScript).

(** [logStep] pushes the step to the status callback. *)
Definition logStep (step message level : string) : M W unit :=
  emit (LoginStep step message level).

(** The three methods below try their selectors in order; an error inside
    one attempt is caught and the next selector is tried.  They return the
    selector that worked. *)
Definition fillField (selectors : list string) (text notFound : string)
  : M W string :=
  r <- forOf selectors
         (fun selector (_ : unit) =>
            tryCatch
              (let input := First (Css selector) in
               v <- isVisible drv input ;;
               if v : bool then
                 click drv input ;;
                 waitForTimeout drv 500 ;;
                 fill drv input text ;;
                 waitForTimeout drv 500 ;;
                 ret (Return selector)
               else ret (Continue tt))
              (fun _ => ret (Continue tt)))
         tt ;;
  match r with
  | inr selector => ret selector
  | inl _ => throw notFound
  end.

Definition fillEmail (email : string) : M W string :=
  fillField emailSelectors email "Could not find email input field".

Definition fillPassword (password : string) : M W string :=
  fillField passwordSelectors password "Could not find password input field".

Definition clickNextButton : M W string :=
  r <- forOf nextSelectors
         (fun selector (_ : unit) =>
            tryCatch
              (let button := First (Css selector) in
               v <- isVisible drv button ;;
               en <- (if v : bool then isEnabled drv button else ret false) ;;
               if en : bool then
                 click drv button ;;
                 waitForTimeout drv 1500 ;;
                 ret (Return selector)
               else ret (Continue tt))
              (fun _ => ret (Continue tt)))
         tt ;;
  match r with
  | inr selector => ret selector
  | inl _ => throw "Could not find Next/Continue button"
  end.

(** [true] as soon as one of the indicators is visible. *)
Definition anyVisible (selectors : list string) : M W bool :=
  r <- forOf selectors
         (fun selector (_ : unit) =>
            tryCatch
              (v <- isVisible drv (Css selector) ;;
               if v : bool then ret (Return true) else ret (Continue tt))
              (fun _ => ret (Continue tt)))
         tt ;;
  match r with
  | inr b => ret b
  | inl _ => ret false
  end.

Definition check2FARequired : M W bool :=
  waitForTimeout drv 2000 ;;
  anyVisible twoFAIndicators.

Definition checkAutomationDetected : M W bool :=
  anyVisible detectionPhrases.

Definition checkIfLoggedIn : M W bool :=
  tryCatch
    (pageGoto drv (baseUrl cfg ++ "/create") ;;
     waitForTimeout drv 3000 ;;
     currentUrl <- pageUrl drv ;;
     if JS.includes currentUrl "/create" then ret true
     else
       lyricsVisible <- visibleOrFalse drv (Css "text=Lyrics") ;;
       if lyricsVisible : bool then ret true
       else visibleOrFalse drv (Css ("[data-testid=" ++ q "user-menu" ++ "]")))
    (fun _ => ret false).

Definition waitForManualLogin : M W LoginResult :=
  tryCatch
    (waitForURL drv sunoUrlPattern 300000 ;;
     waitForTimeout drv 3000 ;;
     logStep "MANUAL" "Manual login completed successfully" "SUCCESS" ;;
     ret (LoginSuccess false))
    (fun _ =>
       logStep "ERROR" "Manual login timeout" "ERROR" ;;
       throw "Manual login timeout - user did not complete login").

(** A step of the scripted login: on failure the step is logged and the
    error is thrown again. *)
Definition loggedStep {A} (step failPrefix : string) (m : M W A) : M W A :=
  tryCatch m
    (fun e => logStep step (failPrefix ++ e) "ERROR" ;; throw e).

Definition loginWithGoogle (email password : string) : M W LoginResult :=
  tryCatch
    (logStep "1" "Navigating to Suno.com" "INFO" ;;
     pageGoto drv (baseUrl cfg) ;;
     waitForTimeout drv 2000 ;;
     logStep "1" "Successfully loaded Suno.com" "SUCCESS" ;;
     logStep "2" "Looking for Sign In button" "INFO" ;;
     signInButton <-
       forEach signInSelectors
         (fun selector (_ : option Locator) =>
            let b := First (Css selector) in
            v <- visibleOrFalse drv b ;;
            if v : bool then
              logStep "2" ("Found Sign In button (" ++ selector ++ ")") "SUCCESS" ;;
              ret (Break (Some b))
            else ret (Continue (Some b)))
         None ;;
     v <- setAndVisible drv signInButton ;;
     match signInButton with
     | Some b =>
         if v : bool then
           logStep "2" "Clicking Sign In button" "INFO" ;;
           click drv b ;;
           waitForTimeout drv 2000 ;;
           logStep "2" "Sign In button clicked" "SUCCESS"
         else logStep "2" "Sign In button not found - may already be on login page"
                      "WARNING"
     | None => logStep "2" "Sign In button not found - may already be on login page"
                       "WARNING"
     end ;;
     logStep "3" "Looking for Google login button" "INFO" ;;
     googleButton <-
       forEach googleSelectors
         (fun selector (_ : option Locator) =>
            let b := First (Css selector) in
            v <- visibleOrFalse drv b ;;
            if v : bool then
              logStep "3" ("Found Google button (" ++ selector ++ ")") "SUCCESS" ;;
              ret (Break (Some b))
            else ret (Continue (Some b)))
         None ;;
     gv <- setAndVisible drv googleButton ;;
     match googleButton with
     | Some gb =>
         if gv : bool then
           logStep "3" "Clicking Google login button" "INFO" ;;
           click drv gb ;;
           waitForTimeout drv 3000 ;;
           logStep "3" "Google OAuth popup opened" "SUCCESS" ;;
           if (JS.truthy email && JS.truthy password)%bool then
             logStep "4" "Credentials provided - starting automated login" "INFO" ;;
             logStep "4" "Filling in email address" "INFO" ;;
             loggedStep "4" "Failed to fill email: "
               (sel <- fillEmail email ;;
                logStep "4" ("Email filled successfully (" ++ sel ++ ")") "SUCCESS") ;;
             logStep "5" "Clicking Next button after email" "INFO" ;;
             loggedStep "5" "Failed to click Next: "
               (sel <- clickNextButton ;;
                logStep "5" ("Next button clicked (" ++ sel ++ ")") "SUCCESS" ;;
                waitForTimeout drv 2000) ;;
             logStep "6" "Checking for automation detection" "INFO" ;;
             isDetected <- checkAutomationDetected ;;
             if isDetected : bool then
               logStep "6" "Automation detected by Google - switching to manual mode"
                       "WARNING" ;;
               waitForManualLogin
             else
               logStep "6" "No automation detection - proceeding" "SUCCESS" ;;
               logStep "7" "Filling in password" "INFO" ;;
               loggedStep "7" "Failed to fill password: "
                 (sel <- fillPassword password ;;
                  logStep "7" ("Password filled successfully (" ++ sel ++ ")")
                          "SUCCESS") ;;
               logStep "8" "Clicking Sign In button" "INFO" ;;
               loggedStep "8" "Failed to click Sign In: "
                 (sel <- clickNextButton ;;
                  logStep "8" ("Sign In button clicked (" ++ sel ++ ")") "SUCCESS" ;;
                  waitForTimeout drv 3000) ;;
               logStep "9" "Checking for 2FA requirement" "INFO" ;;
               needs2FA <- check2FARequired ;;
               if needs2FA : bool then
                 logStep "9" "2FA required - user must complete manually" "WARNING" ;;
                 waitForManualLogin
               else
                 logStep "9" "No 2FA required - login proceeding" "SUCCESS" ;;
                 logStep "10" "Waiting for redirect to Suno.com" "WAITING" ;;
                 tryCatch
                   (waitForURL drv sunoUrlPattern 30000 ;;
                    logStep "10" "Successfully redirected to Suno.com" "SUCCESS")
                   (fun _ =>
                      logStep "10" "Redirect timeout - checking if login succeeded"
                              "WARNING" ;;
                      currentUrl <- pageUrl drv ;;
                      if JS.includes currentUrl "suno.com" then
                        logStep "10" "Already on Suno.com - login may have succeeded"
                                "SUCCESS"
                      else throw "Failed to redirect to Suno.com after login") ;;
                 waitForTimeout drv 3000 ;;
                 logStep "11" "Automated Google login completed successfully!"
                         "SUCCESS" ;;
                 ret (LoginSuccess true)
           else
             logStep "4" "No credentials provided - manual login required" "WARNING" ;;
             waitForManualLogin
         else throw "Could not find Google login button on the page"
     | None => throw "Could not find Google login button on the page"
     end)
    (fun e =>
       logStep "ERROR" ("Google login failed: " ++ e) "ERROR" ;;
       ret (LoginFailure e)).

Definition loginWithPassword (email password : string) : M W LoginResult :=
  tryCatch
    (pageGoto drv (baseUrl cfg) ;;
     waitForTimeout drv 2000 ;;
     let signInButton := First (Css "text=Sign In, text=Sign in, text=Log In") in
     v <- visibleOrFalse drv signInButton ;;
     (if v : bool then click drv signInButton ;; waitForTimeout drv 2000
      else ret tt) ;;
     emailButton <- scanSelectors drv emailLoginSelectors ;;
     ev <- setAndVisible drv emailButton ;;
     match emailButton with
     | Some b => if ev : bool then click drv b ;; waitForTimeout drv 1000 else ret tt
     | None => ret tt
     end ;;
     fill drv (First (Css ("input[type=" ++ q "email" ++ "], input[name="
                            ++ q "email" ++ "]"))) email ;;
     waitForTimeout drv 500 ;;
     fill drv (First (Css ("input[type=" ++ q "password" ++ "], input[name="
                            ++ q "password" ++ "]"))) password ;;
     waitForTimeout drv 500 ;;
     click drv (First (Css ("button[type=" ++ q "submit" ++ "], button:has-text("
                             ++ q "Sign in" ++ "), button:has-text("
                             ++ q "Log in" ++ ")"))) ;;
     waitForURL drv sunoUrlPattern 30000 ;;
     waitForTimeout drv 5000 ;;
     ret LoginTrue)
    (fun e => throw e).

Definition login : M W LoginResult :=
  isLoggedIn <- checkIfLoggedIn ;;
  if isLoggedIn : bool then ret LoginTrue
  else if String.eqb (authMethod cfg) "google" then
    credentials <- tryCatch (prim (loadCredentials drv)) (fun _ => ret None) ;;
    match credentials with
    | Some (email, password) => loginWithGoogle email password
    | None => loginWithGoogle EmptyString EmptyString
    end
  else if String.eqb (authMethod cfg) "password" then
    if (negb (JS.truthy (credEmail cfg)) || negb (JS.truthy (credPassword cfg)))%bool
    then throw "Email and password are required for password authentication"
    else loginWithPassword (credEmail cfg) (credPassword cfg)
  else throw ("Unknown auth method: " ++ authMethod cfg).

Definition close : M W unit :=
  hasContext <- getState (@context W) ;;
  if hasContext : bool then prim (act drv CloseContext) else ret tt.

  End WithDriver.
End AuthManagerPersistent.

(** ** download-manager.js *)

Module DownloadManager.

(** One downloaded file: [{ path, size, filename }]. *)
Record Artifact : Type := mkArtifact {
  art_path : string;
  art_size : N;
  art_filename : string
}.

(** [{ success: true, downloads, count }] *)
Record Downloads : Type := mkDownloads {
  downloads : list Artifact;
  dl_count : nat
}.

(** An entry of [completionIndicators]: a selector or the duration pattern. *)
Inductive Indicator : Type :=
| BySelector (kind : string) (selector : string)
| ByPattern (kind : string).

Definition captchaIndicators : list string :=
  [("iframe[src*=" ++ q "recaptcha" ++ "]"); ("iframe[src*=" ++ q "captcha" ++ "]");
   ".g-recaptcha"; "#captcha"; "text=verify you are human"; "text=I'm not a robot";
   ("[data-callback*=" ++ q "captcha" ++ "]")].

Definition editButton : string := "button:has-text(" ++ q "Edit" ++ ")".
Definition publishButton : string := "button:has-text(" ++ q "Publish" ++ ")".

Definition containerSelectors : list string :=
  ["div:has(img):has(" ++ editButton ++ ")";
   "div:has(img):has-text(/\d+:\d+/)";
   "div:has(" ++ editButton ++ "):has(" ++ publishButton ++ ")";
   "article";
   ("[data-testid=" ++ q "song-card" ++ "]");
   ("a[href^=" ++ q "/song/" ++ "]")].

Definition debugSelectors : list string :=
  [editButton; publishButton; ("a[href*=" ++ q "song" ++ "]"); "article";
   ("img[src*=" ++ q "image" ++ "]")].

Definition loadingIndicators : list string :=
  [("svg[class*=" ++ q "animate" ++ "]"); ("svg[class*=" ++ q "spin" ++ "]");
   ("[aria-busy=" ++ q "true" ++ "]"); ".loading"; ".spinner"].

Definition completionIndicators : list Indicator :=
  [BySelector "edit-button" editButton;
   BySelector "publish-button" publishButton;
   ByPattern "duration";
   BySelector "play-button" ("button[aria-label*=" ++ q "play" ++ " i]");
   BySelector "play-button2" ("button:has-text(" ++ q "Play" ++ ")")].

Definition songRow : string := "[data-testid=" ++ q "song-row" ++ "][data-clip-id]".

Definition menuButtonSelectors : list string :=
  [("button[aria-label=" ++ q "More Options" ++ "]");
   ("button[aria-label=" ++ q "More Actions" ++ "]");
   ("button[aria-label*=" ++ q "more" ++ " i]");
   ("button[aria-label*=" ++ q "options" ++ " i]");
   ("button:has-text(" ++ q "⋮" ++ ")");
   ("button[aria-label*=" ++ q "menu" ++ " i]");
   ("button:has-text(" ++ q "⋯" ++ ")");
   ("button:has-text(" ++ q "..." ++ ")");
   ("button:has-text(" ++ q "•••" ++ ")");
   ("[data-testid=" ++ q "song-menu" ++ "]");
   "button.more-options";
   ("button[class*=" ++ q "menu" ++ "]");
   ("button:right-of(" ++ publishButton ++ ")");
   ("svg[class*=" ++ q "dots" ++ "] >> xpath=..");
   ("svg[class*=" ++ q "ellipsis" ++ "] >> xpath=..")].

Definition openMenu : string :=
  "[data-radix-menu-content][data-state=" ++ q "open" ++ "]".

Definition mp3Selector : string :=
  "[role=" ++ q "menuitem" ++ "]:has-text(" ++ q "MP3 Audio" ++ "), "
  ++ "button[aria-label*=" ++ q "mp3" ++ " i], "
  ++ "button:has-text(" ++ q "MP3 Audio" ++ "), "
  ++ "[data-radix-collection-item]:has-text(" ++ q "MP3 Audio" ++ ")".

Definition pageClosedMessage : string := "Browser page was closed unexpectedly".

Definition browserClosedMessage : string :=
  "Browser closed - Please keep browser open during entire process".

Definition captchaTimeout : string :=
  "CAPTCHA solution timeout - user did not solve CAPTCHA within 5 minutes".

Definition timedOutMessage (maxWait : Z) : string :=
  "Song generation timed out after " ++ JS.showSeconds maxWait ++ " seconds".

Definition emptyFileMessage : string := "Downloaded file is empty".

(** [error.message.includes('closed') || error.message.includes('Target')] *)
Definition isClosedError (e : string) : bool :=
  (JS.includes e "closed" || JS.includes e "Target")%bool.

(** The file name of a downloaded variant. *)
Definition artifactFilename (songTitle : string) (version : Z) (iso : string)
  : string :=
  (if JS.truthy songTitle then songTitle else "suno-song")
  ++ "-v" ++ JS.showZ version ++ "-"
  ++ JS.substring0 19 (JS.replaceColonDot iso) ++ ".mp3".

(** *** [path.join] of the POSIX flavour of Node *)

(** The segments between the slashes of a path; [cur] is the segment being
    read. *)
Fixpoint segmentsFrom (cur : string) (s : string) : list string :=
  match s with
  | EmptyString => [cur]
  | String c r =>
      if Ascii.eqb c "/" then cur :: segmentsFrom EmptyString r
      else segmentsFrom (cur ++ String c EmptyString) r
  end.

(** [normalizeString]: empty segments and [.] are dropped, [..] removes
    the segment before it, or is kept when there is none to remove and the
    path is relative.  [res] holds the segments kept so far, the last one
    first. *)
Fixpoint normalizeSegments (allowAboveRoot : bool) (segs res : list string)
  : list string :=
  match segs with
  | [] => rev res
  | seg :: rest =>
      if (String.eqb seg EmptyString || String.eqb seg ".")%bool
      then normalizeSegments allowAboveRoot rest res
      else if String.eqb seg ".." then
        match res with
        | last :: res' =>
            if String.eqb last ".."
            then normalizeSegments allowAboveRoot rest
                   (if allowAboveRoot then ".." :: res else res)
            else normalizeSegments allowAboveRoot rest res'
        | [] =>
            normalizeSegments allowAboveRoot rest
              (if allowAboveRoot then [".."] else [])
        end
      else normalizeSegments allowAboveRoot rest (seg :: res)
  end.

Fixpoint endsWithSlash (s : string) : bool :=
  match s with
  | EmptyString => false
  | String c EmptyString => Ascii.eqb c "/"
  | String _ r => endsWithSlash r
  end.

(** [path.normalize(p)] *)
Definition normalize (p : string) : string :=
  match p with
  | EmptyString => "."
  | String c _ =>
      let isAbsolute := Ascii.eqb c "/" in
      let trailingSeparator := endsWithSlash p in
      let body :=
        String.concat "/"
          (normalizeSegments (negb isAbsolute) (segmentsFrom EmptyString p) []) in
      match body with
      | EmptyString =>
          if isAbsolute then "/" else if trailingSeparator then "./" else "."
      | _ =>
          (if isAbsolute then "/" else EmptyString) ++ body
          ++ (if trailingSeparator then "/" else EmptyString)
      end
  end.

(** [path.join(dir, name)]: the arguments that are not empty are joined
    with a slash and the result is normalized. *)
Definition pathJoin (dir name : string) : string :=
  match dir, name with
  | EmptyString, EmptyString => "."
  | EmptyString, _ => normalize name
  | _, EmptyString => normalize dir
  | _, _ => normalize (dir ++ "/" ++ name)
  end.

Section WithDriver.
  Context {W : Type} (drv : Driver W) (cfg : Config) (fuel : nat).

Definition takeDebugScreenshot (name : string) : M W unit :=
  tryCatch
    (timestamp <- peek (fun w => JS.replaceColonDot (isoTime drv w)) ;;
     let filename := "debug-" ++ name ++ "-" ++ timestamp ++ ".png" in
     let debugDir := pathJoin (downloadPath cfg) "debug" in
     ensureDir drv debugDir ;;
     screenshot drv (pathJoin debugDir filename))
    (fun _ => ret tt).

(** The warning sign that starts the first message in the source is left
    out; the handler replaces the message in any case. *)
Definition safeWaitForTimeout (timeout : Z) : M W unit :=
  tryCatch
    (closed <- peek (isClosed drv) ;;
     if closed : bool
     then throw "Browser was closed. Please keep the browser window open during song generation!"
     else waitForTimeout drv timeout)
    (fun e => if isClosedError e then throw browserClosedMessage else throw e).

Definition checkForCaptcha : M W bool :=
  tryCatch
    (r <- forOf captchaIndicators
            (fun indicator (_ : unit) =>
               tryCatch
                 (v <- isVisible drv (First (Css indicator)) ;;
                  if v : bool then ret (Return true) else ret (Continue tt))
                 (fun _ => ret (Continue tt)))
            tt ;;
     match r with
     | inr b => ret b
     | inl _ =>
         u <- pageUrl drv ;;
         if (JS.includes u "404" || JS.includes u "error")%bool
         then ret true
         else ret false
     end)
    (fun _ => ret false).

Definition waitForCaptchaSolution (maxWait : Z) : M W bool :=
  startTime <- dateNow drv ;;
  r <- while fuel
         (fun _ : unit => t <- dateNow drv ;; ret (t - startTime <? maxWait))
         (fun _ =>
            safeWaitForTimeout 5000 ;;
            stillHasCaptcha <- checkForCaptcha ;;
            if negb stillHasCaptcha then ret (Return true)
            else
              u <- pageUrl drv ;;
              if (JS.includes u "suno.com" && negb (JS.includes u "404")
                  && negb (JS.includes u "error"))%bool
              then ret (Return true)
              else ret (Continue tt))
         tt ;;
  match r with
  | inr b => ret b
  | inl _ => throw captchaTimeout
  end.

(** Is one listing entry still generating: the first visible loading
    indicator ends the search. *)
Definition isGenerating (song : Locator) : M W bool :=
  forEach loadingIndicators
    (fun indicator (_ : bool) =>
       hasLoading <- visibleOrFalse drv (Within song indicator) ;;
       if hasLoading : bool then ret (Break true) else ret (Continue false))
    false.

(** The diagnostic listing of the buttons of the chosen entry. *)
Definition logButtons (buttons : list Locator) : M W unit :=
  forEach buttons
    (fun button (_ : unit) =>
       _ <- catchDefault (prim (textContent drv button)) EmptyString ;;
       _ <- catchDefault (prim (getAttribute drv button "aria-label"))
                         (Some EmptyString) ;;
       _ <- visibleOrFalse drv button ;;
       ret (Continue tt))
    tt.

(** Step 2 of [checkSongStatus]: the containers of the first selector that
    finds any. *)
Definition findContainers : M W (list Locator) :=
  forEach containerSelectors
    (fun selector (_ : list Locator) =>
       songs <- all drv (Css selector) ;;
       if (0 <? List.length songs)%nat then ret (Break songs)
       else ret (Continue songs))
    [].

(** One iteration of the scan of step 3: is this entry past generating and
    does it carry a completion indicator. *)
Definition scanEntry (song : Locator) : M W bool :=
  songText <- catchDefault (prim (textContent drv song)) EmptyString ;;
  generating <- isGenerating song ;;
  if negb generating then
    hasEdit <- visibleOrFalse drv (Within song editButton) ;;
    hasPublish <- visibleOrFalse drv (Within song publishButton) ;;
    let hasDuration := JS.testDuration songText in
    ret (hasEdit || hasPublish || hasDuration)%bool
  else ret false.

(** The second look at the chosen entry: the first completion indicator
    found answers [true]; with none, the buttons are listed and the answer is
    [false]. *)
Definition confirmEntry (song : Locator) : M W bool :=
  songText <- catchDefault (prim (textContent drv song)) EmptyString ;;
  r <- forOf completionIndicators
         (fun indicator (_ : unit) =>
            match indicator with
            | ByPattern _ =>
                if JS.testDuration songText then ret (Return true)
                else ret (Continue tt)
            | BySelector _ selector =>
                v <- visibleOrFalse drv (First (Within song selector)) ;;
                if v : bool then ret (Return true) else ret (Continue tt)
            end)
         tt ;;
  match r with
  | inr b => ret b
  | inl _ =>
      allButtons <- all drv (Within song "button") ;;
      logButtons (firstn 10 allButtons) ;;
      ret false
  end.

(** The parameter [songTitle] is only printed by the source. *)
Definition checkSongStatus (songTitle : string) : M W bool :=
  tryCatch
    (currentUrl <- pageUrl drv ;;
     (if negb (JS.includes currentUrl "/me")
      then pageGoto drv (baseUrl cfg ++ "/me")
      else ret tt) ;;
     waitForTimeout drv 3000 ;;
     takeDebugScreenshot "me-page-status-check" ;;
     allSongs <- findContainers ;;
     if (List.length allSongs =? 0)%nat then
       forEach debugSelectors
         (fun selector (_ : unit) =>
            _ <- locatorCount drv (Css selector) ;; ret (Continue tt))
         tt ;;
       ret false
     else
       mostRecentSong <-
         forEach (firstn 10 allSongs)
           (fun song (_ : option Locator) =>
              complete <- scanEntry song ;;
              if complete : bool then ret (Break (Some song))
              else ret (Continue None))
           None ;;
       match mostRecentSong with
       | None => ret false
       | Some song => confirmEntry song
       end)
    (fun _ => ret false).

Definition waitForSongCompletion (songTitle : string) (maxWaitTime' : option Z)
  : M W bool :=
  let maxWait := JS.orNum maxWaitTime' (maxWaitTime cfg) in
  startTime <- dateNow drv ;;
  r <- while fuel
         (fun _ : unit => t <- dateNow drv ;; ret (t - startTime <? maxWait))
         (fun _ =>
            tryCatch
              (closed <- peek (isClosed drv) ;;
               if closed : bool then throw pageClosedMessage
               else
                 hasCaptcha <- checkForCaptcha ;;
                 (if hasCaptcha : bool
                  then _ <- waitForCaptchaSolution 300000 ;; ret tt
                  else ret tt) ;;
                 isComplete <- checkSongStatus songTitle ;;
                 if isComplete : bool then ret (Return true)
                 else safeWaitForTimeout (pollInterval cfg) ;; ret (Continue tt))
              (fun e =>
                 if isClosedError e then throw e
                 else
                   tryCatch (safeWaitForTimeout (pollInterval cfg))
                            (fun _ => throw "Browser connection lost") ;;
                   ret (Continue tt)))
         tt ;;
  match r with
  | inr b => ret b
  | inl _ => throw (timedOutMessage maxWait)
  end.

(** The body of the loop of [waitForSongCompletion], under a name: one look
    at the page, followed by the pause before the next one. *)
Definition pollOnce (songTitle : string) : M W (ctl unit bool) :=
  tryCatch
    (closed <- peek (isClosed drv) ;;
     if closed : bool then throw pageClosedMessage
     else
       hasCaptcha <- checkForCaptcha ;;
       (if hasCaptcha : bool
        then _ <- waitForCaptchaSolution 300000 ;; ret tt
        else ret tt) ;;
       isComplete <- checkSongStatus songTitle ;;
       if isComplete : bool then ret (Return true)
       else safeWaitForTimeout (pollInterval cfg) ;; ret (Continue tt))
    (fun e =>
       if isClosedError e then throw e
       else
         tryCatch (safeWaitForTimeout (pollInterval cfg))
                  (fun _ => throw "Browser connection lost") ;;
         ret (Continue tt)).

(** [[download] = await Promise.all([page.waitForEvent('download',
    { timeout }), action])]: the action is started and the download event
    is awaited; either failure rejects the whole. *)
Definition expectDownload (timeout : Z) (action : M W unit)
  : M W (option Download) :=
  action ;; prim (waitForDownload drv timeout).

(** The first three visible rows are printed with their clip id and
    image. *)
Definition logClipIds (songs : list Locator) : M W unit :=
  forEach (firstn 3 songs)
    (fun song (_ : unit) =>
       _ <- catchDefault (prim (getAttribute drv song "data-clip-id"))
                         (Some "no-id") ;;
       _ <- catchDefault (prim (getAttribute drv (First (Within song "img")) "src"))
                         (Some "no-img") ;;
       ret (Continue tt))
    tt.

(** Steps 4 to 6 and the verification of [downloadSingleSong], once the
    menu of the entry is open. *)
Definition fetchArtifact (songTitle : string) (version : Z) : M W Artifact :=
  let rootMenu := Last (Css openMenu) in
  waitForVisible drv rootMenu 8000 ;;
  iso <- peek (isoTime drv) ;;
  let filename := artifactFilename songTitle version iso in
  let target := pathJoin (downloadPath cfg) filename in
  ensureDir drv (downloadPath cfg) ;;
  let downloadTrigger :=
    First (OrElse (Css ("[data-testid=" ++ q "download-sub-trigger" ++ "]"))
                  (MenuItemNamed rootMenu "Download")) in
  focus drv downloadTrigger ;;
  keyboardPress drv "Enter" ;;
  let subMenu := Last (Css openMenu) in
  waitForVisible drv subMenu 8000 ;;
  waitForTimeout drv 150 ;;
  download <-
    tryCatch
      (expectDownload 5000 (keyboardPress drv "Enter"))
      (fun _ =>
         tryCatch
           (let mp3Item := First (Within subMenu mp3Selector) in
            waitForVisible drv mp3Item 4000 ;;
            expectDownload 15000 (click drv mp3Item))
           (fun e2 => throw ("Failed to download: " ++ e2))) ;;
  match download with
  | None => throw "MP3 menu item not found or no download started"
  | Some d =>
      saveAs drv d target ;;
      size <- prim (stat drv target) ;;
      if (size =? 0)%N then throw emptyFileMessage
      else ret (mkArtifact target size filename)
  end.

Definition downloadSingleSong (songTitle : string) (version : Z) (songIndex : nat)
  : M W Artifact :=
  tryCatch
    (pageGoto drv (baseUrl cfg ++ "/me") ;;
     waitForTimeout drv 3000 ;;
     allSongsRaw <- all drv (Css songRow) ;;
     allSongs <-
       forEach allSongsRaw
         (fun song (acc : list Locator) =>
            v <- visibleOrFalse drv song ;;
            if v : bool then ret (Continue (acc ++ [song])%list) else ret (Continue acc))
         [] ;;
     logClipIds allSongs ;;
     match nth_error allSongs songIndex with
     | None =>
         throw ("Song at index " ++ JS.showZ (Z.of_nat songIndex)
                ++ " not found (only "
                ++ JS.showZ (Z.of_nat (List.length allSongs)) ++ " songs found)")
     | Some songContainer =>
         isContainerVisible <- visibleOrFalse drv songContainer ;;
         (if negb isContainerVisible then
            prim (act drv ScrollToTop) ;;
            waitForTimeout drv 1000 ;;
            recheckVisible <- visibleOrFalse drv songContainer ;;
            if negb recheckVisible then
              throw ("Song container at index " ++ JS.showZ (Z.of_nat songIndex)
                     ++ " is still not visible after scroll reset")
            else ret tt
          else ret tt) ;;
         scrollIntoViewIfNeeded drv songContainer ;;
         waitForTimeout drv 500 ;;
         hover drv songContainer ;;
         waitForTimeout drv 500 ;;
         menuButton <-
           forEach menuButtonSelectors
             (fun selector (_ : option Locator) =>
                buttons <- all drv (Within songContainer selector) ;;
                found <-
                  forEach buttons
                    (fun btn (cur : option Locator) =>
                       v <- visibleOrFalse drv btn ;;
                       if v : bool then ret (Break (Some btn)) else ret (Continue cur))
                    None ;;
                match found with
                | Some _ => ret (Break found)
                | None => ret (Continue None)
                end)
             None ;;
         menuButton <-
           match menuButton with
           | Some _ => ret menuButton
           | None =>
               waitForTimeout drv 1000 ;;
               let moreButtonLocator :=
                 First (Within songContainer
                               ("button[aria-label*=" ++ q "More" ++ "]")) in
               tryCatch
                 (waitForVisible drv moreButtonLocator 5000 ;;
                  v <- isVisible drv moreButtonLocator ;;
                  if v : bool then ret (Some moreButtonLocator) else ret None)
                 (fun _ => ret None)
           end ;;
         match menuButton with
         | None =>
             allButtons <- all drv (Within songContainer "button") ;;
             logButtons allButtons ;;
             takeDebugScreenshot "menu-button-not-found" ;;
             throw "Could not find song menu button"
         | Some mb =>
             click drv mb ;;
             fetchArtifact songTitle version
         end
     end)
    (fun e => throw e).

Definition downloadBothSongs (songTitle : string) : M W Downloads :=
  tryCatch
    (download1 <- downloadSingleSong songTitle 1 0 ;;
     let downloads := ([] ++ [download1])%list in
     waitForTimeout drv 3000 ;;
     download2 <- downloadSingleSong songTitle 2 1 ;;
     let downloads := (downloads ++ [download2])%list in
     ret (mkDownloads downloads (List.length downloads)))
    (fun e => throw e).

  End WithDriver.
End DownloadManager.

(** ** suno-bot.js *)

Module SunoBot.

(** [{ success: true, title, totalRounds, count, downloads }] *)
Record FullResult : Type := mkFullResult {
  fr_title : string;
  fr_totalRounds : nat;
  fr_count : nat;
  fr_downloads : list DownloadManager.Artifact
}.

Definition closeHook : Event := Invoke "SunoBot.close".

Section WithDriver.
  Context {W : Type} (drv : Driver W) (cfg : Config) (fuel : nat).

(** The status callback is the server's [broadcastStatus]. *)
Definition updateStatus (status : string) (data : list (string * val)) : M W unit :=
  emit (Status status data).

(** [new SunoBot()] *)
Definition newBot : M W unit :=
  setAuthManager false ;; setContext false.

Definition initialize : M W bool :=
  tryCatch
    (updateStatus "loading_config" [] ;;
     updateStatus "initializing_browser" [] ;;
     setAuthManager true ;;
     AuthManagerPersistent.initialize drv ;;
     ret true)
    (fun e => throw e).

Definition login : M W bool :=
  tryCatch
    (updateStatus "authenticating" [] ;;
     _ <- AuthManagerPersistent.login drv cfg ;;
     updateStatus "authenticated" [] ;;
     ret true)
    (fun e => updateStatus "auth_failed" [("error", VStr e)] ;; throw e).

Definition createSong (title lyrics style : string)
  : M W (SongCreator.CreateResult * string) :=
  tryCatch
    (let sanitizedTitle :=
       Utils.sanitizeTitle (if JS.truthy title then title else "Untitled_Song") in
     updateStatus "creating_song"
                  [("title", VStr sanitizedTitle); ("style", VStr style)] ;;
     result <- SongCreator.createSong drv cfg fuel title lyrics style ;;
     updateStatus "song_created"
                  [("title", VStr sanitizedTitle);
                   ("timestamp", VNum (SongCreator.cr_timestamp result))] ;;
     ret (result, sanitizedTitle))
    (fun e => updateStatus "creation_failed" [("error", VStr e)] ;; throw e).

(** Simple wait: just wait for the configured time. *)
Definition waitForCompletion (songTitle : string) (maxWaitTime' : option Z)
  : M W bool :=
  tryCatch
    (updateStatus "waiting_for_completion" [("title", VStr songTitle)] ;;
     let waitTime := JS.orNum maxWaitTime' (maxWaitTime cfg) in
     waitForTimeout drv waitTime ;;
     updateStatus "song_completed" [("title", VStr songTitle)] ;;
     ret true)
    (fun e => updateStatus "completion_timeout" [("error", VStr e)] ;; throw e).

Definition downloadBothSongs (songTitle : string) : M W DownloadManager.Downloads :=
  tryCatch
    (updateStatus "downloading" [("title", VStr songTitle)] ;;
     result <- DownloadManager.downloadBothSongs drv cfg songTitle ;;
     updateStatus "download_complete"
                  [("title", VStr songTitle);
                   ("count", VNum (Z.of_nat (DownloadManager.dl_count result)))] ;;
     ret result)
    (fun e => updateStatus "download_failed" [("error", VStr e)] ;; throw e).

Definition automateFullProcess (title lyrics style : string) (numberOfRounds : nat)
  : M W FullResult :=
  tryCatch
    (hasAuthManager <- getState (@authManager W) ;;
     (if negb hasAuthManager then _ <- initialize ;; ret tt else ret tt) ;;
     let waitMinutes := JS.orNum (Some (maxWaitMinutes cfg)) 3 in
     let totalSongs := (numberOfRounds * 2)%nat in
     _ <- login ;;
     acc <-
       forEach (seq 1 numberOfRounds)
         (fun round (acc : list DownloadManager.Artifact * nat) =>
            let '(allDownloads, totalDownloadCount) := acc in
            updateStatus "creating_song"
                         [("round", VNum (Z.of_nat round));
                          ("totalRounds", VNum (Z.of_nat numberOfRounds))] ;;
            createResult <- createSong title lyrics style ;;
            let songTitle := snd createResult in
            let waitMs := waitMinutes * 60 * 1000 in
            updateStatus "waiting_for_generation"
                         [("title", VStr songTitle);
                          ("waitMinutes", VNum waitMinutes);
                          ("round", VNum (Z.of_nat round));
                          ("totalRounds", VNum (Z.of_nat numberOfRounds))] ;;
            waitForTimeout drv waitMs ;;
            downloadResult <- downloadBothSongs songTitle ;;
            let totalDownloadCount :=
              (totalDownloadCount + DownloadManager.dl_count downloadResult)%nat in
            let allDownloads :=
              (allDownloads ++ DownloadManager.downloads downloadResult)%list in
            updateStatus "round_complete"
                         [("round", VNum (Z.of_nat round));
                          ("totalRounds", VNum (Z.of_nat numberOfRounds));
                          ("roundDownloads",
                           VNum (Z.of_nat (DownloadManager.dl_count downloadResult)));
                          ("totalDownloads", VNum (Z.of_nat totalDownloadCount));
                          ("targetTotal", VNum (Z.of_nat totalSongs))] ;;
            ret (Continue (allDownloads, totalDownloadCount)))
         ([], O) ;;
     let '(allDownloads, totalDownloadCount) := acc in
     updateStatus "complete"
                  [("title", VStr title);
                   ("totalRounds", VNum (Z.of_nat numberOfRounds));
                   ("count", VNum (Z.of_nat totalDownloadCount))] ;;
     ret (mkFullResult title numberOfRounds totalDownloadCount allDownloads))
    (fun e => updateStatus "failed" [("error", VStr e)] ;; throw e).

(** The session-release hook; its invocation is recorded in the log. *)
Definition close : M W unit :=
  emit closeHook ;;
  hasAuthManager <- getState (@authManager W) ;;
  if hasAuthManager : bool then AuthManagerPersistent.close drv else ret tt.

  End WithDriver.
End SunoBot.

(** ** server.js: the asynchronous bodies of the two creation routes *)

Module Server.

(** A style preset: [{ id, name, style, category }]. *)
Record Preset : Type := mkPreset {
  preset_id : string;
  preset_name : string;
  preset_style : string;
  preset_category : string
}.

(** [parseInt(numberOfSongs)] as the validation lets it through: a number
    of songs, or NaN, for which neither [songsCount < 1] nor
    [songsCount > 50] holds. *)
Inductive Count : Type :=
| Num (n : nat)
| NotANumber.

Definition countVal (c : Count) : val :=
  match c with
  | Num n => VNum (Z.of_nat n)
  | NotANumber => VNaN
  end.

(** The values of [i] in [for (let i = 0; i < c; i++)]. *)
Definition indices (c : Count) : list nat :=
  match c with
  | Num n => seq 0 n
  | NotANumber => []
  end.

(** [i < c - 1] *)
Definition beforeLast (i : nat) (c : Count) : bool :=
  match c with
  | Num n => (i <? n - 1)%nat
  | NotANumber => false
  end.

(** The validated body of a batch request. *)
Record BatchRequest : Type := mkBatchRequest {
  preset : Preset;
  stylePresetId : string;
  songsCount : Count;
  lyrics : string;
  randomStylePresets : bool;
  categoryPresets : list Preset
}.

Definition batchComplete (total : Count) (success failed : nat) : Event :=
  Status "batch_complete"
         [("total", countVal total); ("success", VNum (Z.of_nat success));
          ("failed", VNum (Z.of_nat failed))].

Definition batchProgress (current : nat) (total : Count) (styleName : string)
           (randomMode : bool) : Event :=
  Status "batch_progress"
         [("current", VNum (Z.of_nat current)); ("total", countVal total);
          ("styleName", VStr styleName); ("randomMode", VBool randomMode)].

(** The message of the batch-song-error event of job [i] (counted from 0). *)
Definition songFailed (i : nat) (e : string) : string :=
  "Failed to create song " ++ JS.showZ (Z.of_nat (i + 1)) ++ ": " ++ e.

(** The message of the batch-error event. *)
Definition batchFailed (e : string) : string := "Batch process failed: " ++ e.

(** The title of job [i] (counted from 0) for a preset name. *)
Definition songTitleOf (name : string) (i : nat) : string :=
  name ++ " - Song " ++ JS.showZ (Z.of_nat (i + 1)).

Section WithDriver.
  Context {W : Type} (drv : Driver W) (cfg : Config) (fuel : nat).

Definition broadcastStatus (e : Event) : M W unit := emit e.

(** The asynchronous body of POST /api/create-song. *)
Definition createSongProcess (title lyrics style : string) (rounds : nat)
  : M W unit :=
  SunoBot.newBot ;;
  setCurrentBot true ;;
  tryFinally
    (tryCatch
       (_ <- SunoBot.automateFullProcess drv cfg fuel
               (if JS.truthy title then title else "Untitled Song")
               lyrics style rounds ;;
        broadcastStatus (Status "complete" []))
       (fun e =>
          broadcastStatus (Status "error" [("message", VStr e)]) ;;
          setTimeoutPromise drv 30000))
    (SunoBot.close drv ;;
     setCurrentBot false ;;
     setIsProcessing false).

(** The preset of job [i]: the locked one, or a random one of its
    category. *)
Definition choosePreset (req : BatchRequest) : M W Preset :=
  if (randomStylePresets req && (1 <? List.length (categoryPresets req))%nat)%bool
  then
    r <- mathRandom drv ;;
    let randomIndex :=
      Double.floor
        (Double.mul (Double.Fin r)
                    (Double.ofZ (Z.of_nat (List.length (categoryPresets req))))) in
    match Double.nth (categoryPresets req) randomIndex with
    | Some currentPreset =>
        (if negb (String.eqb (preset_id currentPreset) (stylePresetId req))
         then prim (act drv (IncrementUsage (preset_id currentPreset)))
         else ret tt) ;;
        ret currentPreset
    | None => throw "Cannot read properties of undefined (reading 'id')"
    end
  else ret (preset req).

(** The three steps of one job. *)
Definition runJob (songTitle lyrics style : string) : M W unit :=
  _ <- SunoBot.createSong drv cfg fuel songTitle lyrics style ;;
  _ <- SunoBot.waitForCompletion drv cfg songTitle None ;;
  _ <- SunoBot.downloadBothSongs drv cfg songTitle ;;
  ret tt.

(** The start of iteration [i]: the preset is chosen and the progress is
    announced. *)
Definition jobProlog (req : BatchRequest) (i : nat) : M W Preset :=
  currentPreset <- choosePreset req ;;
  broadcastStatus (batchProgress (i + 1) (songsCount req)
                                 (preset_name currentPreset)
                                 (randomStylePresets req)) ;;
  ret currentPreset.

(** The body of the [try] of iteration [i] of the batch loop. *)
Definition batchIteration (req : BatchRequest) (i : nat) : M W unit :=
  currentPreset <- jobProlog req i ;;
  let songTitle := songTitleOf (preset_name currentPreset) i in
  runJob songTitle (lyrics req) (preset_style currentPreset) ;;
  n <- getState (@successCount W) ;;
  setSuccessCount (n + 1) ;;
  if beforeLast i (songsCount req) then
    broadcastStatus (Status "batch_waiting"
                            [("current", VNum (Z.of_nat (i + 1)));
                             ("total", countVal (songsCount req))]) ;;
    setTimeoutPromise drv 10000
  else ret tt.

(** One iteration with its [catch]: a failed job is counted and the loop
    goes on. *)
Definition batchStep (req : BatchRequest) (i : nat) : M W unit :=
  tryCatch
    (batchIteration req i)
    (fun e =>
       n <- getState (@failCount W) ;;
       setFailCount (n + 1) ;;
       broadcastStatus (Status "batch_song_error"
                               [("message", VStr (songFailed i e));
                                ("current", VNum (Z.of_nat (i + 1)));
                                ("total", countVal (songsCount req))])).

Definition batchLoop (req : BatchRequest) (indices : list nat) : M W unit :=
  forEach indices
    (fun i (_ : unit) => batchStep req i ;; ret (Continue tt))
    tt.

(** The bot is created once, the browser is started and the login is done
    once, before the loop. *)
Definition batchSetup : M W unit :=
  SunoBot.newBot ;;
  setBotVar true ;;
  setCurrentBot true ;;
  _ <- SunoBot.initialize drv ;;
  _ <- SunoBot.login drv cfg ;;
  ret tt.

(** The declarations of the closure's variables. *)
Definition batchLocals : M W unit :=
  setSuccessCount 0 ;;
  setFailCount 0 ;;
  setBotVar false.

(** The [finally] block of the batch. *)
Definition batchFinally (req : BatchRequest) : M W unit :=
  hasBot <- getState (@botVar W) ;;
  (if hasBot : bool then SunoBot.close drv ;; setCurrentBot false else ret tt) ;;
  setIsProcessing false ;;
  success <- getState (@successCount W) ;;
  failed <- getState (@failCount W) ;;
  broadcastStatus (batchComplete (songsCount req) success failed).

(** The asynchronous body of POST /api/batch-create. *)
Definition batchProcess (req : BatchRequest) : M W unit :=
  batchLocals ;;
  tryFinally
    (tryCatch
       (batchSetup ;;
        batchLoop req (indices (songsCount req)))
       (fun e =>
          broadcastStatus (Status "batch_error" [("message", VStr (batchFailed e))])))
    (batchFinally req).

End WithDriver.
End Server.

(** ** config/style-presets.js *)

Module StylePresetManager.

(** A stored preset.  The built-in and the created presets carry every
    field; an imported preset is stored as it is given and may come without
    a favorite flag, a usage count or time stamps. *)
Record StylePreset : Type := mkStylePreset {
  sp_id : string;
  sp_name : string;
  sp_style : string;
  sp_category : string;
  sp_favorite : option bool;
  sp_usageCount : option nat;
  sp_createdAt : option string;
  sp_updatedAt : option string;
  sp_lastUsed : option string;
  sp_importedAt : option string
}.

(** The body of an update request: the fields it carries replace those of
    the preset.  The fields are taken with the types of the preset. *)
Record Updates : Type := mkUpdates {
  u_id : option string;
  u_name : option string;
  u_style : option string;
  u_category : option string;
  u_favorite : option bool;
  u_usageCount : option nat
}.

(** [{ version, exportedAt, presets }] *)
Record Export : Type := mkExport {
  ex_version : string;
  ex_exportedAt : string;
  ex_presets : list StylePreset
}.

(** What the manager reaches outside of its array: the random bytes of the
    identifiers, the clock, and the file the presets are written to. *)
Record Env (E : Type) : Type := mkEnv {
  randomHex : E -> string * E;    (* crypto.randomBytes(8).toString('hex') *)
  isoNow : E -> string;           (* new Date().toISOString() *)
  writePresets : list StylePreset -> E -> reply unit * E
                                  (* fs.ensureDir, then fs.writeJSON *)
}.

(** The manager: its array [this.presets] and the outside. *)
Record Mem (E : Type) : Type := mkMem {
  presets : list StylePreset;
  outside : E
}.

Definition hasId (i : string) (p : StylePreset) : bool := String.eqb (sp_id p) i.

(** [presets.findIndex(p => p.id === id)] together with the preset found;
    [None] for [-1]. *)
Fixpoint findIndex (i : string) (ps : list StylePreset) : option (nat * StylePreset) :=
  match ps with
  | [] => None
  | p :: rest =>
      if hasId i p then Some (O, p)
      else match findIndex i rest with
           | Some (n, q) => Some (S n, q)
           | None => None
           end
  end.

(** [presets[index] = f(presets[index])] *)
Fixpoint updateAt (n : nat) (f : StylePreset -> StylePreset) (ps : list StylePreset)
  : list StylePreset :=
  match ps, n with
  | [], _ => []
  | p :: rest, O => f p :: rest
  | p :: rest, S m => p :: updateAt m f rest
  end.

(** [presets.splice(index, 1)] *)
Fixpoint removeAt (n : nat) (ps : list StylePreset) : list StylePreset :=
  match ps, n with
  | [], _ => []
  | _ :: rest, O => rest
  | p :: rest, S m => p :: removeAt m rest
  end.

Definition orElse {A} (o : option A) (d : A) : A :=
  match o with
  | Some a => a
  | None => d
  end.

(** [{ ...preset, ...updates, updatedAt }] *)
Definition applyUpdates (u : Updates) (ts : string) (p : StylePreset) : StylePreset :=
  mkStylePreset (orElse (u_id u) (sp_id p)) (orElse (u_name u) (sp_name p))
                (orElse (u_style u) (sp_style p))
                (orElse (u_category u) (sp_category p))
                (match u_favorite u with
                 | Some b => Some b
                 | None => sp_favorite p
                 end)
                (match u_usageCount u with
                 | Some n => Some n
                 | None => sp_usageCount p
                 end)
                (sp_createdAt p) (Some ts) (sp_lastUsed p) (sp_importedAt p).

(** [preset.usageCount = (preset.usageCount || 0) + 1; preset.lastUsed = ts] *)
Definition used (ts : string) (p : StylePreset) : StylePreset :=
  mkStylePreset (sp_id p) (sp_name p) (sp_style p) (sp_category p) (sp_favorite p)
                (Some (orElse (sp_usageCount p) O + 1)%nat)
                (sp_createdAt p) (sp_updatedAt p) (Some ts) (sp_importedAt p).

(** The truth value of the favorite flag: a missing flag is falsy. *)
Definition isFavorite (p : StylePreset) : bool := orElse (sp_favorite p) false.

(** [preset.favorite = !preset.favorite] *)
Definition toggled (p : StylePreset) : StylePreset :=
  mkStylePreset (sp_id p) (sp_name p) (sp_style p) (sp_category p)
                (Some (negb (isFavorite p))) (sp_usageCount p)
                (sp_createdAt p) (sp_updatedAt p) (sp_lastUsed p) (sp_importedAt p).

(** [p.id = i; p.importedAt = ts] *)
Definition reissued (i ts : string) (p : StylePreset) : StylePreset :=
  mkStylePreset i (sp_name p) (sp_style p) (sp_category p) (sp_favorite p)
                (sp_usageCount p) (sp_createdAt p) (sp_updatedAt p) (sp_lastUsed p)
                (Some ts).

(** [existingNames.has(p.name)] *)
Definition nameIn (names : list string) (p : StylePreset) : bool :=
  existsb (String.eqb (sp_name p)) names.

Definition notFound (i : string) : string := "Preset not found: " ++ i.

Section WithEnv.
  Context {E : Type} (env : Env E).


Definition getPresets : M (Mem E) (list StylePreset) := peek (@presets E).

Definition setPresets (ps : list StylePreset) : M (Mem E) unit :=
  total (fun m => (tt, mkMem ps (outside m))).

Definition randomId : M (Mem E) string :=
  total (fun m => let (s, e) := randomHex env (outside m) in (s, mkMem (presets m) e)).

Definition timestamp : M (Mem E) string := peek (fun m => isoNow env (outside m)).

Definition save : M (Mem E) unit :=
  tryCatch
    (prim (fun m => let (r, e) := writePresets env (presets m) (outside m) in
                    (r, mkMem (presets m) e)))
    (fun e => throw e).

(** [category = 'Custom'] is the default of a missing third argument. *)
Definition createPreset (name style : string) (category : option string)
  : M (Mem E) StylePreset :=
  i <- randomId ;;
  ts <- timestamp ;;
  let preset := mkStylePreset i name style (orElse category "Custom") (Some false)
                              (Some O)
                              (Some ts) None None None in
  ps <- getPresets ;;
  setPresets (ps ++ [preset]) ;;
  save ;;
  ret preset.

Definition updatePreset (i : string) (updates : Updates) : M (Mem E) StylePreset :=
  ps <- getPresets ;;
  match findIndex i ps with
  | None => throw (notFound i)
  | Some (index, p) =>
      ts <- timestamp ;;
      setPresets (updateAt index (applyUpdates updates ts) ps) ;;
      save ;;
      ret (applyUpdates updates ts p)
  end.

Definition deletePreset (i : string) : M (Mem E) bool :=
  ps <- getPresets ;;
  match findIndex i ps with
  | None => throw (notFound i)
  | Some (index, _) =>
      setPresets (removeAt index ps) ;;
      save ;;
      ret true
  end.

(** [presets.find(p => p.id === id)] *)
Definition getPreset (i : string) : M (Mem E) (option StylePreset) :=
  ps <- getPresets ;; ret (find (hasId i) ps).

Definition incrementUsage (i : string) : M (Mem E) unit :=
  ps <- getPresets ;;
  match findIndex i ps with
  | Some (index, _) =>
      ts <- timestamp ;;
      setPresets (updateAt index (used ts) ps) ;;
      save
  | None => ret tt
  end.

Definition toggleFavorite (i : string) : M (Mem E) bool :=
  ps <- getPresets ;;
  match findIndex i ps with
  | Some (index, p) =>
      setPresets (updateAt index toggled ps) ;;
      save ;;
      ret (isFavorite (toggled p))
  | None => ret false
  end.

(** [presetIds] is [None] when the argument is missing; an empty array
    selects nothing. *)
Definition exportPresets (presetIds : option (list string)) : M (Mem E) Export :=
  ps <- getPresets ;;
  let presetsToExport :=
    match presetIds with
    | Some ids => filter (fun p => existsb (String.eqb (sp_id p)) ids) ps
    | None => ps
    end in
  ts <- timestamp ;;
  ret (mkExport "1.0.0" ts presetsToExport).

(** [newPresets.forEach(p => { p.id = ...; p.importedAt = ... })] *)
Fixpoint reissueAll (ps : list StylePreset) : M (Mem E) (list StylePreset) :=
  match ps with
  | [] => ret []
  | p :: rest =>
      i <- randomId ;;
      ts <- timestamp ;;
      rest' <- reissueAll rest ;;
      ret (reissued i ts p :: rest')
  end.

(** [data] is [None] when [data] or [data.presets] is missing. *)
Definition importPresets (data : option (list StylePreset)) (merge : bool)
  : M (Mem E) nat :=
  match data with
  | None => throw "Invalid import data"
  | Some imported =>
      (if merge then
         ps <- getPresets ;;
         let existingNames := map sp_name ps in
         let newPresets := filter (fun p => negb (nameIn existingNames p)) imported in
         newPresets' <- reissueAll newPresets ;;
         setPresets (ps ++ newPresets')
       else setPresets imported) ;;
      save ;;
      ps' <- getPresets ;;
      ret (List.length ps')
  end.

  End WithEnv.
End StylePresetManager.

(** ** seo-generator.js: the metadata built without the language model *)

Module SEOGenerator.
Import Utils.

(** [{ title, style, lyrics }]; a missing field is [None]. *)
Record SongData : Type := mkSongData {
  sd_title : option jsstring;
  sd_style : option jsstring;
  sd_lyrics : option jsstring
}.

(** [{ title, description, tags }] *)
Record Metadata : Type := mkMetadata {
  md_title : jsstring;
  md_description : jsstring;
  md_tags : list jsstring
}.

(** [x || d] on strings: a missing and an empty string are falsy. *)
Definition orString (x : option jsstring) (d : jsstring) : jsstring :=
  match x with
  | Some (c :: r) => c :: r
  | _ => d
  end.

(** [x ? f x : d] *)
Definition whenString {A} (x : option jsstring) (f : jsstring -> A) (d : A) : A :=
  match x with
  | Some (c :: r) => f (c :: r)
  | _ => d
  end.

Definition comma : N := 44.

(** [s.split(',')]: the pieces between the commas, one more than there are
    commas; [cur] holds, in reverse, the units of the piece being read. *)
Fixpoint splitFrom (cur : jsstring) (s : jsstring) : list jsstring :=
  match s with
  | [] => [rev cur]
  | c :: r =>
      if (c =? comma)%N then rev cur :: splitFrom [] r
      else splitFrom (c :: cur) r
  end.

Definition split (s : jsstring) : list jsstring := splitFrom [] s.

Fixpoint trimStart (s : jsstring) : jsstring :=
  match s with
  | c :: r => if isWhitespace c then trimStart r else s
  | [] => []
  end.

(** [s.trim()] *)
Definition trim (s : jsstring) : jsstring := rev (trimStart (rev (trimStart s))).

(** [s.length > n ? s.substring(0, n - 3) + '...' : s] *)
Definition ellipsize (n : nat) (s : jsstring) : jsstring :=
  if (n <? List.length s)%nat
  then (substring0 (n - 3) s ++ ofString "...")%list
  else s.

Definition generateBasicTitle (songData : SongData) : jsstring :=
  let baseTitle := orString (sd_title songData) (ofString "Untitled Song") in
  let styleStr := whenString (sd_style songData)
                             (fun style => (ofString " - " ++ style)%list) [] in
  let fullTitle := (baseTitle ++ styleStr ++ ofString " | AI Generated Music")%list in
  ellipsize 100 fullTitle.

Section WithLowerCase.
  (** [String.prototype.toLowerCase], a primitive of the language. *)
  Variable toLowerCase : jsstring -> jsstring.

Definition generateBasicTags (songData : SongData) : list jsstring :=
  let baseTags := [ofString "music"; ofString "ai music"; ofString "generated music"] in
  let baseTags :=
    whenString (sd_style songData)
      (fun style =>
         let genres := map (fun g => toLowerCase (trim g)) (split style) in
         (baseTags ++ firstn 3 genres)%list)
      baseTags in
  let baseTags :=
    (baseTags ++ [ofString "new music"; ofString "original music";
                  ofString "instrumental"])%list in
  firstn 10 baseTags.

  End WithLowerCase.
End SEOGenerator.

(* ================================================================== *)
(** * Example worlds                                                   *)
(* ================================================================== *)

(** Concrete drivers on which the computations are run in the examples
    below. *)

Module Worlds.

(** A world that is only a clock, in milliseconds.  Waiting advances the
    clock, every action succeeds, nothing is visible, nothing is listed and
    [Math.random()] gives one half. *)
Definition idle : Driver Z :=
  mkDriver
    (fun t => t)
    (fun _ => "2025-01-01T00:00:00.000Z")
    (fun _ => "https://suno.com/create")
    (fun _ => false)
    (fun t => (1 # 2, t))
    (fun ms t => t + ms)
    (fun a t => match a with
                | WaitForTimeout ms => (Done tt, t + ms)
                | _ => (Done tt, t)
                end)
    (fun _ t => (Done false, t))
    (fun _ t => (Done O, t))
    (fun _ t => (Done EmptyString, t))
    (fun _ _ t => (Done None, t))
    (fun _ t => (Done None, t))
    (fun _ t => (Done None, t))
    (fun _ t => (Done 0%N, t))
    (fun t => (Done None, t)).

Definition defaultConfig : Config :=
  mkConfig "google" EmptyString EmptyString "downloads" "https://suno.com"
           30000 120000 2.

(** The creation page of a working session: one style textarea, an enabled
    Create button, no title field and no challenge. *)
Definition studio : Driver Z :=
  mkDriver
    (fun t => t)
    (fun _ => "2025-01-01T00:00:00.000Z")
    (fun _ => "https://suno.com/create")
    (fun _ => false)
    (fun t => (1 # 2, t))
    (fun ms t => t + ms)
    (fun a t => match a with
                | WaitForTimeout ms => (Done tt, t + ms)
                | _ => (Done tt, t)
                end)
    (fun p t => match p with
                | IsVisible (Nth (Css _) _) => (Done true, t)
                | IsVisible (First (Css s)) =>
                    (Done (String.eqb s ("button:has-text(" ++ q "Create" ++ ")")), t)
                | _ => (Done false, t)
                end)
    (fun l t => match l with
                | Css _ => (Done 1%nat, t)
                | _ => (Done O, t)
                end)
    (fun _ t => (Done EmptyString, t))
    (fun _ a t => (Done (if String.eqb a "placeholder"
                         then Some "Enter style of music" else Some "1000"), t))
    (fun _ t => (Done None, t))
    (fun _ t => (Done None, t))
    (fun _ t => (Done 0%N, t))
    (fun t => (Done None, t)).

(** A creation form whose only textarea is the lyrics field: it is visible,
    carries the placeholder of the lyrics field and has no maxlength. *)
Definition lyricsOnly : Driver Z :=
  mkDriver
    (fun t => t)
    (fun _ => "2025-01-01T00:00:00.000Z")
    (fun _ => "https://suno.com/create")
    (fun _ => false)
    (fun t => (1 # 2, t))
    (fun ms t => t + ms)
    (fun a t => match a with
                | WaitForTimeout ms => (Done tt, t + ms)
                | _ => (Done tt, t)
                end)
    (fun p t => match p with
                | IsVisible (Nth (Css _) _) => (Done true, t)
                | _ => (Done false, t)
                end)
    (fun l t => match l with
                | Css _ => (Done 1%nat, t)
                | _ => (Done O, t)
                end)
    (fun _ t => (Done EmptyString, t))
    (fun _ a t => (Done (if String.eqb a "placeholder"
                         then Some "Write some lyrics or leave empty for instrumental"
                         else None), t))
    (fun _ t => (Done None, t))
    (fun _ t => (Done None, t))
    (fun _ t => (Done 0%N, t))
    (fun t => (Done None, t)).

(** A browser that has lost its page: navigation and every locator call
    fail. *)
Definition offline : Driver Z :=
  mkDriver
    (fun t => t)
    (fun _ => "2025-01-01T00:00:00.000Z")
    (fun _ => "about:blank")
    (fun _ => false)
    (fun t => (1 # 2, t))
    (fun ms t => t + ms)
    (fun a t => match a with
                | WaitForTimeout ms => (Done tt, t + ms)
                | Goto _ => (Fail "net::ERR_INTERNET_DISCONNECTED", t)
                | _ => (Done tt, t)
                end)
    (fun _ t => (Fail "locator.isVisible: Timeout exceeded", t))
    (fun _ t => (Fail "locator.count: Timeout exceeded", t))
    (fun _ t => (Fail "locator.textContent: Timeout exceeded", t))
    (fun _ _ t => (Fail "locator.getAttribute: Timeout exceeded", t))
    (fun _ t => (Done None, t))
    (fun _ t => (Done None, t))
    (fun _ t => (Done 0%N, t))
    (fun t => (Done None, t)).

(** A sign-in page on which the Google button is shown, credentials are
    stored, and the page of the OAuth provider shows no email field. *)
Definition googleNoEmail : Driver Z :=
  mkDriver
    (fun t => t)
    (fun _ => "2025-01-01T00:00:00.000Z")
    (fun _ => "https://accounts.google.com/signin")
    (fun _ => false)
    (fun t => (1 # 2, t))
    (fun ms t => t + ms)
    (fun a t => match a with
                | WaitForTimeout ms => (Done tt, t + ms)
                | _ => (Done tt, t)
                end)
    (fun p t => match p with
                | IsVisible (First (Css s)) =>
                    (Done (String.eqb s "text=Continue with Google"), t)
                | _ => (Done false, t)
                end)
    (fun _ t => (Done O, t))
    (fun _ t => (Done EmptyString, t))
    (fun _ _ t => (Done None, t))
    (fun _ t => (Done None, t))
    (fun _ t => (Done None, t))
    (fun _ t => (Done 0%N, t))
    (fun t => (Done (Some ("user@example.com", "secret")), t)).

(** A listing with two finished songs whose menus open and whose downloads
    start at once; every saved file has 4096 bytes. *)
Definition library : Driver Z :=
  mkDriver
    (fun t => t)
    (fun _ => "2025-01-01T00:00:00.000Z")
    (fun _ => "https://suno.com/me")
    (fun _ => false)
    (fun t => (1 # 2, t))
    (fun ms t => t + ms)
    (fun a t => match a with
                | WaitForTimeout ms => (Done tt, t + ms)
                | _ => (Done tt, t)
                end)
    (fun p t => match p with
                | IsVisible (Nth _ _) => (Done true, t)
                | _ => (Done false, t)
                end)
    (fun l t => match l with
                | Css _ => (Done 2%nat, t)
                | _ => (Done 1%nat, t)
                end)
    (fun _ t => (Done "Test 1:19", t))
    (fun _ _ t => (Done None, t))
    (fun _ t => (Done None, t))
    (fun _ t => (Done (Some 7%nat), t))
    (fun _ t => (Done 4096%N, t))
    (fun t => (Done None, t)).

(** The same listing, but the file saved for the second variant is empty. *)
Definition librarySecondEmpty : Driver Z :=
  mkDriver
    (now library) (isoTime library) (url library) (isClosed library)
    (random library) (sleep library) (act library) (probe library)
    (count library) (textContent library) (getAttribute library)
    (boundingBox library) (waitForDownload library)
    (fun path t => (Done (if JS.includes path "-v2-" then 0%N else 4096%N), t))
    (loadCredentials library).

(** A cooperative site: the creation form and the listing both work, every
    download starts and every file has 4096 bytes.  The world counts the
    navigations to the creation page; during navigation number [bad] the form
    shows no visible textarea, so that the job submitted then fails at the
    creation step. *)
Definition flaky (bad : nat) : Driver (Z * nat) :=
  mkDriver
    (fun w => fst w)
    (fun _ => "2025-01-01T00:00:00.000Z")
    (fun _ => "https://suno.com/create")
    (fun _ => false)
    (fun w => (1 # 2, w))
    (fun ms w => (fst w + ms, snd w))
    (fun a w => match a with
                | WaitForTimeout ms => (Done tt, (fst w + ms, snd w))
                | Goto u => (Done tt, (fst w, if JS.includes u "/create"
                                              then S (snd w) else snd w))
                | _ => (Done tt, w)
                end)
    (fun p w => match p with
                | IsVisible (Nth _ _) => (Done (negb (snd w =? bad)%nat), w)
                | IsVisible (First (Css s)) =>
                    (Done (String.eqb s ("button:has-text(" ++ q "Create" ++ ")")), w)
                | _ => (Done false, w)
                end)
    (fun l w => match l with
                | Css _ => (Done 2%nat, w)
                | Within _ sel =>
                    (Done (if String.eqb sel SongCreator.advancedOptionsAncestor
                           then O else 1%nat), w)
                | _ => (Done O, w)
                end)
    (fun _ w => (Done "Test 1:19", w))
    (fun _ _ w => (Done None, w))
    (fun _ w => (Done None, w))
    (fun _ w => (Done (Some 7%nat), w))
    (fun _ w => (Done 4096%N, w))
    (fun w => (Done None, w)).

(** A listing page all of whose entries show a loading indicator for ever.
    Only waiting takes time. *)
Definition stillGenerating : Driver Z :=
  mkDriver
    (fun t => t)
    (fun _ => "2025-01-01T00:00:00.000Z")
    (fun _ => "https://suno.com/me")
    (fun _ => false)
    (fun t => (1 # 2, t))
    (fun ms t => t + ms)
    (fun a t => match a with
                | WaitForTimeout ms => (Done tt, t + Z.max 0 ms)
                | _ => (Done tt, t)
                end)
    (fun p t => match p with
                | IsVisible (Within _ _) => (Done true, t)
                | _ => (Done false, t)
                end)
    (fun l t => match l with
                | Css _ => (Done 2%nat, t)
                | _ => (Done O, t)
                end)
    (fun _ t => (Done "Test", t))
    (fun _ _ t => (Done None, t))
    (fun _ t => (Done None, t))
    (fun _ t => (Done None, t))
    (fun _ t => (Done 0%N, t))
    (fun t => (Done None, t)).

(** A page that has been closed: every operation on it fails. *)
Definition targetClosed : string := "Target page, context or browser has been closed".

Definition closedPage : Driver Z :=
  mkDriver
    (fun t => t)
    (fun _ => "2025-01-01T00:00:00.000Z")
    (fun _ => "about:blank")
    (fun _ => true)
    (fun t => (1 # 2, t))
    (fun ms t => t + ms)
    (fun _ t => (Fail targetClosed, t))
    (fun _ t => (Fail targetClosed, t))
    (fun _ t => (Fail targetClosed, t))
    (fun _ t => (Fail targetClosed, t))
    (fun _ _ t => (Fail targetClosed, t))
    (fun _ t => (Fail targetClosed, t))
    (fun _ t => (Fail targetClosed, t))
    (fun _ t => (Done 0%N, t))
    (fun t => (Done None, t)).

(** A machine on which the browser cannot be started. *)
Definition launchFailed : string :=
  "browserType.launchPersistentContext: Executable doesn't exist".

Definition noBrowser : Driver Z :=
  mkDriver
    (fun t => t)
    (fun _ => "2025-01-01T00:00:00.000Z")
    (fun _ => "about:blank")
    (fun _ => false)
    (fun t => (1 # 2, t))
    (fun ms t => t + ms)
    (fun a t => match a with
                | LaunchPersistentContext => (Fail launchFailed, t)
                | WaitForTimeout ms => (Done tt, t + ms)
                | _ => (Done tt, t)
                end)
    (fun _ t => (Done false, t))
    (fun _ t => (Done O, t))
    (fun _ t => (Done EmptyString, t))
    (fun _ _ t => (Done None, t))
    (fun _ t => (Done None, t))
    (fun _ t => (Done None, t))
    (fun _ t => (Done 0%N, t))
    (fun t => (Done None, t)).

(** A sign-in page whose fields cannot be filled. *)
Definition fillTimeout : string := "locator.fill: Timeout 30000ms exceeded.".

Definition lockedForm : Driver Z :=
  mkDriver
    (fun t => t)
    (fun _ => "2025-01-01T00:00:00.000Z")
    (fun _ => "https://suno.com/sign-in")
    (fun _ => false)
    (fun t => (1 # 2, t))
    (fun ms t => t + ms)
    (fun a t => match a with
                | Fill _ _ => (Fail fillTimeout, t)
                | WaitForTimeout ms => (Done tt, t + ms)
                | _ => (Done tt, t)
                end)
    (fun _ t => (Done false, t))
    (fun _ t => (Done O, t))
    (fun _ t => (Done EmptyString, t))
    (fun _ _ t => (Done None, t))
    (fun _ t => (Done None, t))
    (fun _ t => (Done None, t))
    (fun _ t => (Done 0%N, t))
    (fun t => (Done None, t)).

(** Settings with the password method and its two credentials. *)
Definition passwordConfig : Config :=
  mkConfig "password" "user@example.com" "secret" "downloads" "https://suno.com"
           30000 120000 2.

(** Settings with the password method but no password. *)
Definition passwordMissing : Config :=
  mkConfig "password" "user@example.com" EmptyString "downloads" "https://suno.com"
           30000 120000 2.

(** Settings that name a method the code does not know. *)
Definition ssoConfig : Config :=
  mkConfig "sso" EmptyString EmptyString "downloads" "https://suno.com"
           30000 120000 2.

(** The settings of the scenario with a wait of two seconds polled every
    second. *)
Definition quickConfig : Config :=
  mkConfig "google" EmptyString EmptyString "downloads" "https://suno.com"
           1000 2000 2.

Definition lofi : Server.Preset :=
  Server.mkPreset "lofi-1" "Lo-fi Chill" "lo-fi, mellow, slow" "chill".

(** A batch of three songs with a locked style. *)
Definition threeSongs : Server.BatchRequest :=
  Server.mkBatchRequest lofi "lofi-1" (Server.Num 3) EmptyString false [lofi].

(** A batch whose number of songs was sent as a text without digits:
    [parseInt] gives NaN, and both comparisons of the validation are false. *)
Definition noCount : Server.BatchRequest :=
  Server.mkBatchRequest lofi "lofi-1" Server.NotANumber EmptyString false [lofi].

(** *** Listing pages

    A listing entry has a text and, for every selector, the elements that
    match it inside the entry, each with its visibility, in document order. *)
Record Entry : Type := mkEntry {
  entryText : string;
  matches : string -> list bool
}.

(** The entry a locator of the form [page.locator(sel).all()[i]] stands for,
    on a page that shows [rows sel] for the container selector [sel]. *)
Definition entryAt (rows : string -> list Entry) (l : Locator) : option Entry :=
  match l with
  | Nth (Css sel) i => nth_error (rows sel) i
  | _ => None
  end.

(** [isVisible()] in strict mode: no match is not visible, one match has its
    own visibility, several matches are a strict-mode violation. *)
Definition strictReply (ms : list bool) : reply bool :=
  match ms with
  | [] => Done false
  | [v] => Done v
  | _ => Fail "strict mode violation"
  end.

(** [first().isVisible()] *)
Definition firstOf (ms : list bool) : bool :=
  match ms with
  | [] => false
  | v :: _ => v
  end.

Definition listingVisible (rows : string -> list Entry) (l : Locator) : reply bool :=
  match l with
  | Within p sub =>
      match entryAt rows p with
      | Some e => strictReply (matches e sub)
      | None => Done false
      end
  | First (Within p sub) =>
      match entryAt rows p with
      | Some e => Done (firstOf (matches e sub))
      | None => Done false
      end
  | Nth (Within p sub) j =>
      match entryAt rows p with
      | Some e => Done (nth j (matches e sub) false)
      | None => Done false
      end
  | Nth (Css sel) i =>
      match nth_error (rows sel) i with
      | Some _ => Done true
      | None => Done false
      end
  | _ => Done false
  end.

Definition listingCount (rows : string -> list Entry) (l : Locator) : nat :=
  match l with
  | Css sel => List.length (rows sel)
  | Within p sub =>
      match entryAt rows p with
      | Some e => List.length (matches e sub)
      | None => O
      end
  | _ => O
  end.

Definition listingText (rows : string -> list Entry) (l : Locator) : string :=
  match entryAt rows l with
  | Some e => entryText e
  | None => EmptyString
  end.

(** The listing page at /me showing [rows]; the page does not change while
    it is inspected, and waiting advances the clock. *)
Definition listing (rows : string -> list Entry) : Driver Z :=
  mkDriver
    (fun t => t)
    (fun _ => "2025-01-01T00:00:00.000Z")
    (fun _ => "https://suno.com/me")
    (fun _ => false)
    (fun t => (1 # 2, t))
    (fun ms t => t + ms)
    (fun a t => match a with
                | WaitForTimeout ms => (Done tt, t + ms)
                | _ => (Done tt, t)
                end)
    (fun p t => match p with
                | IsVisible l => (listingVisible rows l, t)
                | _ => (Done false, t)
                end)
    (fun l t => (Done (listingCount rows l), t))
    (fun l t => (Done (listingText rows l), t))
    (fun _ _ t => (Done None, t))
    (fun _ t => (Done None, t))
    (fun _ t => (Done None, t))
    (fun _ t => (Done 0%N, t))
    (fun t => (Done None, t)).

(** Rows found by the selector [article] only. *)
Definition articles (es : list Entry) : string -> list Entry :=
  fun sel => if String.eqb sel "article" then es else [].

(** An entry whose only sign of completion is a play control. *)
Definition playOnlyEntry : Entry :=
  mkEntry "Test"
    (fun sel => if String.eqb sel ("button[aria-label*=" ++ q "play" ++ " i]")
                then [true] else []).

(** An entry with no loading indicator and no sign of completion. *)
Definition bareEntry : Entry := mkEntry "Untitled" (fun _ => []).

(** A finished entry: an Edit button and a duration. *)
Definition editedEntry : Entry :=
  mkEntry "Older song 1:19"
    (fun sel => if String.eqb sel ("button:has-text(" ++ q "Edit" ++ ")")
                then [true] else []).

(** An entry that is still generating. *)
Definition generatingEntry : Entry :=
  mkEntry "Test"
    (fun sel => if String.eqb sel ("svg[class*=" ++ q "animate" ++ "]")
                then [true] else []).

(** *** The presets manager *)

(** An outside whose identifiers are numbered and whose file can be
    written: the state is the number of identifiers drawn so far. *)
Definition numbered : StylePresetManager.Env nat :=
  StylePresetManager.mkEnv
    (fun n => ("id-" ++ JS.showZ (Z.of_nat n), S n))
    (fun _ => "2025-01-01T00:00:00.000Z")
    (fun _ n => (Done tt, n)).

(** The same outside with a presets file that cannot be written. *)
Definition readOnly : StylePresetManager.Env nat :=
  StylePresetManager.mkEnv
    (StylePresetManager.randomHex numbered)
    (StylePresetManager.isoNow numbered)
    (fun _ n => (Fail "EACCES: permission denied", n)).

Definition builtin (i name : string) (favorite : bool) (count : nat)
  : StylePresetManager.StylePreset :=
  StylePresetManager.mkStylePreset i name "lo-fi chillhop" "Lo-fi Hip Hop / Chillhop"
    (Some favorite) (Some count) (Some "2025-01-01T00:00:00.000Z") None None None.

(** A manager that holds two presets. *)
Definition twoPresets : State (StylePresetManager.Mem nat) :=
  initState (StylePresetManager.mkMem
               [builtin "lofi-01" "Jazzy Study Vibes" false 0;
                builtin "lofi-02" "Nostalgic Soul" true 3]
               O).

(** A manager that holds a built-in preset and one that was imported from
    a file whose entries carry a name, a style and a category only. *)
Definition withImported : State (StylePresetManager.Mem nat) :=
  initState (StylePresetManager.mkMem
               [builtin "lofi-01" "Jazzy Study Vibes" false 0;
                StylePresetManager.mkStylePreset "imported-01" "Rainy Night"
                  "ambient, rain, piano" "Ambient" None None None None None
                  (Some "2025-01-01T00:00:00.000Z")]
               O).

End Worlds.

(* ================================================================== *)
(** * Vocabulary of the statements                                     *)
(* ================================================================== *)

(** A code unit that [sanitizeFilename] leaves alone. *)
Definition clean (c : N) : Prop :=
  Utils.isInvalidChar c = false /\ Utils.isWhitespace c = false.

(** A computation obeys a relation [R] on states when every run from [st]
    ends in a state related to [st]; it is strict when, moreover, no run is
    left unfinished. *)
Definition obeys {W A} (R : State W -> State W -> Prop) (strict : bool) (m : M W A)
  : Prop :=
  forall st, R st (final (m st)) /\ (strict = true -> res (m st) <> OutOfFuel).

(** No constraint on the states. *)
Definition anyStep {W} : State W -> State W -> Prop := fun _ _ => True.

(** A computation that always finishes. *)
Definition finishes {W A} (m : M W A) : Prop := obeys anyStep true m.

(** A computation that never raises nor runs on: it always returns a value. *)
Definition total_ {W A} (m : M W A) : Prop :=
  forall st, exists a, res (m st) = Ok a.

(** A computation that always ends by raising an error. *)
Definition raises {W A} (m : M W A) : Prop :=
  forall st, exists e, res (m st) = Throw e.

(** A locator that is never reported visible. *)
Definition neverVisible {W} (drv : Driver W) (l : Locator) : Prop :=
  forall w, fst (probe drv (IsVisible l) w) <> Done true.

(** The first search of [fillStyles] passes over the textarea: it carries
    the placeholder of the lyrics field, or it lies inside the Advanced
    Options. *)
Definition skippedByStyleSearch {W} (drv : Driver W) (t : Locator) : Prop :=
  (forall w, exists p, fst (getAttribute drv t "placeholder" w) = Done p
                       /\ SongCreator.isLyricsPlaceholder p = true)
  \/ (forall w, exists n,
         fst (count drv (Within t SongCreator.advancedOptionsAncestor) w) = Done n
         /\ (0 < n)%nat).

(** The fallback search of [fillStyles] does not take the textarea: its
    maxlength is not 1000, or its placeholder mentions lyrics. *)
Definition skippedByFallback {W} (drv : Driver W) (t : Locator) : Prop :=
  (forall w, fst (getAttribute drv t "maxlength" w) <> Done (Some "1000"))
  \/ (forall w, exists p, fst (getAttribute drv t "placeholder" w) = Done (Some p)
                          /\ JS.includes (JS.toLowerCase p) "lyric" = true).

(** The selectors whose elements [fillStyles] examines. *)
Definition textareaSelectors : list string :=
  (SongCreator.styleSelectors ++ ["textarea"])%list.

(** The style input cannot be located: every textarea of the page is
    either never visible, or visible but taken for something else than the
    style field by both searches. *)
Definition styleUnlocatable {W} (drv : Driver W) : Prop :=
  forall sel i, In sel textareaSelectors ->
    neverVisible drv (Nth (Css sel) i)
    \/ (skippedByStyleSearch drv (Nth (Css sel) i)
        /\ skippedByFallback drv (Nth (Css sel) i)).

(** The title input cannot be located: none of the title selectors is ever
    reported visible. *)
Definition titleUnlocatable {W} (drv : Driver W) : Prop :=
  forall sel w, In sel SongCreator.titleSelectors ->
                fst (probe drv (IsVisible (First (Css sel))) w) <> Done true.

(** Every value returned by the computation satisfies [P]. *)
Definition ensures {W A} (P : A -> Prop) (m : M W A) : Prop :=
  forall st a, res (m st) = Ok a -> P a.

(** The persisted file of variant [version] of a job is empty whenever it is
    examined, whatever the time stamp in its name. *)
Definition variantEmpty {W} (drv : Driver W) (cfg : Config) (songTitle : string)
           (version : Z) : Prop :=
  forall w w',
    fst (stat drv (DownloadManager.pathJoin (downloadPath cfg)
                     (DownloadManager.artifactFilename songTitle version
                        (isoTime drv w))) w')
    = Done 0%N.

(** A downloaded file with at least one byte. *)
Definition nonEmpty (a : DownloadManager.Artifact) : Prop :=
  (0 < DownloadManager.art_size a)%N.

(** Row [i] of the listing. *)
Definition row (i : nat) : Locator := Nth (Css DownloadManager.songRow) i.

(** The two variants of a job are downloadable: every operation on the page
    and on the disk is carried out, counting elements never fails, the
    listing shows at least two rows and its rows are visible, every row has a
    visible menu button under one of the menu selectors, a download starts
    when it is awaited, and every saved file holds at least one byte. *)
Definition downloadable {W} (drv : Driver W) : Prop :=
  (forall a w, fst (act drv a w) = Done tt)
  /\ (forall l w, exists n, fst (count drv l w) = Done n)
  /\ (forall w n, fst (count drv (Css DownloadManager.songRow) w) = Done n ->
                  (2 <= n)%nat)
  /\ (forall i w, fst (probe drv (IsVisible (row i)) w) = Done true)
  /\ (forall i, exists sel j,
         In sel DownloadManager.menuButtonSelectors
         /\ (forall w n, fst (count drv (Within (row i) sel) w) = Done n -> (j < n)%nat)
         /\ forall w, fst (probe drv (IsVisible (Nth (Within (row i) sel) j)) w)
                      = Done true)
  /\ (forall t w, exists d, fst (waitForDownload drv t w) = Done (Some d))
  /\ (forall path w, exists size, fst (stat drv path w) = Done size /\ (0 < size)%N).

(** A computation that always returns a value, and one that satisfies
    [P]. *)
Definition yields {W A} (P : A -> Prop) (m : M W A) : Prop :=
  forall st, exists a, res (m st) = Ok a /\ P a.

(** *** Completion of a listing, read off the page *)

Section ListingSpec.
Import Worlds.

(** [await entry.locator(sel).isVisible().catch(() => false)]: a locator
    call is strict, so a single match answers with its visibility, no match
    answers false, and several matches reject, which the handler turns into
    false. *)
Definition strictVisible (e : Entry) (sel : string) : bool :=
  match matches e sel with
  | [v] => v
  | _ => false
  end.

(** [await entry.locator(sel).first().isVisible().catch(() => false)] *)
Definition firstVisible (e : Entry) (sel : string) : bool := firstOf (matches e sel).

(** The scan takes the entry for generating: one of the loading selectors
    is reported visible in the strict reading. *)
Definition generating (e : Entry) : bool :=
  existsb (strictVisible e) DownloadManager.loadingIndicators.

Definition hasEdit (e : Entry) : bool := strictVisible e DownloadManager.editButton.
Definition hasPublish (e : Entry) : bool := strictVisible e DownloadManager.publishButton.
Definition hasDuration (e : Entry) : bool := JS.testDuration (entryText e).
Definition hasPlay (e : Entry) : bool :=
  (firstVisible e ("button[aria-label*=" ++ q "play" ++ " i]")
   || firstVisible e ("button:has-text(" ++ q "Play" ++ ")"))%bool.

(** The rows of the first container selector that finds any. *)
Fixpoint firstNonEmpty (rows : string -> list Entry) (selectors : list string)
  : list Entry :=
  match selectors with
  | [] => []
  | sel :: rest =>
      match rows sel with
      | [] => firstNonEmpty rows rest
      | es => es
      end
  end.

(** The scanned window: the first ten entries. *)
Definition scanned (rows : string -> list Entry) : list Entry :=
  firstn 10 (firstNonEmpty rows DownloadManager.containerSelectors).

(** An entry that passes the scan: it is not taken for generating, and
    its Edit selector or its Publish selector is reported visible in the
    strict reading, or its text holds a duration. *)
Definition qualifies (e : Entry) : bool :=
  (negb (generating e) && (hasEdit e || hasPublish e || hasDuration e))%bool.

(** Completion as the claim words it: the first scanned entry without a
    loading indicator shows an edit action, a publish action, a duration or a
    play control. *)
Definition claimedComplete (rows : string -> list Entry) : bool :=
  match find (fun e => negb (generating e)) (scanned rows) with
  | Some e => (hasEdit e || hasPublish e || hasDuration e || hasPlay e)%bool
  | None => false
  end.

End ListingSpec.

(** *** Observing a run of the server *)

Definition isCloseHook (e : Event) : bool :=
  match e with
  | Invoke method => String.eqb method "SunoBot.close"
  | _ => false
  end.

(** How many times the session-release hook was invoked. *)
Definition closeCalls (l : list Event) : nat := List.length (filter isCloseHook l).

(** A step that leaves the variables of the batch closure alone, does not
    invoke the release hook and only adds events to the log. *)
Definition quiet {W} (st st' : State W) : Prop :=
  closeCalls (log st') = closeCalls (log st)
  /\ successCount st' = successCount st
  /\ failCount st' = failCount st
  /\ botVar st' = botVar st
  /\ exists l, log st' = (l ++ log st)%list.

(** The state in which iteration [i] of the batch loop starts, when the loop
    is entered in [s0]. *)
Definition stateBefore {W} (drv : Driver W) (cfg : Config) (fuel : nat)
           (req : Server.BatchRequest) (s0 : State W) (i : nat) : State W :=
  final (Server.batchLoop drv cfg fuel req (seq 0 i) s0).

(** The run of a batch up to the entry of its loop. *)
Definition batchEntry {W} (drv : Driver W) (cfg : Config) : M W unit :=
  Server.batchLocals ;; Server.batchSetup drv cfg.

(** A step that does not invoke the release hook, keeps the closure's
    variable [bot] and only adds events to the log. *)
Definition calm {W} (st st' : State W) : Prop :=
  closeCalls (log st') = closeCalls (log st)
  /\ botVar st' = botVar st
  /\ exists l, log st' = (l ++ log st)%list.

(** A step that leaves the two counters of the batch closure alone and only
    adds events to the log. *)
Definition keepsCounts {W} (st st' : State W) : Prop :=
  successCount st' = successCount st /\ failCount st' = failCount st
  /\ exists l, log st' = (l ++ log st)%list.

(** *** The completion wait on a listing that goes on generating *)

(** Every entry of the listing goes on generating: inside each entry, one
    of the loading selectors is reported visible by [isVisible()] - a single
    matching element that is visible - whatever the state of the page. *)
Definition permanentlyGenerating {W} (drv : Driver W) : Prop :=
  forall song, exists sel,
    In sel DownloadManager.loadingIndicators
    /\ forall w, fst (probe drv (IsVisible (Within song sel)) w) = Done true.

(** No challenge is ever shown: no captcha marker is reported visible and
    the address is never an error route. *)
Definition noChallenge {W} (drv : Driver W) : Prop :=
  (forall sel w, In sel DownloadManager.captchaIndicators ->
                 fst (probe drv (IsVisible (First (Css sel))) w) <> Done true)
  /\ forall w, JS.includes (url drv w) "404" = false
               /\ JS.includes (url drv w) "error" = false.

(** The page is never closed. *)
Definition pageStaysOpen {W} (drv : Driver W) : Prop :=
  forall w, isClosed drv w = false.

(** A wait on the page succeeds and lasts at least as long as asked. *)
Definition waitsWork {W} (drv : Driver W) : Prop :=
  forall ms w, fst (act drv (WaitForTimeout ms) w) = Done tt
               /\ now drv w + ms <= now drv (snd (act drv (WaitForTimeout ms) w)).

(** The clock never runs backwards over an operation of the page. *)
Definition clockMonotone {W} (drv : Driver W) : Prop :=
  (forall a w, now drv w <= now drv (snd (act drv a w)))
  /\ (forall p w, now drv w <= now drv (snd (probe drv p w)))
  /\ (forall l w, now drv w <= now drv (snd (count drv l w)))
  /\ (forall l w, now drv w <= now drv (snd (textContent drv l w)))
  /\ (forall l a w, now drv w <= now drv (snd (getAttribute drv l a w))).

(** The second state is not earlier than the first. *)
Definition later {W} (drv : Driver W) (st st' : State W) : Prop :=
  now drv (world st) <= now drv (world st').

(** *** Inputs of the creation form that cannot be used *)

(** The lyrics input cannot be located: none of the lyrics selectors is ever
    reported visible. *)
Definition lyricsUnlocatable {W} (drv : Driver W) : Prop :=
  forall sel w, In sel SongCreator.lyricsSelectors ->
                fst (probe drv (IsVisible (First (Css sel))) w) <> Done true.

(** No Create button can be used: each candidate is either never reported
    visible or always reported disabled. *)
Definition createUnavailable {W} (drv : Driver W) : Prop :=
  forall sel, In sel SongCreator.createSelectors ->
    (forall w, fst (probe drv (IsVisible (First (Css sel))) w) <> Done true)
    \/ (forall w, fst (probe drv (IsDisabled (First (Css sel))) w) = Done true).

(** *** The store of style presets *)

(** The array of the manager in a state. *)
Definition stored {E} (st : State (StylePresetManager.Mem E))
  : list StylePresetManager.StylePreset :=
  StylePresetManager.presets (world st).

(** Writing the presets file always works. *)
Definition saves {E} (env : StylePresetManager.Env E) : Prop :=
  forall ps e, fst (StylePresetManager.writePresets env ps e) = Done tt.

(** Writing the presets file always fails with the error [err]. *)
Definition cannotSave {E} (env : StylePresetManager.Env E) (err : string) : Prop :=
  forall ps e, fst (StylePresetManager.writePresets env ps e) = Fail err.

(** What [getPreset] answers for an identifier on an array. *)
Definition lookup (i : string) (ps : list StylePresetManager.StylePreset)
  : option StylePresetManager.StylePreset :=
  find (StylePresetManager.hasId i) ps.

(** The state of a manager whose array is [ps] and whose outside is [d]. *)
Definition holding {E} (st : State (StylePresetManager.Mem E))
           (ps : list StylePresetManager.StylePreset) (d : E)
  : State (StylePresetManager.Mem E) :=
  setWorld st (StylePresetManager.mkMem ps d).

(* ================================================================== *)
(** * Part II: properties                                              *)
(* ================================================================== *)

(** ** utils.js: sanitizeFilename *)

Section SanitizeFilename.
  Import Utils.

Lemma hyphen_valid : isInvalidChar hyphen = false.
Proof. reflexivity. Qed.

Lemma underscore_clean : clean underscore.
Proof. split; reflexivity. Qed.

Lemma replaceInvalid_valid (s : jsstring) :
  Forall (fun c => isInvalidChar c = false) (replaceInvalid s).
Proof.
  induction s as [|c r IH]; simpl; constructor; auto.
  destruct (isInvalidChar c) eqn:E; [apply hyphen_valid | exact E].
Qed.

Lemma collapseWhitespace_clean (s : jsstring) :
  Forall (fun c => isInvalidChar c = false) s ->
  forall inRun, Forall clean (collapseWhitespace inRun s).
Proof.
  induction 1 as [|c r Hc _ IH]; intros inRun; simpl; [constructor|].
  destruct (isWhitespace c) eqn:E.
  - destruct inRun; [apply IH|].
    constructor; [apply underscore_clean | apply IH].
  - constructor; [split; assumption | apply IH].
Qed.

Lemma Forall_firstn {A} (P : A -> Prop) (n : nat) (l : list A) :
  Forall P l -> Forall P (firstn n l).
Proof.
  intros H; revert n; induction H; intros [|n]; simpl; constructor; auto.
Qed.

Lemma sanitizeFilename_clean (s : jsstring) : Forall clean (sanitizeFilename s).
Proof.
  unfold sanitizeFilename, substring0.
  apply Forall_firstn, collapseWhitespace_clean, replaceInvalid_valid.
Qed.

Lemma replaceInvalid_fixed (s : jsstring) :
  Forall clean s -> replaceInvalid s = s.
Proof.
  induction 1 as [|c r [Hi _] _ IH]; simpl; [reflexivity|].
  rewrite Hi. f_equal. exact IH.
Qed.

Lemma collapseWhitespace_fixed (s : jsstring) :
  Forall clean s -> forall inRun, collapseWhitespace inRun s = s.
Proof.
  induction 1 as [|c r [_ Hw] _ IH]; intros inRun; simpl; [reflexivity|].
  rewrite Hw. f_equal. apply IH.
Qed.

Lemma sanitizeFilename_length (s : jsstring) :
  (List.length (sanitizeFilename s) <= 200)%nat.
Proof. unfold sanitizeFilename, substring0. apply firstn_le_length. Qed.

(** C8. [sanitizeFilename] is idempotent, and its result is a fixed point:
    it holds none of the nine invalid characters, no white space, and at
    most 200 code units. *)
Theorem sanitizeFilename_idempotent (s : jsstring) :
  sanitizeFilename (sanitizeFilename s) = sanitizeFilename s
  /\ Forall (fun c => isInvalidChar c = false) (sanitizeFilename s)
  /\ Forall (fun c => isWhitespace c = false) (sanitizeFilename s)
  /\ (List.length (sanitizeFilename s) <= 200)%nat.
Proof.
  pose proof (sanitizeFilename_clean s) as Hc.
  pose proof (sanitizeFilename_length s) as Hl.
  repeat split.
  - unfold sanitizeFilename at 1.
    rewrite (replaceInvalid_fixed Hc), (collapseWhitespace_fixed Hc).
    unfold substring0. apply firstn_all2. exact Hl.
  - eapply Forall_impl; [|exact Hc]. intros c [H _]; exact H.
  - eapply Forall_impl; [|exact Hc]. intros c [_ H]; exact H.
  - exact Hl.
Qed.

End SanitizeFilename.

(** ** Numbers: rounding to the nearest double *)

Section Rounding.
  Import Double.

Lemma pow2_pos e : (0 < pow2 e)%Q.
Proof. apply Qpower_0_lt. reflexivity. Qed.

Lemma pow2_add a b : (pow2 (a + b) == pow2 a * pow2 b)%Q.
Proof. apply Qpower_plus. discriminate. Qed.

Lemma pow2_le a b : a <= b -> (pow2 a <= pow2 b)%Q.
Proof. intros H. apply Qpower_le_compat_l; [exact H | discriminate]. Qed.

Lemma pow2_lt a b : a < b -> (pow2 a < pow2 b)%Q.
Proof. intros H. apply Qpower_lt_compat_l; [exact H | reflexivity]. Qed.

Lemma pow2_lt_inv a b : (pow2 a < pow2 b)%Q -> a < b.
Proof. intros H. eapply Qpower_lt_compat_l_inv; [exact H | reflexivity]. Qed.

Lemma pow2_Z n : 0 <= n -> (inject_Z (2 ^ n) == pow2 n)%Q.
Proof. intros H. apply Zpower_Qpower. exact H. Qed.

Lemma pow2_half e : (pow2 (e - 1) * 2 == pow2 e)%Q.
Proof.
  replace e with ((e - 1) + 1) at 2 by ring. rewrite pow2_add. reflexivity.
Qed.

Lemma Qred_inject_Z z : Qred (inject_Z z) = inject_Z z.
Proof.
  unfold Qred, inject_Z.
  pose proof (Z.ggcd_gcd z 1) as Hg. pose proof (Z.ggcd_correct_divisors z 1) as Hd.
  destruct (Z.ggcd z 1) as (g, (aa, bb)). simpl in *.
  rewrite Z.gcd_1_r in Hg. subst g. destruct Hd as [Ha Hb].
  rewrite Z.mul_1_l in Ha, Hb. subst aa bb. reflexivity.
Qed.

Lemma ilog2_spec q :
  ~ (q == 0)%Q -> (pow2 (ilog2 q) <= Qabs q)%Q /\ (Qabs q < pow2 (ilog2 q + 1))%Q.
Proof.
  intros Hq. destruct q as [n d]. unfold ilog2. cbn [Qnum Qden].
  set (N := Z.abs n). set (a := Z.log2 N). set (b := Z.log2 (Zpos d)).
  assert (HN : 0 < N).
  { unfold N. assert (n <> 0); [|lia]. intros ->. apply Hq. reflexivity. }
  assert (Habs : (Qabs (n # d) == N # d)%Q) by (symmetry; apply Zabs_Qabs).
  destruct (Z.log2_spec N HN) as [Ha1 Ha2]. fold a in Ha1, Ha2.
  destruct (Z.log2_spec (Zpos d) (Pos2Z.is_pos d)) as [Hb1 Hb2]. fold b in Hb1, Hb2.
  assert (Ha0 : 0 <= a) by apply Z.log2_nonneg.
  assert (Hb0 : 0 <= b) by apply Z.log2_nonneg.
  assert (Hd : (0 < inject_Z (Zpos d))%Q) by reflexivity.
  assert (Hnd : ((N # d) * inject_Z (Zpos d) == inject_Z N)%Q).
  { unfold Qeq, Qmult, inject_Z. simpl. lia. }
  assert (Hup : (N # d < pow2 (a - b + 1))%Q).
  { apply Qmult_lt_r with (z := inject_Z (Zpos d)); [exact Hd|]. rewrite Hnd.
    apply Qlt_le_trans with (y := pow2 (a + 1)).
    - rewrite <- pow2_Z by lia. rewrite <- Zlt_Qlt. exact Ha2.
    - replace (a + 1) with ((a - b + 1) + b) by ring. rewrite pow2_add.
      apply Qmult_le_l; [apply pow2_pos|]. rewrite <- pow2_Z by lia.
      rewrite <- Zle_Qle. exact Hb1. }
  assert (Hlo : (pow2 (a - b - 1) < N # d)%Q).
  { apply Qmult_lt_r with (z := inject_Z (Zpos d)); [exact Hd|]. rewrite Hnd.
    apply Qlt_le_trans with (y := pow2 a).
    - replace a with ((a - b - 1) + (b + 1)) at 2 by ring. rewrite pow2_add.
      apply Qmult_lt_l; [apply pow2_pos|]. rewrite <- pow2_Z by lia.
      rewrite <- Zlt_Qlt. exact Hb2.
    - rewrite <- pow2_Z by lia. rewrite <- Zle_Qle. exact Ha1. }
  destruct (Qle_bool (pow2 (a - b)) (Qabs (n # d))) eqn:E.
  - apply Qle_bool_iff in E. split; [exact E|]. rewrite Habs. exact Hup.
  - split.
    + rewrite Habs. apply Qlt_le_weak. exact Hlo.
    + replace (a - b - 1 + 1) with (a - b) by ring.
      apply Qnot_le_lt. intros H. apply Qle_bool_iff in H. congruence.
Qed.

Lemma rne_upper y : (inject_Z (rne y) <= y + (1 # 2))%Q.
Proof.
  unfold rne. pose proof (Qfloor_le y) as Hf. pose proof (Qlt_floor y) as Hc.
  rewrite inject_Z_plus in Hc. change (inject_Z 1) with 1%Q in Hc.
  destruct (y - inject_Z (Qfloor y) ?= 1 # 2)%Q eqn:E.
  - apply Qeq_alt in E. destruct (Z.even (Qfloor y)).
    + lra.
    + rewrite inject_Z_plus. change (inject_Z 1) with 1%Q. lra.
  - lra.
  - apply Qgt_alt in E. rewrite inject_Z_plus. change (inject_Z 1) with 1%Q. lra.
Qed.

Lemma rne_lower y : (y - (1 # 2) <= inject_Z (rne y))%Q.
Proof.
  unfold rne. pose proof (Qfloor_le y) as Hf. pose proof (Qlt_floor y) as Hc.
  rewrite inject_Z_plus in Hc. change (inject_Z 1) with 1%Q in Hc.
  destruct (y - inject_Z (Qfloor y) ?= 1 # 2)%Q eqn:E.
  - apply Qeq_alt in E. destruct (Z.even (Qfloor y)).
    + lra.
    + rewrite inject_Z_plus. change (inject_Z 1) with 1%Q. lra.
  - apply Qlt_alt in E. lra.
  - rewrite inject_Z_plus. change (inject_Z 1) with 1%Q. lra.
Qed.

Lemma rne_nonneg y : (0 <= y)%Q -> 0 <= rne y.
Proof.
  intros H. unfold rne.
  assert (0 <= Qfloor y).
  { change 0 with (Qfloor 0). apply Qfloor_resp_le. exact H. }
  destruct (y - inject_Z (Qfloor y) ?= 1 # 2)%Q; [destruct (Z.even (Qfloor y))|..]; lia.
Qed.

Lemma rne_compat x y : (x == y)%Q -> rne x = rne y.
Proof.
  intros H. unfold rne. rewrite (Qfloor_comp _ _ H).
  assert (E : (x - inject_Z (Qfloor y) ?= 1 # 2)%Q
              = (y - inject_Z (Qfloor y) ?= 1 # 2)%Q).
  { apply Qcompare_comp; [rewrite H; reflexivity | reflexivity]. }
  rewrite E. reflexivity.
Qed.

Lemma rne_Z y n : (y == inject_Z n)%Q -> rne y = n.
Proof.
  intros H. rewrite (rne_compat H). unfold rne. rewrite Qfloor_Z.
  assert (E : (inject_Z n - inject_Z n ?= 1 # 2)%Q = Lt).
  { rewrite <- Qlt_alt. setoid_replace (inject_Z n - inject_Z n)%Q with 0%Q by ring.
    reflexivity. }
  rewrite E. reflexivity.
Qed.

Lemma round_compat x y : (x == y)%Q -> round x = round y.
Proof. intros H. unfold round. rewrite (Qred_complete _ _ H). reflexivity. Qed.

(** The value of [round] on a rational that is not zero and does not
    overflow. *)
Lemma round_Fin x v :
  ~ (x == 0)%Q ->
  (inject_Z (rne (Qred x / pow2 (expo (Qred x)))) * pow2 (expo (Qred x)) == v)%Q ->
  (Qabs v < pow2 1024)%Q ->
  round x = Fin (Qred v).
Proof.
  intros Hx Hv Ho. unfold round. cbv zeta.
  destruct (Qeq_bool (Qred x) 0) eqn:E0.
  { exfalso. apply Hx. apply Qeq_bool_eq in E0. rewrite <- E0. symmetry. apply Qred_correct. }
  rewrite (Qred_complete _ _ Hv).
  destruct (Qle_bool (pow2 1024) (Qabs (Qred v))) eqn:E.
  - exfalso. apply Qle_bool_iff in E. rewrite Qred_correct in E. lra.
  - reflexivity.
Qed.

Lemma round_int z : Z.abs z < 2 ^ 53 -> round (inject_Z z) = Fin (inject_Z z).
Proof.
  intros Hz. destruct (Z.eq_dec z 0) as [->|Hne]; [reflexivity|].
  rewrite <- (Qred_inject_Z z) at 2.
  assert (Hq : ~ (inject_Z z == 0)%Q).
  { intros H. apply Hne. apply inject_Z_injective. exact H. }
  assert (Habs : (Qabs (inject_Z z) == inject_Z (Z.abs z))%Q).
  { symmetry. apply (Zabs_Qabs z 1). }
  apply round_Fin; [exact Hq| |].
  2:{ rewrite Habs.
      apply Qlt_trans with (y := pow2 53); [|apply pow2_lt; lia].
      rewrite <- pow2_Z by lia. rewrite <- Zlt_Qlt. exact Hz. }
  rewrite Qred_inject_Z.
  destruct (ilog2_spec Hq) as [Hlo Hhi].
  set (l := ilog2 (inject_Z z)) in *.
  rewrite Habs in Hlo, Hhi.
  assert (Hl1 : l < 53).
  { apply pow2_lt_inv. eapply Qle_lt_trans; [exact Hlo|].
    rewrite <- pow2_Z by lia. rewrite <- Zlt_Qlt. exact Hz. }
  assert (Hl0 : 0 <= l).
  { assert (0 < l + 1); [|lia]. apply pow2_lt_inv.
    eapply Qle_lt_trans; [|exact Hhi]. change (pow2 0) with (inject_Z 1).
    rewrite <- Zle_Qle. lia. }
  unfold expo. fold l. rewrite Z.max_l by lia.
  assert (Hs : (inject_Z z / pow2 (l - 52) == inject_Z (z * 2 ^ (52 - l)))%Q).
  { rewrite inject_Z_mult. rewrite pow2_Z by lia.
    unfold Qdiv, pow2. rewrite <- Qpower_opp.
    replace (- (l - 52)) with (52 - l) by ring. reflexivity. }
  rewrite (rne_Z Hs). rewrite inject_Z_mult, pow2_Z by lia.
  rewrite <- Qmult_assoc, <- pow2_add.
  replace (52 - l + (l - 52)) with 0 by ring. change (pow2 0) with 1%Q. ring.
Qed.

(** The product of a draw in [0,1) with a positive integer [k] is rounded
    to a value below [k]. *)
Lemma mul_draw_bound (r : Q) (k : Z) :
  (0 <= r)%Q -> (r <= belowOne)%Q -> 1 <= k -> k <= 2 ^ 53 ->
  exists v, round (r * inject_Z k) = Fin v /\ (0 <= v)%Q /\ (v < inject_Z k)%Q.
Proof.
  intros H0 H1 Hk1 Hk2. unfold belowOne in H1.
  assert (Hkq : (1 <= inject_Z k)%Q).
  { change 1%Q with (inject_Z 1). rewrite <- Zle_Qle. exact Hk1. }
  assert (Hk53 : (inject_Z k <= pow2 53)%Q).
  { rewrite <- pow2_Z by lia. rewrite <- Zle_Qle. exact Hk2. }
  pose proof (pow2_pos (-53)) as Hp53.
  set (x := (r * inject_Z k)%Q).
  assert (Hx0 : (0 <= x)%Q) by (unfold x; nra).
  assert (Hxk : (x <= inject_Z k - inject_Z k * pow2 (-53))%Q) by (unfold x; nra).
  destruct (Qeq_dec x 0) as [Hz|Hnz].
  { exists 0%Q. split; [|split; lra]. rewrite (round_compat Hz). reflexivity. }
  set (q := Qred x). assert (Hq : (q == x)%Q) by apply Qred_correct.
  assert (Hqnz : ~ (q == 0)%Q) by (rewrite Hq; exact Hnz).
  destruct (ilog2_spec Hqnz) as [Hlo _].
  assert (Hqabs : (Qabs q == x)%Q) by (rewrite Hq; apply Qabs_pos; exact Hx0).
  rewrite Hqabs in Hlo.
  set (e := expo q).
  assert (He : (pow2 (e + 52) < inject_Z k)%Q).
  { unfold e, expo. destruct (Z.max_spec (ilog2 q - 52) (-1074)) as [[_ ->]|[_ ->]].
    - apply Qlt_le_trans with (y := 1%Q); [|exact Hkq].
      change 1%Q with (pow2 0). apply pow2_lt. lia.
    - replace (ilog2 q - 52 + 52) with (ilog2 q) by ring.
      eapply Qle_lt_trans; [exact Hlo|]. nra. }
  pose proof (pow2_pos e) as Hpe.
  set (m := rne (q / pow2 e)).
  pose proof (rne_upper (q / pow2 e)) as Hup. fold m in Hup.
  assert (Hm0 : 0 <= m).
  { apply rne_nonneg. apply Qle_shift_div_l; [exact Hpe|]. rewrite Hq. lra. }
  assert (Hm0q : (0 <= inject_Z m)%Q).
  { change 0%Q with (inject_Z 0). rewrite <- Zle_Qle. exact Hm0. }
  set (v := (inject_Z m * pow2 e)%Q).
  assert (Hv0 : (0 <= v)%Q) by (unfold v; nra).
  assert (Hhalf : (pow2 (e - 1) * 2 == pow2 e)%Q) by apply pow2_half.
  assert (Hsplit : (pow2 (e - 1) == pow2 (e + 52) * pow2 (-53))%Q).
  { rewrite <- pow2_add. replace (e + 52 + -53) with (e - 1) by ring. reflexivity. }
  assert (Hvk : (v < inject_Z k)%Q).
  { assert (Hv1 : (v <= x + pow2 (e - 1))%Q).
    { unfold v.
      assert (Hy : (q / pow2 e * pow2 e == q)%Q).
      { field. intros H. lra. }
      assert ((inject_Z m * pow2 e <= (q / pow2 e + (1 # 2)) * pow2 e)%Q).
      { apply Qmult_le_compat_r; [exact Hup | lra]. }
      nra. }
    assert (pow2 (e - 1) < inject_Z k * pow2 (-53))%Q.
    { rewrite Hsplit. apply Qmult_lt_compat_r; [exact Hp53 | exact He]. }
    lra. }
  exists (Qred v). split; [|split].
  - apply round_Fin; [exact Hnz | reflexivity|].
    rewrite Qabs_pos by exact Hv0.
    apply Qlt_trans with (y := pow2 53); [lra | apply pow2_lt; lia].
  - rewrite Qred_correct. exact Hv0.
  - rewrite Qred_correct. exact Hvk.
Qed.

Lemma round_Fin_inv x v :
  ~ (x == 0)%Q -> round x = Fin v ->
  (v == inject_Z (rne (Qred x / pow2 (expo (Qred x)))) * pow2 (expo (Qred x)))%Q.
Proof.
  intros Hx. unfold round. cbv zeta.
  destruct (Qeq_bool (Qred x) 0) eqn:E0.
  { exfalso. apply Hx. apply Qeq_bool_eq in E0. rewrite <- E0. symmetry. apply Qred_correct. }
  destruct (Qle_bool _ _).
  - destruct (Qle_bool 0 (Qred x)); discriminate.
  - intros H.
    match type of H with Fin ?a = Fin _ => assert (Hv : a = v) by congruence end.
    rewrite <- Hv. apply Qred_correct.
Qed.

(** A double below one is at most [1 - 2^-53]. *)
Lemma double_below_one (r : Q) :
  isDouble r -> (0 <= r)%Q -> (r < 1)%Q -> (r <= belowOne)%Q.
Proof.
  intros Hd H0 H1. unfold belowOne. pose proof (pow2_pos (-53)) as Hp53.
  assert (Hp53' : (pow2 (-53) < 1)%Q).
  { change 1%Q with (pow2 0). apply pow2_lt. lia. }
  destruct (Qeq_dec r 0) as [Hz|Hnz]; [lra|].
  set (q := Qred r) in *. assert (Hq : (q == r)%Q) by apply Qred_correct.
  assert (Hqnz : ~ (q == 0)%Q) by (rewrite Hq; exact Hnz).
  destruct (ilog2_spec Hqnz) as [Hlo Hhi].
  assert (Hqabs : (Qabs q == r)%Q) by (rewrite Hq; apply Qabs_pos; exact H0).
  rewrite Hqabs in Hlo, Hhi.
  set (l := ilog2 q) in *.
  assert (Hl : l < 0).
  { apply pow2_lt_inv. change (pow2 0) with 1%Q. lra. }
  destruct (Z.eq_dec l (-1)) as [El|Nl].
  - pose proof (round_Fin_inv Hnz Hd) as Hv. fold q in Hv.
    unfold expo in Hv. fold l in Hv. rewrite El in Hv.
    change (Z.max (-1 - 52) (-1074)) with (-53) in Hv.
    set (m := rne (q / pow2 (-53))) in *. rewrite Hq in Hv. symmetry in Hv.
    assert (Hone : (pow2 53 * pow2 (-53) == 1)%Q).
    { rewrite <- pow2_add. reflexivity. }
    assert (Hm : m < 2 ^ 53).
    { rewrite Zlt_Qlt. rewrite pow2_Z by lia.
      apply Qmult_lt_r with (z := pow2 (-53)); [exact Hp53|]. lra. }
    assert (Hm' : (inject_Z m <= pow2 53 - 1)%Q).
    { assert (Hle : m <= 2 ^ 53 - 1) by lia.
      rewrite Zle_Qle in Hle. unfold Z.sub in Hle.
      rewrite inject_Z_plus, inject_Z_opp, pow2_Z in Hle by lia.
      change (inject_Z 1) with 1%Q in Hle. lra. }
    assert ((inject_Z m * pow2 (-53) <= (pow2 53 - 1) * pow2 (-53))%Q).
    { apply Qmult_le_compat_r; [exact Hm' | lra]. }
    lra.
  - assert (Hh : (pow2 (l + 1) <= pow2 (-1))%Q) by (apply pow2_le; lia).
    assert (Hhalf : (pow2 (-1) == 1 # 2)%Q) by reflexivity.
    assert (Hsmall : (pow2 (-53) <= 1 # 2)%Q).
    { rewrite <- Hhalf. apply pow2_le. lia. }
    lra.
Qed.

End Rounding.

(** ** song-creator.js: randomDelay *)

Section RandomDelay.
  Import Double.

Lemma ofZ_safe z : Z.abs z < 2 ^ 53 -> ofZ z = Fin (inject_Z z).
Proof. apply round_int. Qed.

Lemma add_safe a b :
  Z.abs (a + b) < 2 ^ 53 -> add (Fin (inject_Z a)) (Fin (inject_Z b)) = Fin (inject_Z (a + b)).
Proof.
  intros H. unfold add. rewrite <- inject_Z_plus. apply round_int. exact H.
Qed.

Lemma opp_safe a : opp (Fin (inject_Z a)) = Fin (inject_Z (- a)).
Proof. unfold opp. rewrite <- inject_Z_opp. rewrite Qred_inject_Z. reflexivity. Qed.

Lemma randomDelayWith_range (r : Q) (min max : Z) :
  - 2 ^ 53 < min -> min <= max -> max < 2 ^ 53 -> max - min + 1 < 2 ^ 53 ->
  isDouble r -> (0 <= r)%Q -> (r < 1)%Q ->
  exists n, SongCreator.randomDelayWith r (ofZ min) (ofZ max) = Fin (inject_Z n) /\ min <= n <= max.
Proof.
  intros Hmin Hle Hmax Hspan Hd H0 H1.
  unfold SongCreator.randomDelayWith.
  rewrite (ofZ_safe min), (ofZ_safe max), (ofZ_safe 1) by lia.
  unfold sub. rewrite opp_safe. rewrite add_safe by lia. rewrite add_safe by lia.
  destruct (@mul_draw_bound r (max + - min + 1)) as (v & Ev & Hv0 & Hvk);
    [exact H0 | apply double_below_one; assumption | lia | lia |].
  unfold mul. rewrite Ev. unfold floor.
  assert (Hf0 : 0 <= Qfloor v).
  { change 0 with (Qfloor 0). apply Qfloor_resp_le. exact Hv0. }
  assert (Hf1 : Qfloor v < max + - min + 1).
  { rewrite Zlt_Qlt. eapply Qle_lt_trans; [apply Qfloor_le | exact Hvk]. }
  exists (Qfloor v + min). split; [apply add_safe; lia | lia].
Qed.


(** C9 (as amended).  For integers [min <= max] between [-2^53] and [2^53]
    whose span [max - min + 1] is below [2^53], and every double in [0,1)
    drawn by [Math.random()], [randomDelay(min, max)] returns an integer
    between [min] and [max]. *)
Theorem randomDelay_in_range {W} (drv : Driver W) (st : State W) (min max : Z) :
  - 2 ^ 53 < min -> min <= max -> max < 2 ^ 53 -> max - min + 1 < 2 ^ 53 ->
  isDouble (fst (random drv (world st))) ->
  (0 <= fst (random drv (world st)))%Q ->
  (fst (random drv (world st)) < 1)%Q ->
  exists n, res (SongCreator.randomDelay drv min max st) = Ok (Fin (inject_Z n))
            /\ min <= n <= max.
Proof.
  intros Hmin Hle Hmax Hspan Hd H0 H1.
  unfold SongCreator.randomDelay, mathRandom, total, bind, ret, res.
  destruct (random drv (world st)) as [r w] eqn:E. cbn [fst snd] in *.
  destruct (@randomDelayWith_range r min max) as (n & En & Hn); try assumption.
  exists n. rewrite En. split; [reflexivity | exact Hn].
Qed.

Lemma randomDelay_in_range_witness :
  exists n, res (SongCreator.randomDelay Worlds.idle 100 300 (initState 0))
            = Ok (Fin (inject_Z n))
            /\ 100 <= n <= 300.
Proof.
  apply (@randomDelay_in_range Z Worlds.idle (initState 0) 100 300).
  - lia.
  - lia.
  - lia.
  - lia.
  - vm_compute. reflexivity.
  - vm_compute. discriminate.
  - vm_compute. reflexivity.
Defined.

(** C9 (counterexample to the claim as worded).  The integers [-2^1023] and
    [2^1023] are doubles, one half is a draw in [0,1), and yet
    [randomDelay(-2^1023, 2^1023)] is no integer between its bounds: the
    difference of the bounds overflows and the result is [Infinity]. *)
Lemma randomDelay_overflow_counterexample :
  (ofZ (- 2 ^ 1023) = Fin (inject_Z (- 2 ^ 1023))
   /\ ofZ (2 ^ 1023) = Fin (inject_Z (2 ^ 1023)))
  /\ (isDouble (1 # 2) /\ (0 <= 1 # 2)%Q /\ (1 # 2 < 1)%Q)
  /\ res (SongCreator.randomDelay Worlds.idle (- 2 ^ 1023) (2 ^ 1023) (initState 0))
     = Ok PosInf.
Proof.
  split; [split; vm_compute; reflexivity|].
  split; [split; [vm_compute; reflexivity | split; [discriminate | reflexivity]]|].
  vm_compute. reflexivity.
Qed.

End RandomDelay.

(** ** The monad: running computations *)

Section MonadFacts.
Context {W : Type}.

Lemma bind_Ok {A B} (m : M W A) (k : A -> M W B) st a st' :
  m st = (Ok a, st') -> bind m k st = k a st'.
Proof. intros H; unfold bind; rewrite H; reflexivity. Qed.

Lemma bind_Throw {A B} (m : M W A) (k : A -> M W B) st e st' :
  m st = (Throw e, st') -> bind m k st = (Throw e, st').
Proof. intros H; unfold bind; rewrite H; reflexivity. Qed.

Lemma bind_OutOfFuel {A B} (m : M W A) (k : A -> M W B) st st' :
  m st = (OutOfFuel, st') -> bind m k st = (OutOfFuel, st').
Proof. intros H; unfold bind; rewrite H; reflexivity. Qed.

Lemma bind_assoc {A B C} (m : M W A) (f : A -> M W B) (g : B -> M W C) st :
  bind (bind m f) g st = bind m (fun x => bind (f x) g) st.
Proof. unfold bind. destruct (m st) as [[a|e|] st']; reflexivity. Qed.

Lemma bind_ret {A B} (a : A) (k : A -> M W B) st : bind (ret a) k st = k a st.
Proof. reflexivity. Qed.

Lemma tryCatch_Ok {A} (m : M W A) h st a st' :
  m st = (Ok a, st') -> tryCatch m h st = (Ok a, st').
Proof. intros H; unfold tryCatch; rewrite H; reflexivity. Qed.

Lemma tryCatch_Throw {A} (m : M W A) h st e st' :
  m st = (Throw e, st') -> tryCatch m h st = h e st'.
Proof. intros H; unfold tryCatch; rewrite H; reflexivity. Qed.

Lemma tryCatch_OutOfFuel {A} (m : M W A) h st st' :
  m st = (OutOfFuel, st') -> tryCatch m h st = (OutOfFuel, st').
Proof. intros H; unfold tryCatch; rewrite H; reflexivity. Qed.

(** A [try] whose handler always returns a value never raises, as long as
    its body finishes. *)
Lemma tryCatch_total {A} (m : M W A) (h : string -> M W A) :
  finishes m -> (forall e, total_ (h e)) -> total_ (tryCatch m h).
Proof.
  intros Hm Hh st. unfold tryCatch.
  destruct (Hm st) as [_ Hf]. unfold res in *.
  destruct (m st) as [[a|e|] st'] eqn:E; simpl in *.
  - eauto.
  - apply Hh.
  - exfalso. apply Hf; reflexivity.
Qed.

Lemma ret_total {A} (a : A) : total_ (ret (W:=W) a).
Proof. intros st. exists a. reflexivity. Qed.

End MonadFacts.

(** ** Relations obeyed by computations *)

Section Obeys.
Context {W : Type} (R : State W -> State W -> Prop) (strict : bool).
Hypothesis R_refl : forall st, R st st.
Hypothesis R_trans : forall a b c, R a b -> R b c -> R a c.


Lemma obeys_ret {A} (a : A) : obeys R strict (ret a).
Proof. intros st. split; [apply R_refl | discriminate]. Qed.

Lemma obeys_throw {A} e : obeys R strict (throw (A:=A) e).
Proof. intros st. split; [apply R_refl | discriminate]. Qed.

Lemma obeys_peek {A} (f : W -> A) : obeys R strict (peek f).
Proof. intros st. split; [apply R_refl | discriminate]. Qed.

Lemma obeys_getState {A} (f : State W -> A) : obeys R strict (getState f).
Proof. intros st. split; [apply R_refl | discriminate]. Qed.

Lemma obeys_prim {A} (f : W -> reply A * W) :
  (forall st, R st (setWorld st (snd (f (world st))))) -> obeys R strict (prim f).
Proof.
  intros H st. specialize (H st). unfold prim, final, res.
  destruct (f (world st)) as [[a|e] w]; simpl in *; split; auto; discriminate.
Qed.

Lemma obeys_total {A} (f : W -> A * W) :
  (forall st, R st (setWorld st (snd (f (world st))))) -> obeys R strict (total f).
Proof.
  intros H st. specialize (H st). unfold total, final, res.
  destruct (f (world st)) as [a w]; simpl in *; split; auto; discriminate.
Qed.

Lemma obeys_modify (f : State W -> State W) :
  (forall st, R st (f st)) -> obeys R strict (modify f).
Proof. intros H st. split; [apply H | discriminate]. Qed.

Lemma obeys_bind {A B} (m : M W A) (k : A -> M W B) :
  obeys R strict m -> (forall a, obeys R strict (k a)) -> obeys R strict (bind m k).
Proof.
  intros Hm Hk st. destruct (Hm st) as [H1 H2]. unfold bind, final, res in *.
  destruct (m st) as [[a|e|] st'] eqn:E; simpl in *.
  - destruct (Hk a st') as [H3 H4]. split; [eapply R_trans; eauto | exact H4].
  - split; [exact H1 | discriminate].
  - split; [exact H1 | intros Hs; exfalso; apply (H2 Hs); reflexivity].
Qed.

Lemma obeys_tryCatch {A} (m : M W A) (h : string -> M W A) :
  obeys R strict m -> (forall e, obeys R strict (h e)) -> obeys R strict (tryCatch m h).
Proof.
  intros Hm Hh st. destruct (Hm st) as [H1 H2]. unfold tryCatch, final, res in *.
  destruct (m st) as [[a|e|] st'] eqn:E; simpl in *.
  - split; [exact H1 | discriminate].
  - destruct (Hh e st') as [H3 H4]. split; [eapply R_trans; eauto | exact H4].
  - split; [exact H1 | exact H2].
Qed.

Lemma obeys_catchDefault {A} (m : M W A) (d : A) :
  obeys R strict m -> obeys R strict (catchDefault m d).
Proof. intros Hm. apply obeys_tryCatch; [exact Hm | intros; apply obeys_ret]. Qed.

Lemma obeys_tryFinally {A} (m : M W A) (f : M W unit) :
  obeys R strict m -> obeys R strict f -> obeys R strict (tryFinally m f).
Proof.
  intros Hm Hf st. destruct (Hm st) as [H1 H2]. unfold tryFinally, final, res in *.
  destruct (m st) as [[a|e|] st'] eqn:E; simpl in *.
  - destruct (Hf st') as [H3 H4]. unfold final, res in *.
    destruct (f st') as [[[]|e'|] st''] eqn:E'; simpl in *;
      (split; [eapply R_trans; eauto | ]); try discriminate.
    intros Hs; exfalso; apply (H4 Hs); reflexivity.
  - destruct (Hf st') as [H3 H4]. unfold final, res in *.
    destruct (f st') as [[[]|e'|] st''] eqn:E'; simpl in *;
      (split; [eapply R_trans; eauto | ]); try discriminate.
    intros Hs; exfalso; apply (H4 Hs); reflexivity.
  - split; [exact H1 | intros Hs; exfalso; apply (H2 Hs); reflexivity].
Qed.

Lemma obeys_forOf {A S Ret} (xs : list A) (body : A -> S -> M W (ctl S Ret)) :
  (forall x s, obeys R strict (body x s)) -> forall s, obeys R strict (forOf xs body s).
Proof.
  intros Hb. induction xs as [|x xs IH]; intros s; simpl.
  - apply obeys_ret.
  - apply obeys_bind; [apply Hb|].
    intros [s'|s'|r]; [apply IH | apply obeys_ret | apply obeys_ret].
Qed.

Lemma obeys_forEach {A S} (xs : list A) (body : A -> S -> M W (ctl S Empty_set)) s :
  (forall x s, obeys R strict (body x s)) -> obeys R strict (forEach xs body s).
Proof.
  intros Hb. unfold forEach. apply obeys_bind; [apply obeys_forOf; exact Hb|].
  intros [s'|[]]. apply obeys_ret.
Qed.

End Obeys.

(** A loop with fuel obeys a relation, but may be left unfinished. *)
Lemma obeys_while {W S Ret} (R : State W -> State W -> Prop)
      (R_refl : forall st, R st st)
      (R_trans : forall a b c, R a b -> R b c -> R a c)
      fuel (cond : S -> M W bool) (body : S -> M W (ctl S Ret)) :
  (forall s, obeys R false (cond s)) -> (forall s, obeys R false (body s)) ->
  forall s, obeys R false (while fuel cond body s).
Proof.
  intros Hc Hb. induction fuel as [|n IH]; intros s; simpl.
  - intros st. split; [apply R_refl | discriminate].
  - apply obeys_bind; auto. intros [|]; [|apply obeys_ret; auto].
    apply obeys_bind; auto.
    intros [s'|s'|r]; [apply IH | apply obeys_ret; auto | apply obeys_ret; auto].
Qed.

Lemma anyStep_refl {W} (st : State W) : anyStep st st.
Proof. exact I. Qed.

Lemma anyStep_trans {W} (a b c : State W) : anyStep a b -> anyStep b c -> anyStep a c.
Proof. intros _ _; exact I. Qed.

(** Symbolic traversal of a computation built from the combinators: [side]
    solves the conditions on primitives and state changes. *)
Ltac head_of t :=
  lazymatch t with
  | ?f _ => head_of f
  | _ => t
  end.

Ltac obeys_close refl trans :=
  try solve [intros; first [apply refl | eapply trans; eassumption]].

Ltac obeys_step refl trans side :=
  lazymatch goal with
  | |- forall _, _ => intro
  | |- obeys _ _ (ret _) => apply obeys_ret; obeys_close refl refl
  | |- obeys _ _ (throw _) => apply obeys_throw; obeys_close refl refl
  | |- obeys _ _ (peek _) => apply obeys_peek; obeys_close refl refl
  | |- obeys _ _ (getState _) => apply obeys_getState; obeys_close refl refl
  | |- obeys _ _ (prim _) => apply obeys_prim; solve [side]
  | |- obeys _ _ (total _) => apply obeys_total; solve [side]
  | |- obeys _ _ (modify _) => apply obeys_modify; solve [side]
  | |- obeys _ _ (bind _ _) => apply obeys_bind; obeys_close refl trans
  | |- obeys _ _ (tryCatch _ _) => apply obeys_tryCatch; obeys_close refl trans
  | |- obeys _ _ (catchDefault _ _) => apply obeys_catchDefault; obeys_close refl trans
  | |- obeys _ _ (tryFinally _ _) => apply obeys_tryFinally; obeys_close refl trans
  | |- obeys _ _ (forOf _ _ _) => apply obeys_forOf; obeys_close refl trans
  | |- obeys _ _ (forEach _ _ _) => apply obeys_forEach; obeys_close refl trans
  | |- obeys _ false (while _ _ _ _) => apply obeys_while; obeys_close refl trans
  | |- obeys _ _ (if ?b then _ else _) => destruct b
  | |- obeys _ _ (match ?x with _ => _ end) => destruct x
  | |- obeys _ _ ?m => let h := head_of m in unfold h
  end.

Ltac obeys_tac refl trans side := repeat (obeys_step refl trans side).

Ltac finishes_tac :=
  unfold finishes;
  obeys_tac (@anyStep_refl) (@anyStep_trans) ltac:(intros; exact I).

(** ** download-manager.js: the status checks never raise *)

Section StatusChecksTotal.
Context {W : Type} (drv : Driver W) (cfg : Config).

Lemma checkSongStatus_total songTitle :
  total_ (DownloadManager.checkSongStatus drv cfg songTitle).
Proof.
  unfold DownloadManager.checkSongStatus.
  apply tryCatch_total; [finishes_tac | intros; apply ret_total].
Qed.

Lemma checkForCaptcha_total : total_ (DownloadManager.checkForCaptcha drv).
Proof.
  unfold DownloadManager.checkForCaptcha.
  apply tryCatch_total; [finishes_tac | intros; apply ret_total].
Qed.

(** A loop whose every iteration goes on with the same variables ends by
    leaving them as they are. *)
Lemma forOf_all_continue {A S Ret} (xs : list A) (body : A -> S -> M W (ctl S Ret)) s :
  (forall x st, exists st', body x s st = (Ok (Continue s), st')) ->
  forall st, exists st', forOf xs body s st = (Ok (inl s), st').
Proof.
  intros Hb. induction xs as [|x xs IH]; intros st; simpl.
  - exists st. reflexivity.
  - destruct (Hb x st) as [st1 E]. erewrite bind_Ok by exact E. apply IH.
Qed.

(** C10. The two status checks of the completion wait always return a
    boolean and never raise.  An internal error is mapped to [false]: a failed
    navigation to the listing makes [checkSongStatus] answer not complete, and
    failing locators on a page that is no error page make [checkForCaptcha]
    answer no challenge. *)
Theorem status_checks_never_raise (songTitle : string) (st : State W) :
  (exists b, res (DownloadManager.checkSongStatus drv cfg songTitle st) = Ok b)
  /\ (exists b, res (DownloadManager.checkForCaptcha drv st) = Ok b)
  /\ (forall e w',
        JS.includes (url drv (world st)) "/me" = false ->
        act drv (Goto (baseUrl cfg ++ "/me")) (world st) = (Fail e, w') ->
        res (DownloadManager.checkSongStatus drv cfg songTitle st) = Ok false)
  /\ ((forall l w, exists e w', probe drv (IsVisible l) w = (Fail e, w')) ->
      (forall w, JS.includes (url drv w) "404" = false
                 /\ JS.includes (url drv w) "error" = false) ->
      res (DownloadManager.checkForCaptcha drv st) = Ok false).
Proof.
  split; [apply checkSongStatus_total|].
  split; [apply checkForCaptcha_total|].
  split.
  - intros e w' Hurl Hgo.
    unfold DownloadManager.checkSongStatus, tryCatch, bind, pageUrl, peek, pageGoto,
      prim, res. simpl.
    rewrite Hurl. simpl. rewrite Hgo. reflexivity.
  - intros Hprobe Hurl.
    unfold DownloadManager.checkForCaptcha.
    match goal with
    | |- res (tryCatch (bind (forOf ?xs ?body tt) ?k) ?h st) = _ =>
        destruct (@forOf_all_continue _ _ _ xs body tt) with (st := st) as [st' E]
    end.
    { intros x st0. unfold tryCatch, bind, isVisible, prim.
      destruct (Hprobe (First (Css x)) (world st0)) as (e & w' & Ep).
      rewrite Ep. eexists. reflexivity. }
    unfold tryCatch. erewrite bind_Ok by exact E.
    unfold bind, pageUrl, peek, ret, res.
    destruct (Hurl (world st')) as [H1 H2]. rewrite H1, H2. reflexivity.
Qed.

End StatusChecksTotal.

(** ** song-creator.js: the style field is mandatory, the title is not *)

Section RaisesFacts.
Context {W : Type}.

Lemma raises_throw {A} e : raises (throw (W:=W) (A:=A) e).
Proof. intros st. exists e. reflexivity. Qed.

Lemma raises_bind_l {A B} (m : M W A) (k : A -> M W B) :
  raises m -> raises (bind m k).
Proof.
  intros Hm st. destruct (Hm st) as [e He]. unfold bind, res in *.
  destruct (m st) as [[a|e'|] st']; simpl in *; try discriminate.
  exists e'. reflexivity.
Qed.

Lemma raises_bind_r {A B} (m : M W A) (k : A -> M W B) :
  finishes m -> (forall a, raises (k a)) -> raises (bind m k).
Proof.
  intros Hm Hk st. destruct (Hm st) as [_ Hf]. unfold bind, res in *.
  destruct (m st) as [[a|e'|] st'] eqn:E; simpl in *.
  - apply Hk.
  - exists e'. reflexivity.
  - exfalso. apply Hf; reflexivity.
Qed.

Lemma raises_tryCatch {A} (m : M W A) (h : string -> M W A) :
  raises m -> (forall e, raises (h e)) -> raises (tryCatch m h).
Proof.
  intros Hm Hh st. destruct (Hm st) as [e He]. unfold tryCatch, res in *.
  destruct (m st) as [[a|e'|] st']; simpl in *; try discriminate.
  apply Hh.
Qed.

(** When the computation of a value always gives [a], what follows is run
    on [a]. *)
Lemma raises_bind_value {A B} (m : M W A) (k : A -> M W B) (a : A) :
  (forall st, exists st', m st = (Ok a, st')) -> raises (k a) -> raises (bind m k).
Proof.
  intros Hm Hk st. destruct (Hm st) as [st' E]. erewrite bind_Ok by exact E. apply Hk.
Qed.

Lemma forOf_continue_In {A S Ret} (xs : list A) (body : A -> S -> M W (ctl S Ret)) s :
  (forall x st, In x xs -> exists st', body x s st = (Ok (Continue s), st')) ->
  forall st, exists st', forOf xs body s st = (Ok (inl s), st').
Proof.
  induction xs as [|x xs IH]; intros Hb st; simpl.
  - exists st. reflexivity.
  - destruct (Hb x st (or_introl eq_refl)) as [st1 E].
    erewrite bind_Ok by exact E. apply IH. intros y st0 Hy. apply Hb. right; exact Hy.
Qed.

Lemma forEach_continue_In {A S} (xs : list A) (body : A -> S -> M W (ctl S Empty_set)) s :
  (forall x st, In x xs -> exists st', body x s st = (Ok (Continue s), st')) ->
  forall st, exists st', forEach xs body s st = (Ok s, st').
Proof.
  intros Hb st. unfold forEach.
  destruct (@forOf_continue_In _ _ _ xs body s Hb st) as [st' E].
  erewrite bind_Ok by exact E. exists st'. reflexivity.
Qed.

Lemma raises_bind_assoc {A B C} (m : M W A) (f : A -> M W B) (g : B -> M W C) :
  raises (bind m (fun x => bind (f x) g)) -> raises (bind (bind m f) g).
Proof.
  intros H st. specialize (H st). unfold bind in *.
  destruct (m st) as [[a|e|] st']; exact H.
Qed.

End RaisesFacts.

Section CreateSong.
Context {W : Type} (drv : Driver W) (cfg : Config) (fuel : nat).

Lemma visibleOrFalse_false (l : Locator) (st : State W) :
  fst (probe drv (IsVisible l) (world st)) <> Done true ->
  exists st', visibleOrFalse drv l st = (Ok false, st').
Proof.
  intros H. unfold visibleOrFalse, catchDefault, tryCatch, isVisible, prim, ret.
  destruct (probe drv (IsVisible l) (world st)) as [[[|]|e] w]; simpl in *.
  - exfalso. apply H. reflexivity.
  - eexists; reflexivity.
  - eexists; reflexivity.
Qed.

Lemma In_all_elements (l x : Locator) (n : nat) :
  In x (map (Nth l) (seq 0 n)) -> exists i, x = Nth l i.
Proof. intros H. apply in_map_iff in H. destruct H as (i & <- & _). eauto. Qed.

Lemma raises_bind_all {B} (l : Locator) (k : list Locator -> M W B) :
  (forall n, raises (k (map (Nth l) (seq 0 n)))) -> raises (bind (all drv l) k).
Proof.
  intros H st. unfold all, locatorCount, bind, prim, ret.
  destruct (count drv l (world st)) as [[n|e] w]; simpl.
  - apply H.
  - exists e. reflexivity.
Qed.

(** What a primitive with a default answers, and the state it leaves. *)
Lemma catchDefault_prim_run {A} (f : W -> reply A * W) (d : A) (st : State W) :
  catchDefault (prim f) d st
  = (Ok (match fst (f (world st)) with Done a => a | Fail _ => d end),
     setWorld st (snd (f (world st)))).
Proof.
  unfold catchDefault, tryCatch, prim, ret.
  destruct (f (world st)) as [[a|e] w]; reflexivity.
Qed.

Lemma world_setWorld (st : State W) (w : W) : world (setWorld st w) = w.
Proof. reflexivity. Qed.

Lemma examineStyleCandidate_none t (st : State W) :
  neverVisible drv t \/ skippedByStyleSearch drv t ->
  exists st', SongCreator.examineStyleCandidate drv t st = (Ok None, st').
Proof.
  intros H. unfold SongCreator.examineStyleCandidate, visibleOrFalse, isVisible.
  erewrite bind_Ok by apply catchDefault_prim_run.
  destruct (fst (probe drv (IsVisible t) (world st))) as [[|]|e] eqn:Ev;
    [|eexists; reflexivity|eexists; reflexivity].
  destruct H as [Hn|Hs]; [exfalso; exact (Hn _ Ev)|].
  erewrite bind_Ok by apply catchDefault_prim_run.
  erewrite bind_Ok by apply catchDefault_prim_run.
  rewrite !world_setWorld.
  set (w1 := snd (probe drv (IsVisible t) (world st))).
  set (w2 := snd (getAttribute drv t "placeholder" w1)).
  set (w3 := snd (getAttribute drv t "maxlength" w2)).
  destruct Hs as [Hl|Ha].
  - destruct (Hl w1) as (p & Ep & Hp). rewrite Ep, Hp. eexists; reflexivity.
  - match goal with
    | |- context [SongCreator.isLyricsPlaceholder ?p] =>
        destruct (SongCreator.isLyricsPlaceholder p)
    end; [eexists; reflexivity|].
    unfold locatorCount. erewrite bind_Ok by apply catchDefault_prim_run.
    rewrite !world_setWorld. fold w3.
    destruct (Ha w3) as (n & En & Hn). rewrite En.
    apply Nat.ltb_lt in Hn. rewrite Hn. eexists; reflexivity.
Qed.

Lemma examineFallbackCandidate_none t (st : State W) :
  neverVisible drv t \/ skippedByFallback drv t ->
  exists st', SongCreator.examineFallbackCandidate drv t st = (Ok None, st').
Proof.
  intros H. unfold SongCreator.examineFallbackCandidate, visibleOrFalse, isVisible.
  erewrite bind_Ok by apply catchDefault_prim_run.
  destruct (fst (probe drv (IsVisible t) (world st))) as [[|]|e] eqn:Ev;
    [|eexists; reflexivity|eexists; reflexivity].
  destruct H as [Hn|Hs]; [exfalso; exact (Hn _ Ev)|].
  erewrite bind_Ok by apply catchDefault_prim_run.
  erewrite bind_Ok by apply catchDefault_prim_run.
  rewrite !world_setWorld.
  set (w1 := snd (probe drv (IsVisible t) (world st))).
  set (w2 := snd (getAttribute drv t "placeholder" w1)).
  destruct Hs as [Hm|Hp].
  - specialize (Hm w2).
    destruct (fst (getAttribute drv t "maxlength" w2)) as [[ml|]|e];
      [|eexists; reflexivity|eexists; reflexivity].
    destruct (String.eqb ml "1000") eqn:E; [|eexists; reflexivity].
    apply String.eqb_eq in E. subst ml. exfalso. apply Hm. reflexivity.
  - destruct (Hp w1) as (p & Ep & Hl). rewrite Ep, Hl.
    match goal with
    | |- context [match ?m with Some _ => _ | None => _ end] =>
        destruct m as [ml|]; [destruct (String.eqb ml "1000")|]
    end; eexists; reflexivity.
Qed.

Lemma styleSelector_examined selector :
  In selector SongCreator.styleSelectors -> In selector textareaSelectors.
Proof. intros H. apply in_or_app. left. exact H. Qed.

Lemma textarea_examined : In "textarea" textareaSelectors.
Proof. apply in_or_app. right. apply in_eq. Qed.

(** When no textarea is taken, the search over the style selectors ends
    with no style input. *)
Lemma styleSearch_none (st : State W) :
  styleUnlocatable drv ->
  exists st',
    forEach SongCreator.styleSelectors
      (fun selector (styleInput : option Locator) =>
         tryCatch
           (textareas <- all drv (Css selector) ;;
            found <-
              forEach textareas
                (fun textarea (cur : option Locator) =>
                   r <- SongCreator.examineStyleCandidate drv textarea ;;
                   match r with
                   | Some t => ret (Break (Some t))
                   | None => ret (Continue cur)
                   end)
                styleInput ;;
            match found with
            | Some _ => ret (Break found)
            | None => ret (Continue found)
            end)
           (fun _ => ret (Continue styleInput)))
      None st = (Ok None, st').
Proof.
  intros H. apply forEach_continue_In. intros selector st0 Hsel.
  unfold tryCatch, all, locatorCount. unfold bind at 1. unfold bind at 1.
  unfold prim at 1.
  destruct (count drv (Css selector) (world st0)) as [[n|e] w]; simpl;
    [|eexists; reflexivity].
  match goal with
  | |- context [bind (forEach ?xs ?body None) _ ?s] =>
      destruct (@forEach_continue_In W _ _ xs body None) with (st := s) as [st1 E]
  end.
  { intros x st2 Hx. destruct (In_all_elements _ _ _ Hx) as [i ->].
    destruct (@examineStyleCandidate_none (Nth (Css selector) i) st2) as [st3 E3].
    { destruct (H selector i (styleSelector_examined Hsel)) as [Hn|[Hs _]]; auto. }
    erewrite bind_Ok by exact E3. eexists; reflexivity. }
  erewrite bind_Ok by exact E. eexists; reflexivity.
Qed.

Lemma takeDebugScreenshot_finishes name :
  finishes (SongCreator.takeDebugScreenshot drv name).
Proof. finishes_tac. Qed.

Lemma fillStyles_raises style :
  styleUnlocatable drv -> raises (SongCreator.fillStyles drv style).
Proof.
  intros H. unfold SongCreator.fillStyles.
  apply raises_tryCatch.
  2:{ intros e. apply raises_bind_r; [apply takeDebugScreenshot_finishes|].
      intros _. apply raises_throw. }
  apply raises_bind_r; [finishes_tac|]. intros _.
  eapply raises_bind_value.
  { intros st. apply styleSearch_none. exact H. }
  apply raises_bind_assoc. apply raises_bind_all. intros n.
  eapply raises_bind_value.
  { intros st. apply forEach_continue_In. intros x st2 Hx.
    destruct (In_all_elements _ _ _ Hx) as [i ->].
    destruct (@examineFallbackCandidate_none (Nth (Css "textarea") i) st2)
      as [st3 E3].
    { destruct (H "textarea" i textarea_examined) as [Hn|[_ Hf]]; auto. }
    erewrite bind_Ok by exact E3. eexists; reflexivity. }
  apply raises_bind_r; [finishes_tac|]. intros _. apply raises_throw.
Qed.

Lemma addSongTitle_total title : total_ (SongCreator.addSongTitle drv title).
Proof.
  unfold SongCreator.addSongTitle.
  apply tryCatch_total; [finishes_tac | intros; apply ret_total].
Qed.

Lemma createSong_raises title lyrics style :
  styleUnlocatable drv ->
  raises (SongCreator.createSong drv cfg fuel title lyrics style).
Proof.
  intros H. unfold SongCreator.createSong.
  apply raises_tryCatch; [|intros e; apply raises_throw].
  apply raises_bind_r; [finishes_tac|]. intros _.
  apply raises_bind_r; [finishes_tac|]. intros _.
  apply raises_bind_r; [finishes_tac|]. intros _.
  apply raises_bind_r; [finishes_tac|]. intros d.
  apply raises_bind_r; [finishes_tac|]. intros _.
  apply raises_bind_r; [finishes_tac|]. intros _.
  apply raises_bind_l. apply fillStyles_raises. exact H.
Qed.

End CreateSong.

(** C7. A style input that cannot be located - every textarea of the page
    is never visible, or is visible but passed over by both searches of
    [fillStyles] - aborts the whole [createSong] call with an error.  The
    title is optional: [addSongTitle] never raises, and on a page whose title
    input cannot be located [createSong] still succeeds. *)
Theorem style_required_title_optional {W} (drv : Driver W) (cfg : Config) (fuel : nat)
        (title lyrics style : string) (st : State W) :
  (styleUnlocatable drv ->
   exists e, res (SongCreator.createSong drv cfg fuel title lyrics style st) = Throw e)
  /\ res (SongCreator.addSongTitle drv title st) = Ok tt
  /\ (titleUnlocatable Worlds.studio
      /\ exists r, res (SongCreator.createSong Worlds.studio Worlds.defaultConfig 5
                          "Test" EmptyString "ambient, slow" (initState 0)) = Ok r).
Proof.
  split; [|split; [|split]].
  - intros H. apply createSong_raises. exact H.
  - destruct (addSongTitle_total drv title st) as [[] E]. exact E.
  - intros sel w Hin. simpl in Hin.
    destruct Hin as [<-|[<-|[<-|[<-|[]]]]]; vm_compute; discriminate.
  - eexists. vm_compute. reflexivity.
Qed.

Lemma style_required_title_optional_witness :
  exists e, res (SongCreator.createSong Worlds.lyricsOnly Worlds.defaultConfig 5
                   "Test" EmptyString "ambient, slow" (initState 0)) = Throw e.
Proof.
  apply (style_required_title_optional Worlds.lyricsOnly Worlds.defaultConfig 5
           "Test" EmptyString "ambient, slow" (initState 0)).
  intros sel i _. right. split.
  - left. intros w. eexists. split; vm_compute; reflexivity.
  - left. intros w. vm_compute. discriminate.
Defined.

(** ** auth-persistent.js and suno-bot.js: what a failed Google login
    reports *)

Section GoogleLogin.
Context {W : Type} (drv : Driver W) (cfg : Config).

Lemma loginWithGoogle_total email password :
  total_ (AuthManagerPersistent.loginWithGoogle drv cfg email password).
Proof.
  unfold AuthManagerPersistent.loginWithGoogle.
  apply tryCatch_total.
  - finishes_tac.
  - intros e st. unfold bind, AuthManagerPersistent.logStep, emit, modify, ret, res.
    simpl. eauto.
Qed.

Lemma checkIfLoggedIn_total : total_ (AuthManagerPersistent.checkIfLoggedIn drv cfg).
Proof.
  unfold AuthManagerPersistent.checkIfLoggedIn.
  apply tryCatch_total; [finishes_tac | intros; apply ret_total].
Qed.

Lemma total_bind {A B} (m : M W A) (k : A -> M W B) :
  total_ m -> (forall a, total_ (k a)) -> total_ (bind m k).
Proof.
  intros Hm Hk st. destruct (Hm st) as [a Ha]. unfold bind, res in *.
  destruct (m st) as [[a'|e|] st']; simpl in *; try discriminate. apply Hk.
Qed.

(** With the Google method the login of the authentication manager never
    raises, whatever happens on the page. *)
Lemma authLogin_google_total :
  authMethod cfg = "google" -> total_ (AuthManagerPersistent.login drv cfg).
Proof.
  intros Hg. unfold AuthManagerPersistent.login. rewrite Hg. simpl.
  apply total_bind; [apply checkIfLoggedIn_total|].
  intros [|]; [apply ret_total|].
  apply total_bind.
  - apply tryCatch_total; [finishes_tac | intros; apply ret_total].
  - intros [[email password]|]; apply loginWithGoogle_total.
Qed.

(** Hence the bot reports a successful authentication on every run. *)
Lemma botLogin_google_always_succeeds (st : State W) :
  authMethod cfg = "google" -> res (SunoBot.login drv cfg st) = Ok true.
Proof.
  intros Hg. unfold SunoBot.login, tryCatch, bind, SunoBot.updateStatus, emit, modify.
  simpl.
  match goal with
  | |- context [AuthManagerPersistent.login drv cfg ?s] =>
      destruct (authLogin_google_total Hg s) as [r Hr];
      unfold res in Hr;
      destruct (AuthManagerPersistent.login drv cfg s) as [[r'|e|] st']; simpl in Hr;
      try discriminate
  end.
  reflexivity.
Qed.

End GoogleLogin.

(** C1 (evaluation at the failing input).  On a page of the OAuth provider
    that shows no email field, [loginWithGoogle] resolves to the failure
    object, raising nothing; the bot then reports the authentication as
    successful: it returns [true] and its last status event is
    [authenticated]. *)
Theorem google_login_failure_reported_as_success :
  res (AuthManagerPersistent.loginWithGoogle Worlds.googleNoEmail Worlds.defaultConfig
         "user@example.com" "secret" (initState 0))
  = Ok (AuthManagerPersistent.LoginFailure "Could not find email input field")
  /\ res (AuthManagerPersistent.login Worlds.googleNoEmail Worlds.defaultConfig
            (initState 0))
     = Ok (AuthManagerPersistent.LoginFailure "Could not find email input field")
  /\ res (SunoBot.login Worlds.googleNoEmail Worlds.defaultConfig (initState 0)) = Ok true
  /\ hd_error (log (final (SunoBot.login Worlds.googleNoEmail Worlds.defaultConfig
                             (initState 0))))
     = Some (Status "authenticated" []).
Proof. repeat split; vm_compute; reflexivity. Qed.

(** ** download-manager.js: two artifacts, none of them empty *)

Section Ensures.
Context {W : Type}.

Lemma ensures_ret {A} (P : A -> Prop) (a : A) : P a -> ensures P (ret (W:=W) a).
Proof. intros H st b E. inversion E. subst. exact H. Qed.

Lemma ensures_throw {A} (P : A -> Prop) e : ensures P (throw (W:=W) e).
Proof. intros st b E. discriminate. Qed.

Lemma ensures_bind_strong {A B} (Q : A -> Prop) (P : B -> Prop)
      (m : M W A) (k : A -> M W B) :
  ensures Q m -> (forall a, Q a -> ensures P (k a)) -> ensures P (bind m k).
Proof.
  intros Hm Hk st b. specialize (Hm st). unfold bind, res in *.
  destruct (m st) as [[a|e|] st'] eqn:E; simpl in *; try discriminate.
  intros Hb. eapply Hk; [apply Hm; reflexivity | exact Hb].
Qed.

Lemma ensures_bind {A B} (P : B -> Prop) (m : M W A) (k : A -> M W B) :
  (forall a, ensures P (k a)) -> ensures P (bind m k).
Proof.
  intros Hk. apply ensures_bind_strong with (Q := fun _ => True).
  - intros st a _. exact I.
  - intros a _. apply Hk.
Qed.

Lemma ensures_tryCatch {A} (P : A -> Prop) (m : M W A) (h : string -> M W A) :
  ensures P m -> (forall e, ensures P (h e)) -> ensures P (tryCatch m h).
Proof.
  intros Hm Hh st a. specialize (Hm st). unfold tryCatch, res in *.
  destruct (m st) as [[a'|e|] st'] eqn:E; simpl in *; try discriminate.
  - apply Hm.
  - apply Hh.
Qed.

Lemma ensures_prim {A} (Q : A -> Prop) (f : W -> reply A * W) :
  (forall w a, fst (f w) = Done a -> Q a) -> ensures Q (prim f).
Proof.
  intros H st a. specialize (H (world st)). unfold prim, res.
  destruct (f (world st)) as [[a'|e] w]; simpl in *; try discriminate.
  intros E. inversion E. subst. apply H. reflexivity.
Qed.

Lemma ensures_peek {A} (Q : A -> Prop) (f : W -> A) :
  (forall w, Q (f w)) -> ensures Q (peek f).
Proof. intros H st a E. inversion E. apply H. Qed.

Lemma ensures_weaken {A} (P Q : A -> Prop) (m : M W A) :
  (forall a, P a -> Q a) -> ensures P m -> ensures Q m.
Proof. intros H Hm st a E. apply H. eapply Hm. exact E. Qed.

(** A computation that finishes and returns no value raises an error. *)
Lemma finishes_no_value_raises {A} (m : M W A) :
  finishes m -> ensures (fun _ => False) m -> raises m.
Proof.
  intros Hf He st. destruct (Hf st) as [_ Hn]. specialize (He st). unfold res in *.
  destruct (m st) as [[a|e|] st']; simpl in *.
  - exfalso. eapply He. reflexivity.
  - exists e. reflexivity.
  - exfalso. apply Hn; reflexivity.
Qed.

End Ensures.

Ltac ensures_step :=
  lazymatch goal with
  | |- forall _, _ => intro
  | |- ensures _ (let _ := _ in _) => cbv zeta
  | |- ensures _ (bind _ _) => apply ensures_bind
  | |- ensures _ (tryCatch _ _) => apply ensures_tryCatch
  | |- ensures _ (throw _) => apply ensures_throw
  | |- ensures _ (if ?b then _ else _) => destruct b eqn:?
  | |- ensures _ (match ?x with _ => _ end) => destruct x eqn:?
  end.

(** ** Computations that return a value *)

Section Yields.
Context {W : Type}.

Lemma yields_ret {A} (P : A -> Prop) (a : A) : P a -> yields P (ret (W:=W) a).
Proof. intros H st. exists a. split; [reflexivity | exact H]. Qed.

Lemma yields_bind {A B} (Q : A -> Prop) (P : B -> Prop) (m : M W A)
      (k : A -> M W B) :
  yields Q m -> (forall a, Q a -> yields P (k a)) -> yields P (bind m k).
Proof.
  intros Hm Hk st. destruct (Hm st) as (a & Ea & Ha). unfold bind, res in *.
  destruct (m st) as [[a'|e|] st']; cbn [fst] in Ea; try discriminate.
  injection Ea as ->. apply Hk. exact Ha.
Qed.

Lemma yields_weaken {A} (P Q : A -> Prop) (m : M W A) :
  (forall a, P a -> Q a) -> yields P m -> yields Q m.
Proof.
  intros H Hm st. destruct (Hm st) as (a & Ea & Ha). exists a. auto.
Qed.

Lemma yields_prim {A} (P : A -> Prop) (f : W -> reply A * W) :
  (forall w, exists a, fst (f w) = Done a /\ P a) -> yields P (prim f).
Proof.
  intros H st. destruct (H (world st)) as (a & Ea & Ha). exists a.
  unfold prim, res. destruct (f (world st)) as [[a'|e] w]; cbn [fst] in *;
    try discriminate.
  injection Ea as ->. split; [reflexivity | exact Ha].
Qed.

Lemma yields_peek {A} (P : A -> Prop) (f : W -> A) :
  (forall w, P (f w)) -> yields P (peek f).
Proof. intros H st. exists (f (world st)). split; [reflexivity | apply H]. Qed.

Lemma yields_tryCatch {A} (P : A -> Prop) (m : M W A) (h : string -> M W A) :
  yields P m -> yields P (tryCatch m h).
Proof.
  intros Hm st. destruct (Hm st) as (a & Ea & Ha). exists a.
  unfold tryCatch, res in *.
  destruct (m st) as [[a'|e|] st']; cbn [fst] in *; try discriminate.
  split; assumption.
Qed.

(** A primitive with a default always returns: its own answer, or the
    default. *)
Lemma yields_catchDefault_prim {A} (P : A -> Prop) (f : W -> reply A * W) (d : A) :
  (forall w, P (match fst (f w) with Done a => a | Fail _ => d end)) ->
  yields P (catchDefault (prim f) d).
Proof.
  intros H st. specialize (H (world st)).
  unfold catchDefault, tryCatch, prim, ret, res.
  destruct (f (world st)) as [[a|e] w]; cbn [fst] in *; eexists; split;
    try reflexivity; exact H.
Qed.

(** A loop whose iterations all return and keep an invariant returns, and
    the invariant holds of its variables. *)
Lemma yields_forEach {A S} (I : S -> Prop) (xs : list A)
      (body : A -> S -> M W (ctl S Empty_set)) :
  (forall x s, In x xs -> I s ->
     yields (fun c => match c with
                      | Continue s' | Break s' => I s'
                      | Return r => False
                      end) (body x s)) ->
  forall s, I s -> yields I (forEach xs body s).
Proof.
  intros Hb s Hs. unfold forEach.
  apply yields_bind with (Q := fun r => match r with inl s' => I s' | inr _ => False end).
  - revert s Hs. induction xs as [|x xs IH]; intros s Hs; simpl.
    + apply yields_ret. exact Hs.
    + eapply yields_bind; [apply Hb; [left; reflexivity | exact Hs]|].
      intros [s'|s'|[]] Hc; [|apply yields_ret; exact Hc].
      apply IH; [|exact Hc]. intros y t Hy Ht. apply Hb; [right; exact Hy | exact Ht].
  - intros [s'|[]] H. apply yields_ret. exact H.
Qed.

End Yields.

Section Downloads.
Context {W : Type} (drv : Driver W) (cfg : Config).

Lemma fetchArtifact_nonEmpty songTitle version :
  ensures nonEmpty (DownloadManager.fetchArtifact drv cfg songTitle version).
Proof.
  unfold DownloadManager.fetchArtifact. repeat ensures_step.
  apply ensures_ret. unfold nonEmpty. simpl.
  match goal with H : (_ =? 0)%N = false |- _ => apply N.eqb_neq in H end. lia.
Qed.

Lemma downloadSingleSong_nonEmpty songTitle version songIndex :
  ensures nonEmpty (DownloadManager.downloadSingleSong drv cfg songTitle version songIndex).
Proof.
  unfold DownloadManager.downloadSingleSong. repeat ensures_step.
  apply fetchArtifact_nonEmpty.
Qed.

Lemma fetchArtifact_empty songTitle version :
  variantEmpty drv cfg songTitle version ->
  ensures (fun _ => False) (DownloadManager.fetchArtifact drv cfg songTitle version).
Proof.
  intros H. unfold DownloadManager.fetchArtifact. cbv zeta.
  apply ensures_bind. intros _.
  apply ensures_bind_strong with (Q := fun iso => exists w, iso = isoTime drv w).
  { apply ensures_peek. intros w. exists w. reflexivity. }
  intros iso [w ->].
  repeat (lazymatch goal with
          | |- ensures _ (bind (prim (stat _ _)) _) => fail
          | _ => ensures_step
          end).
  apply ensures_bind_strong with (Q := fun size => size = 0%N).
  - apply ensures_prim. intros w' size E. rewrite (H w w') in E.
    inversion E. reflexivity.
  - intros size ->. simpl. apply ensures_throw.
Qed.

Lemma downloadSingleSong_empty songTitle version songIndex :
  variantEmpty drv cfg songTitle version ->
  ensures (fun _ => False)
          (DownloadManager.downloadSingleSong drv cfg songTitle version songIndex).
Proof.
  intros H. unfold DownloadManager.downloadSingleSong. repeat ensures_step.
  apply fetchArtifact_empty. exact H.
Qed.

Lemma downloadBothSongs_finishes songTitle :
  finishes (DownloadManager.downloadBothSongs drv cfg songTitle).
Proof. finishes_tac. Qed.

End Downloads.

(** *** On a listing whose variants are downloadable *)

Section Downloadable.
Context {W : Type} (drv : Driver W) (cfg : Config).
Hypothesis ready : downloadable drv.

Lemma act_yields a : yields (fun _ => True) (prim (act drv a)).
Proof.
  destruct ready as (Ha & _). apply yields_prim. intros w. exists tt.
  split; [|exact I]. rewrite Ha. reflexivity.
Qed.

Lemma visibleOrFalse_yields l : yields (fun _ => True) (visibleOrFalse drv l).
Proof. apply yields_catchDefault_prim. intros w. exact I. Qed.

Lemma visibleOrFalse_shows l :
  (forall w, fst (probe drv (IsVisible l) w) = Done true) ->
  yields (fun b => b = true) (visibleOrFalse drv l).
Proof. intros H. apply yields_catchDefault_prim. intros w. rewrite H. reflexivity. Qed.

(** [all()] gives one locator for each of the elements counted. *)
Lemma all_yields l (P : nat -> Prop) :
  (forall w n, fst (count drv l w) = Done n -> P n) ->
  yields (fun xs => exists n, P n /\ xs = map (Nth l) (seq 0 n)) (all drv l).
Proof.
  intros H. destruct ready as (_ & Hc & _). unfold all, locatorCount.
  apply yields_bind with (Q := P).
  - apply yields_prim. intros w. destruct (Hc l w) as [n E]. exists n.
    split; [exact E | apply (H w n E)].
  - intros n Hn. apply yields_ret. exists n. split; [exact Hn | reflexivity].
Qed.

(** The rows of the listing are all kept by the visibility filter. *)
Lemma visibleRows_yields (n a : nat) (acc : list Locator) :
  yields (fun r => r = (acc ++ map row (seq a n))%list)
         (forEach (map row (seq a n))
            (fun song (acc : list Locator) =>
               v <- visibleOrFalse drv song ;;
               if v : bool then ret (Continue (acc ++ [song])%list)
               else ret (Continue acc))
            acc).
Proof.
  destruct ready as (_ & _ & _ & Hv & _). unfold forEach.
  apply yields_bind with (Q := fun r => r = inl (acc ++ map row (seq a n))%list).
  2:{ intros r ->. apply yields_ret. reflexivity. }
  revert a acc. induction n as [|n IH]; intros a acc; simpl.
  - apply yields_ret. rewrite app_nil_r. reflexivity.
  - eapply yields_bind.
    + eapply yields_bind; [apply visibleOrFalse_shows; apply Hv|].
      intros v ->. apply yields_ret with (P := fun c => c = Continue (acc ++ [row a])%list).
      reflexivity.
    + intros c ->. eapply yields_weaken; [|apply IH].
      intros r ->. rewrite <- app_assoc. reflexivity.
Qed.

Lemma logClipIds_yields songs :
  yields (fun _ => True) (DownloadManager.logClipIds drv songs).
Proof.
  unfold DownloadManager.logClipIds.
  apply yields_forEach with (I := fun _ : unit => True); [|exact I].
  intros song [] _ _.
  eapply yields_bind; [apply yields_catchDefault_prim with (P := fun _ => True); auto|].
  intros _ _.
  eapply yields_bind; [apply yields_catchDefault_prim with (P := fun _ => True); auto|].
  intros _ _. apply yields_ret. exact I.
Qed.

(** The search among the buttons found by one selector ends with a button
    when one of them is visible. *)
Lemma visibleButton_yields (good : Locator) (btns : list Locator) :
  (forall w, fst (probe drv (IsVisible good) w) = Done true) ->
  In good btns ->
  yields (fun o => exists b, o = Some b)
         (forEach btns
            (fun btn (cur : option Locator) =>
               v <- visibleOrFalse drv btn ;;
               if v : bool then ret (Break (Some btn)) else ret (Continue cur))
            None).
Proof.
  intros Hg. unfold forEach. intros Hin.
  apply yields_bind with (Q := fun r => exists b, r = inl (Some b)).
  2:{ intros r [b ->]. apply yields_ret. eauto. }
  induction btns as [|x xs IH]; [destruct Hin|]. simpl.
  destruct Hin as [->|Hin].
  - eapply yields_bind.
    + eapply yields_bind; [apply visibleOrFalse_shows; exact Hg|].
      intros v ->. apply yields_ret with (P := fun c => c = Break (Some good)).
      reflexivity.
    + intros c ->. apply yields_ret. eauto.
  - eapply yields_bind
      with (Q := fun c => c = Break (Some x) \/ c = Continue None).
    + eapply yields_bind; [apply visibleOrFalse_yields|].
      intros [|] _; apply yields_ret; auto.
    + intros c [->| ->]; [apply yields_ret; eauto | apply IH; exact Hin].
Qed.

Lemma anyButton_yields (btns : list Locator) :
  yields (fun _ => True)
         (forEach btns
            (fun btn (cur : option Locator) =>
               v <- visibleOrFalse drv btn ;;
               if v : bool then ret (Break (Some btn)) else ret (Continue cur))
            None).
Proof.
  apply yields_forEach with (I := fun _ : option Locator => True); [|exact I].
  intros btn cur _ _. eapply yields_bind; [apply visibleOrFalse_yields|].
  intros [|] _; apply yields_ret; exact I.
Qed.

(** The search of the menu button inside row [i] ends with a button. *)
Lemma menuButton_yields (i : nat) :
  yields (fun o => exists b, o = Some b)
         (forEach DownloadManager.menuButtonSelectors
            (fun selector (_ : option Locator) =>
               buttons <- all drv (Within (row i) selector) ;;
               found <-
                 forEach buttons
                   (fun btn (cur : option Locator) =>
                      v <- visibleOrFalse drv btn ;;
                      if v : bool then ret (Break (Some btn)) else ret (Continue cur))
                   None ;;
               match found with
               | Some _ => ret (Break found)
               | None => ret (Continue None)
               end)
            None).
Proof.
  destruct ready as (_ & _ & _ & _ & Hm & _).
  destruct (Hm i) as (sel & j & Hin & Hj & Hv).
  unfold forEach.
  apply yields_bind with (Q := fun r => exists b, r = inl (Some b)).
  2:{ intros r [b ->]. apply yields_ret. eauto. }
  revert Hin. generalize DownloadManager.menuButtonSelectors.
  induction l as [|x xs IH]; intros Hin; [destruct Hin|]. simpl.
  destruct Hin as [->|Hin].
  - eapply yields_bind with (Q := fun c => exists b, c = Break (Some b)).
    + eapply yields_bind; [apply all_yields with (P := fun n => (j < n)%nat); exact Hj|].
      intros buttons (n & Hn & ->).
      eapply yields_bind.
      * apply visibleButton_yields with (good := Nth (Within (row i) sel) j);
          [exact Hv|].
        apply in_map. apply in_seq. lia.
      * intros found [b ->]. apply yields_ret. eauto.
    + intros c [b ->]. apply yields_ret. eauto.
  - eapply yields_bind
      with (Q := fun c => (exists b, c = Break (Some b)) \/ c = Continue None).
    + eapply yields_bind;
        [apply all_yields with (P := fun _ => True); intros; exact I|].
      intros buttons _.
      eapply yields_bind; [apply anyButton_yields|].
      intros [b|] _; apply yields_ret; eauto.
    + intros c [[b ->]| ->]; [apply yields_ret; eauto | apply IH; exact Hin].
Qed.

Lemma fetchArtifact_yields songTitle version :
  yields nonEmpty (DownloadManager.fetchArtifact drv cfg songTitle version).
Proof.
  destruct ready as (_ & _ & _ & _ & _ & Hd & Hs).
  unfold DownloadManager.fetchArtifact. cbv zeta.
  eapply yields_bind; [apply act_yields|]. intros _ _.
  eapply yields_bind; [apply yields_peek with (P := fun _ => True); auto|].
  intros iso _.
  eapply yields_bind; [apply act_yields|]. intros _ _.
  eapply yields_bind; [apply act_yields|]. intros _ _.
  eapply yields_bind; [apply act_yields|]. intros _ _.
  eapply yields_bind; [apply act_yields|]. intros _ _.
  eapply yields_bind; [apply act_yields|]. intros _ _.
  eapply yields_bind with (Q := fun o => exists d, o = Some d).
  { apply yields_tryCatch. unfold DownloadManager.expectDownload.
    eapply yields_bind; [apply act_yields|]. intros _ _.
    apply yields_prim. intros w. destruct (Hd 5000 w) as [d E]. eauto. }
  intros download [d ->].
  eapply yields_bind; [apply act_yields|]. intros _ _.
  eapply yields_bind with (Q := fun size => (0 < size)%N).
  { apply yields_prim. intros w. apply Hs. }
  intros size Hsize.
  assert (E : (size =? 0)%N = false) by (apply N.eqb_neq; lia).
  rewrite E. apply yields_ret. exact Hsize.
Qed.

Lemma downloadSingleSong_yields songTitle version songIndex :
  (songIndex < 2)%nat ->
  yields nonEmpty
         (DownloadManager.downloadSingleSong drv cfg songTitle version songIndex).
Proof.
  intros Hi. destruct ready as (_ & _ & Hrows & Hv & _).
  unfold DownloadManager.downloadSingleSong.
  apply yields_tryCatch.
  eapply yields_bind; [apply act_yields|]. intros _ _.
  eapply yields_bind; [apply act_yields|]. intros _ _.
  eapply yields_bind;
    [apply all_yields with (P := fun n => (2 <= n)%nat); exact Hrows|].
  intros allSongsRaw (n & Hn & ->).
  eapply yields_bind; [apply (visibleRows_yields n 0 [])|].
  intros allSongs ->. cbn [app].
  eapply yields_bind; [apply logClipIds_yields|]. intros _ _.
  assert (E : nth_error (map row (seq 0 n)) songIndex = Some (row songIndex)).
  { rewrite nth_error_map, nth_error_seq.
    destruct (Nat.ltb_spec songIndex n); [reflexivity | lia]. }
  rewrite E.
  eapply yields_bind; [apply visibleOrFalse_shows; apply Hv|].
  intros v ->. cbn [negb].
  eapply yields_bind; [apply yields_ret with (P := fun _ => True); exact I|].
  intros _ _.
  eapply yields_bind; [apply act_yields|]. intros _ _.
  eapply yields_bind; [apply act_yields|]. intros _ _.
  eapply yields_bind; [apply act_yields|]. intros _ _.
  eapply yields_bind; [apply act_yields|]. intros _ _.
  eapply yields_bind; [apply menuButton_yields|].
  intros menuButton [mb ->].
  eapply yields_bind;
    [apply yields_ret with (P := fun o => o = Some mb); reflexivity|].
  intros o ->.
  eapply yields_bind; [apply act_yields|]. intros _ _.
  apply fetchArtifact_yields.
Qed.

Lemma downloadBothSongs_yields songTitle :
  yields (fun r => List.length (DownloadManager.downloads r) = 2%nat
                   /\ DownloadManager.dl_count r = 2%nat
                   /\ Forall nonEmpty (DownloadManager.downloads r))
         (DownloadManager.downloadBothSongs drv cfg songTitle).
Proof.
  unfold DownloadManager.downloadBothSongs. apply yields_tryCatch.
  eapply yields_bind; [apply downloadSingleSong_yields; lia|].
  intros d1 H1. cbv zeta.
  eapply yields_bind; [apply act_yields|]. intros _ _.
  eapply yields_bind; [apply downloadSingleSong_yields; lia|].
  intros d2 H2. apply yields_ret. simpl. repeat split; auto.
Qed.

End Downloadable.


Lemma library_downloadable : downloadable Worlds.library.
Proof.
  split; [|split; [|split; [|split; [|split; [|split]]]]].
  - intros a w. destruct a; reflexivity.
  - intros l w. destruct l; eexists; reflexivity.
  - intros w n E. cbn in E. injection E as <-. lia.
  - intros i w. reflexivity.
  - intros i. exists ("button[aria-label=" ++ q "More Options" ++ "]"), O.
    split; [left; reflexivity | split].
    + intros w n E. cbn in E. injection E as <-. lia.
    + intros w. reflexivity.
  - intros t w. exists 7%nat. reflexivity.
  - intros path w. exists 4096%N. split; [reflexivity | lia].
Qed.

Lemma secondVariant_empty :
  variantEmpty Worlds.librarySecondEmpty Worlds.defaultConfig "Test" 2.
Proof. intros w w'. vm_compute. reflexivity. Qed.


(** ** download-manager.js: what [checkSongStatus] answers on a listing *)

Lemma setWorld_same {W} (st : State W) : setWorld st (world st) = st.
Proof. destruct st; reflexivity. Qed.

(** One step of a run: the first computation of the sequence is replaced by
    its known result. *)
Ltac run_with lemma :=
  repeat (rewrite bind_assoc || rewrite bind_ret); cbv beta iota;
  erewrite bind_Ok by (apply lemma); cbv beta.

Section OnListing.
Import Worlds.
Variable rows : string -> list Entry.
Variable cfg : Config.

Let D : Driver Z := listing rows.

(** What [isVisible().catch(() => false)] answers for a locator. *)
Let vis (l : Locator) : bool :=
  match listingVisible rows l with
  | Done b => b
  | Fail _ => false
  end.

Lemma visibleOrFalse_run l st : visibleOrFalse D l st = (Ok (vis l), st).
Proof.
  unfold visibleOrFalse, catchDefault, tryCatch, isVisible, prim, vis. simpl.
  rewrite setWorld_same. destruct (listingVisible rows l); reflexivity.
Qed.

Lemma textOrEmpty_run l st :
  catchDefault (prim (textContent D l)) EmptyString st = (Ok (listingText rows l), st).
Proof.
  unfold catchDefault, tryCatch, prim. simpl. rewrite setWorld_same. reflexivity.
Qed.

Lemma all_run l st :
  all D l st = (Ok (map (Nth l) (seq 0 (listingCount rows l))), st).
Proof.
  unfold all, locatorCount, bind, prim, ret. simpl. rewrite setWorld_same. reflexivity.
Qed.

Lemma vis_within song e sub :
  entryAt rows song = Some e -> vis (Within song sub) = strictVisible e sub.
Proof.
  intros H. unfold vis, strictVisible. simpl. rewrite H.
  destruct (matches e sub) as [|v [|v' ms]]; reflexivity.
Qed.

Lemma vis_first_within song e sub :
  entryAt rows song = Some e -> vis (First (Within song sub)) = firstVisible e sub.
Proof. intros H. unfold vis, firstVisible. simpl. rewrite H. reflexivity. Qed.

Lemma strict_first e sub : strictVisible e sub = true -> firstVisible e sub = true.
Proof.
  unfold strictVisible, firstVisible, firstOf.
  destruct (matches e sub) as [|v [|v' ms]]; auto; discriminate.
Qed.

(** The search for a loading indicator. *)
Lemma generatingLoop_run song e (inds : list string) st :
  entryAt rows song = Some e ->
  forOf (R:=Empty_set) inds
    (fun indicator (_ : bool) =>
       hasLoading <- visibleOrFalse D (Within song indicator) ;;
       if hasLoading : bool then ret (Break true) else ret (Continue false))
    false st
  = (Ok (inl (existsb (strictVisible e) inds)), st).
Proof.
  intros H. induction inds as [|ind inds IH]; simpl; [reflexivity|].
  run_with visibleOrFalse_run.
  rewrite (vis_within _ ind H).
  destruct (strictVisible e ind); simpl; [reflexivity | exact IH].
Qed.

Lemma isGenerating_run song e st :
  entryAt rows song = Some e ->
  DownloadManager.isGenerating D song st = (Ok (generating e), st).
Proof.
  intros H. unfold DownloadManager.isGenerating, forEach.
  erewrite bind_Ok by (apply generatingLoop_run; exact H). reflexivity.
Qed.

Lemma scanEntry_run song e st :
  entryAt rows song = Some e ->
  DownloadManager.scanEntry D song st = (Ok (qualifies e), st).
Proof.
  intros H. unfold DownloadManager.scanEntry.
  run_with textOrEmpty_run.
  erewrite bind_Ok by (apply isGenerating_run; exact H).
  unfold qualifies. destruct (generating e); simpl; [reflexivity|].
  run_with visibleOrFalse_run.
  run_with visibleOrFalse_run.
  rewrite !(vis_within _ _ H). unfold listingText. rewrite H. reflexivity.
Qed.

Lemma confirmEntry_run song e st :
  entryAt rows song = Some e -> qualifies e = true ->
  DownloadManager.confirmEntry D song st = (Ok true, st).
Proof.
  intros H Hq. unfold DownloadManager.confirmEntry.
  run_with textOrEmpty_run.
  unfold listingText. rewrite H.
  unfold DownloadManager.completionIndicators. simpl.
  unfold qualifies in Hq. apply andb_prop in Hq. destruct Hq as [_ Hq].
  run_with visibleOrFalse_run.
  rewrite (vis_first_within _ _ H).
  destruct (firstVisible e DownloadManager.editButton) eqn:He; simpl; [reflexivity|].
  run_with visibleOrFalse_run.
  rewrite (vis_first_within _ _ H).
  destruct (firstVisible e DownloadManager.publishButton) eqn:Hp; simpl; [reflexivity|].
  destruct (JS.testDuration (entryText e)) eqn:Hd; simpl; [reflexivity|].
  exfalso. unfold hasEdit, hasPublish, hasDuration in Hq. rewrite Hd in Hq.
  rewrite orb_false_r in Hq. apply orb_prop in Hq.
  destruct Hq as [Hq|Hq]; apply strict_first in Hq; congruence.
Qed.

(** The scan of the entries [k], [k+1], ... of the container selector [sel]:
    it stops at the first entry that qualifies. *)
Lemma scanLoop_run sel (es : list Entry) : forall k st,
  (forall j e, nth_error es j = Some e -> nth_error (rows sel) (k + j) = Some e) ->
  exists r,
    forEach (map (Nth (Css sel)) (seq k (List.length es)))
      (fun song (_ : option Locator) =>
         complete <- DownloadManager.scanEntry D song ;;
         if complete : bool then ret (Break (Some song)) else ret (Continue None))
      None st = (Ok r, st)
    /\ match r with
       | Some song => existsb qualifies es = true
                      /\ exists e, entryAt rows song = Some e /\ qualifies e = true
       | None => existsb qualifies es = false
       end.
Proof.
  induction es as [|e es IH]; intros k st Hrows.
  - exists None. split; reflexivity.
  - assert (He : entryAt rows (Nth (Css sel) k) = Some e).
    { simpl. rewrite <- (Nat.add_0_r k). apply Hrows. reflexivity. }
    destruct (qualifies e) eqn:Hq.
    + exists (Some (Nth (Css sel) k)). split.
      * unfold forEach. simpl.
        rewrite ?bind_assoc.
        erewrite bind_Ok by (apply scanEntry_run; exact He).
        rewrite Hq. reflexivity.
      * simpl. rewrite Hq. split; [reflexivity|]. exists e. split; [exact He|exact Hq].
    + destruct (IH (S k) st) as (r & Er & Hr).
      { intros j e' Hj. rewrite Nat.add_succ_comm. apply Hrows. exact Hj. }
      exists r. split.
      * unfold forEach in *. simpl.
        rewrite ?bind_assoc.
        erewrite bind_Ok by (apply scanEntry_run; exact He).
        rewrite Hq. rewrite bind_ret. exact Er.
      * simpl. rewrite Hq. exact Hr.
Qed.

Lemma findContainers_run (sels : list string) : forall st,
  exists ls,
    forEach sels
      (fun selector (_ : list Locator) =>
         songs <- all D (Css selector) ;;
         if (0 <? List.length songs)%nat then ret (Break songs)
         else ret (Continue songs))
      [] st = (Ok ls, st)
    /\ ((ls = [] /\ firstNonEmpty rows sels = [])
        \/ exists sel, rows sel = firstNonEmpty rows sels
                       /\ rows sel <> []
                       /\ ls = map (Nth (Css sel)) (seq 0 (List.length (rows sel)))).
Proof.
  induction sels as [|sel sels IH]; intros st.
  - exists []. split; [reflexivity | left; split; reflexivity].
  - unfold forEach in *. simpl.
    destruct (rows sel) as [|e es] eqn:Hr.
    + destruct (IH st) as (ls & E & Hls). exists ls. split; [|exact Hls].
      rewrite ?bind_assoc. erewrite bind_Ok by apply all_run.
      simpl. rewrite Hr. simpl. rewrite bind_ret. exact E.
    + eexists. split.
      * rewrite ?bind_assoc. erewrite bind_Ok by apply all_run.
        simpl. rewrite Hr. simpl. reflexivity.
      * right. exists sel. rewrite Hr. repeat split. discriminate.
Qed.

Lemma nth_error_firstn_Some {A} (n : nat) (l : list A) : forall j a,
  nth_error (firstn n l) j = Some a -> nth_error l j = Some a.
Proof.
  revert l. induction n as [|n IH]; intros [|x l] [|j] a H; simpl in *;
    try discriminate; auto.
Qed.

Lemma firstn_seq_min (n start len : nat) :
  firstn n (seq start len) = seq start (Nat.min n len).
Proof.
  revert start len. induction n as [|n IH]; intros start [|len]; simpl; auto.
  f_equal. apply IH.
Qed.

Lemma wait_run ms st :
  waitForTimeout D ms st = (Ok tt, setWorld st (world st + ms)).
Proof. reflexivity. Qed.

Lemma takeDebugScreenshot_run name st :
  DownloadManager.takeDebugScreenshot D cfg name st = (Ok tt, st).
Proof.
  unfold DownloadManager.takeDebugScreenshot, tryCatch, bind, peek, ensureDir,
    screenshot, prim. simpl. rewrite !setWorld_same. reflexivity.
Qed.

Lemma debugLoop_run (sels : list string) st :
  forEach sels
    (fun selector (_ : unit) =>
       _ <- locatorCount D (Css selector) ;; ret (Continue tt))
    tt st = (Ok tt, st).
Proof.
  unfold forEach. induction sels as [|sel sels IH]; simpl; [reflexivity|].
  rewrite ?bind_assoc. unfold locatorCount at 1. unfold bind at 1, prim at 1. simpl.
  rewrite setWorld_same. rewrite bind_ret. exact IH.
Qed.

Lemma checkSongStatus_listing songTitle st :
  res (DownloadManager.checkSongStatus D cfg songTitle st)
  = Ok (existsb qualifies (scanned rows)).
Proof.
  unfold DownloadManager.checkSongStatus, tryCatch.
  unfold bind at 1, pageUrl at 1, peek at 1.
  change (JS.includes (url D (world st)) "/me") with true.
  cbv beta iota. simpl negb. cbv iota. rewrite bind_ret. cbv beta.
  erewrite bind_Ok by apply wait_run.
  erewrite bind_Ok by apply takeDebugScreenshot_run.
  set (st1 := setWorld st (world st + 3000)).
  unfold DownloadManager.findContainers.
  destruct (findContainers_run DownloadManager.containerSelectors st1)
    as (ls & E & [[-> Hnone] | (sel & Hsel & Hne & ->)]);
    erewrite bind_Ok by exact E.
  - change (List.length (@nil Locator) =? 0)%nat with true. cbv iota.
    erewrite bind_Ok by apply debugLoop_run.
    unfold scanned. rewrite Hnone. reflexivity.
  - rewrite length_map, length_seq.
    destruct (rows sel) as [|e0 es0] eqn:Hr; [contradiction|].
    change (List.length (e0 :: es0) =? 0)%nat with false. cbv iota.
    rewrite firstn_map, firstn_seq_min.
    assert (Hlen : Nat.min 10 (List.length (e0 :: es0))
                   = List.length (firstn 10 (e0 :: es0))).
    { symmetry. apply length_firstn. }
    rewrite Hlen.
    destruct (scanLoop_run sel (firstn 10 (e0 :: es0)) 0 st1) as (r & Er & Hres).
    { intros j e Hj. simpl. rewrite Hr. eapply nth_error_firstn_Some. exact Hj. }
    erewrite bind_Ok by exact Er.
    unfold scanned. rewrite <- Hsel.
    destruct r as [song|].
    + destruct Hres as (Hex & e & He & Hq).
      rewrite (confirmEntry_run song st1 He Hq). rewrite Hex. reflexivity.
    + rewrite Hres. reflexivity.
Qed.

End OnListing.



(** ** server.js: release of the session, and isolation of failed jobs *)

Lemma quiet_refl {W} (st : State W) : quiet st st.
Proof. unfold quiet. repeat split. exists []. reflexivity. Qed.

Lemma quiet_trans {W} (a b c : State W) : quiet a b -> quiet b c -> quiet a c.
Proof.
  unfold quiet. intros (H1 & H2 & H3 & H4 & l1 & H5) (G1 & G2 & G3 & G4 & l2 & G5).
  repeat split; try congruence.
  exists (l2 ++ l1)%list. rewrite G5, H5. apply app_assoc.
Qed.

Ltac quiet_side :=
  intros; unfold quiet; simpl; repeat split;
  first [exists []; reflexivity | eexists [_]; reflexivity].

Ltac quiet_tac := obeys_tac (@quiet_refl) (@quiet_trans) quiet_side.

Section Quiet.
Context {W : Type} (drv : Driver W) (cfg : Config) (fuel : nat).

Lemma createSong_quiet title lyrics style :
  obeys quiet false (SunoBot.createSong drv cfg fuel title lyrics style).
Proof. quiet_tac. Qed.

Lemma waitForCompletion_quiet title maxWait :
  obeys quiet false (SunoBot.waitForCompletion drv cfg title maxWait).
Proof. quiet_tac. Qed.

Lemma downloadBothSongs_quiet title :
  obeys quiet false (SunoBot.downloadBothSongs drv cfg title).
Proof. quiet_tac. Qed.

Lemma initialize_quiet : obeys quiet false (SunoBot.initialize drv).
Proof. quiet_tac. Qed.

Lemma login_quiet : obeys quiet false (SunoBot.login drv cfg).
Proof. quiet_tac. Qed.

Lemma automateFullProcess_quiet title lyrics style rounds :
  obeys quiet false (SunoBot.automateFullProcess drv cfg fuel title lyrics style rounds).
Proof.
  unfold SunoBot.automateFullProcess.
  repeat first
    [ apply createSong_quiet | apply downloadBothSongs_quiet | apply initialize_quiet
    | apply login_quiet
    | obeys_step (@quiet_refl) (@quiet_trans) quiet_side ].
Qed.

End Quiet.

Lemma calm_refl {W} (st : State W) : calm st st.
Proof. unfold calm. repeat split. exists []. reflexivity. Qed.

Lemma calm_trans {W} (a b c : State W) : calm a b -> calm b c -> calm a c.
Proof.
  unfold calm. intros (H1 & H2 & l1 & H3) (G1 & G2 & l2 & G3).
  repeat split; try congruence.
  exists (l2 ++ l1)%list. rewrite G3, H3. apply app_assoc.
Qed.

Ltac calm_side :=
  intros; unfold calm; simpl; repeat split;
  first [exists []; reflexivity | eexists [_]; reflexivity].

Ltac calm_tac := obeys_tac (@calm_refl) (@calm_trans) calm_side.

Lemma bind_modify {W B} (f : State W -> State W) (k : unit -> M W B) st :
  bind (modify f) k st = k tt (f st).
Proof. reflexivity. Qed.

Lemma bind_getState {W A B} (f : State W -> A) (k : A -> M W B) st :
  bind (getState f) k st = k (f st) st.
Proof. reflexivity. Qed.

Section Release.
Context {W : Type} (drv : Driver W) (cfg : Config) (fuel : nat).

Lemma authClose_calm : obeys calm false (AuthManagerPersistent.close drv).
Proof. calm_tac. Qed.

Lemma automateFullProcess_calm title lyrics style rounds :
  obeys calm false (SunoBot.automateFullProcess drv cfg fuel title lyrics style rounds).
Proof. calm_tac. Qed.

Lemma batchLoop_calm req indices :
  obeys calm false (Server.batchLoop drv cfg fuel req indices).
Proof. calm_tac. Qed.

(** Closing the bot invokes the release hook once, also when closing the
    browser context fails. *)
Lemma close_once st :
  closeCalls (log (final (SunoBot.close drv st))) = S (closeCalls (log st))
  /\ res (SunoBot.close drv st) <> OutOfFuel
  /\ botVar (final (SunoBot.close drv st)) = botVar st.
Proof.
  unfold SunoBot.close, emit. rewrite bind_modify.
  match goal with
  | |- context [bind ?m ?k ?s] =>
      assert (H : obeys calm true (bind m k)) by calm_tac;
      destruct (H s) as ((H1 & H2 & _) & H3)
  end.
  repeat split.
  - rewrite H1. reflexivity.
  - apply H3. reflexivity.
  - rewrite H2. reflexivity.
Qed.

(** A [try]/[finally] whose body does not invoke the hook and whose
    finalizer invokes it exactly once, in the states [I] the body ends in. *)
Lemma tryFinally_close_once {A} (I : State W -> Prop) (m : M W A) (f : M W unit) :
  (forall st, closeCalls (log (final (m st))) = closeCalls (log st)
              /\ (res (m st) <> OutOfFuel -> I (final (m st)))) ->
  (forall s, I s -> closeCalls (log (final (f s))) = S (closeCalls (log s))) ->
  forall st, res (tryFinally m f st) <> OutOfFuel ->
             closeCalls (log (final (tryFinally m f st))) = S (closeCalls (log st)).
Proof.
  intros Hm Hf st. destruct (Hm st) as [Hc HI]. unfold tryFinally, res, final in *.
  destruct (m st) as [[a|e|] s'] eqn:E; simpl in *.
  - intros _. specialize (Hf s' (HI ltac:(discriminate))). rewrite <- Hc.
    destruct (f s') as [[[]|e'|] s'']; simpl in *; exact Hf.
  - intros _. specialize (Hf s' (HI ltac:(discriminate))). rewrite <- Hc.
    destruct (f s') as [[[]|e'|] s'']; simpl in *; exact Hf.
  - intros H. exfalso. apply H. reflexivity.
Qed.

Lemma createSongProcess_releases_once title lyrics style rounds st :
  res (Server.createSongProcess drv cfg fuel title lyrics style rounds st) <> OutOfFuel ->
  closeCalls (log (final (Server.createSongProcess drv cfg fuel title lyrics style
                            rounds st)))
  = S (closeCalls (log st)).
Proof.
  unfold Server.createSongProcess, SunoBot.newBot, setAuthManager, setContext,
    setCurrentBot.
  rewrite bind_assoc, !bind_modify.
  match goal with
  | |- res (tryFinally ?m ?f ?s) <> _ -> _ =>
      intros H;
      rewrite (@tryFinally_close_once _ (fun _ => True) m f); [reflexivity | | | exact H]
  end.
  - intros s. split; [|intros _; exact I].
    match goal with
    | |- context [final (?m s)] =>
        assert (Hm : obeys calm false m)
    end.
    { apply obeys_tryCatch; try solve [intros; first [apply calm_refl
                                                    | eapply calm_trans; eassumption]].
      - apply obeys_bind; try solve [intros; eapply calm_trans; eassumption].
        + apply automateFullProcess_calm.
        + intros r. calm_tac.
      - intros e. calm_tac. }
    destruct (Hm s) as ((H1 & _) & _). exact H1.
  - intros s _.
    rewrite ?bind_assoc.
    destruct (close_once s) as (H1 & H2 & _). unfold final, res, bind in *.
    destruct (SunoBot.close drv s) as [[[]|e|] s']; simpl in *; exact H1.
Qed.

Lemma tryCatch_bind_modify {B} (f : State W -> State W) (k : unit -> M W B)
      (h : string -> M W B) st :
  tryCatch (bind (modify f) k) h st = tryCatch (k tt) h (f st).
Proof. reflexivity. Qed.

Lemma tryCatch_assoc {A B C} (m : M W A) (f : A -> M W B) (g : B -> M W C)
      (h : string -> M W C) st :
  tryCatch (bind (bind m f) g) h st = tryCatch (bind m (fun x => bind (f x) g)) h st.
Proof. unfold tryCatch. rewrite bind_assoc. reflexivity. Qed.

(** The body of the batch leaves the closure's variable [bot] set and does
    not invoke the hook. *)
Lemma batchBody_calm req st :
  let body :=
    tryCatch
      (Server.batchSetup drv cfg ;;
       Server.batchLoop drv cfg fuel req (Server.indices (Server.songsCount req)))
      (fun e =>
         Server.broadcastStatus
           (Status "batch_error" [("message", VStr (Server.batchFailed e))])) in
  closeCalls (log (final (body st))) = closeCalls (log st)
  /\ botVar (final (body st)) = true.
Proof.
  cbv zeta.
  unfold Server.batchSetup, SunoBot.newBot, setAuthManager, setContext, setBotVar,
    setCurrentBot.
  repeat (first [rewrite tryCatch_assoc | rewrite tryCatch_bind_modify]; cbv beta).
  match goal with
  | |- context [final (tryCatch ?m ?h ?s)] =>
      assert (Hm : obeys calm false (tryCatch m h)) by calm_tac;
      destruct (Hm s) as ((H1 & H2 & _) & _)
  end.
  split; [exact H1 | exact H2].
Qed.

Lemma batchFinally_once req s :
  botVar s = true ->
  closeCalls (log (final (Server.batchFinally drv req s))) = S (closeCalls (log s)).
Proof.
  intros Hb. unfold Server.batchFinally. rewrite bind_getState, Hb.
  rewrite ?bind_assoc.
  destruct (close_once s) as (H1 & H2 & _). unfold final, res in *.
  unfold bind at 1.
  destruct (SunoBot.close drv s) as [[[]|e|] s'] eqn:E; simpl in *; exact H1.
Qed.

Lemma batchProcess_releases_once req st :
  res (Server.batchProcess drv cfg fuel req st) <> OutOfFuel ->
  closeCalls (log (final (Server.batchProcess drv cfg fuel req st)))
  = S (closeCalls (log st)).
Proof.
  unfold Server.batchProcess, Server.batchLocals, setSuccessCount, setFailCount,
    setBotVar.
  repeat (first [rewrite bind_assoc | rewrite bind_modify]; cbv beta).
  match goal with
  | |- res (tryFinally ?m ?f ?s) <> _ -> _ =>
      intros H;
      rewrite (@tryFinally_close_once _ (fun x => botVar x = true) m f);
        [reflexivity | | | exact H]
  end.
  - intros s. destruct (batchBody_calm req s) as [H1 H2]. split; [exact H1|].
    intros _. exact H2.
  - intros s Hs. apply batchFinally_once. exact Hs.
Qed.

End Release.

(** C4. On every exit path of a single-job run and of a batch run, normal
    or by an error raised at any step, the session-release hook [bot.close] is
    invoked exactly once. *)
Theorem session_released_exactly_once {W} (drv : Driver W) (cfg : Config) (fuel : nat)
        (st : State W) :
  (forall title lyrics style rounds,
      res (Server.createSongProcess drv cfg fuel title lyrics style rounds st)
      <> OutOfFuel ->
      closeCalls (log (final (Server.createSongProcess drv cfg fuel title lyrics style
                                rounds st)))
      = S (closeCalls (log st)))
  /\ (forall req,
        res (Server.batchProcess drv cfg fuel req st) <> OutOfFuel ->
        closeCalls (log (final (Server.batchProcess drv cfg fuel req st)))
        = S (closeCalls (log st))).
Proof.
  split.
  - intros. apply createSongProcess_releases_once. assumption.
  - intros. apply batchProcess_releases_once. assumption.
Qed.

Lemma session_released_exactly_once_witness :
  closeCalls (log (final (Server.createSongProcess Worlds.idle Worlds.defaultConfig 5
                            "Test" EmptyString "ambient, slow" 1 (initState 0)))) = 1%nat
  /\ closeCalls (log (final (Server.batchProcess (Worlds.flaky 3) Worlds.defaultConfig 5
                               Worlds.threeSongs (initState (0, O))))) = 1%nat.
Proof.
  split.
  - apply (proj1 (session_released_exactly_once Worlds.idle Worlds.defaultConfig 5
                    (initState 0))).
    vm_compute. discriminate.
  - apply (proj2 (session_released_exactly_once (Worlds.flaky 3) Worlds.defaultConfig 5
                    (initState (0, O)))).
    vm_compute. discriminate.
Defined.

(** *** Failure isolation in the batch loop *)

Lemma keepsCounts_refl {W} (st : State W) : keepsCounts st st.
Proof. repeat split. exists []. reflexivity. Qed.

Lemma keepsCounts_trans {W} (a b c : State W) :
  keepsCounts a b -> keepsCounts b c -> keepsCounts a c.
Proof.
  unfold keepsCounts. intros (H1 & H2 & l1 & H3) (G1 & G2 & l2 & G3).
  repeat split; try congruence.
  exists (l2 ++ l1)%list. rewrite G3, H3. apply app_assoc.
Qed.

Ltac counts_side :=
  intros; unfold keepsCounts; simpl; repeat split;
  first [exists []; reflexivity | eexists [_]; reflexivity].

Ltac counts_tac := obeys_tac (@keepsCounts_refl) (@keepsCounts_trans) counts_side.

Section Batch.
Context {W : Type} (drv : Driver W) (cfg : Config) (fuel : nat).
Variable req : Server.BatchRequest.
Variable N : nat.

Let C : Server.Count := Server.songsCount req.

Lemma choosePreset_quiet : obeys quiet false (Server.choosePreset drv req).
Proof. quiet_tac. Qed.

Lemma runJob_quiet title lyrics style :
  obeys quiet false (Server.runJob drv cfg fuel title lyrics style).
Proof. quiet_tac. Qed.

Lemma close_keepsCounts : obeys keepsCounts false (SunoBot.close drv).
Proof. counts_tac. Qed.

Lemma setupRest_quiet :
  obeys quiet false (_ <- SunoBot.initialize drv ;; _ <- SunoBot.login drv cfg ;; ret tt).
Proof. quiet_tac. Qed.

(** What is known after the prolog of an iteration: the progress event is
    the newest event. *)
Lemma jobProlog_inv i st p s :
  Server.jobProlog drv req i st = (Ok p, s) ->
  successCount s = successCount st /\ failCount s = failCount st
  /\ botVar s = botVar st
  /\ exists l, log s = (Server.batchProgress (i + 1) C (Server.preset_name p)
                          (Server.randomStylePresets req) :: l ++ log st)%list.
Proof.
  unfold Server.jobProlog, Server.broadcastStatus, emit.
  destruct (choosePreset_quiet st) as ((_ & H2 & H3 & H4 & l & H5) & _).
  unfold bind, final in *.
  destruct (Server.choosePreset drv req st) as [[p'|e|] s'] eqn:E; simpl in *;
    try discriminate.
  unfold modify, ret. intros H. inversion H. subst. simpl.
  repeat split; auto. exists l. rewrite H5. reflexivity.
Qed.

(** An iteration that succeeds counts one success. *)
Lemma batchIteration_Ok i st s :
  Server.batchIteration drv cfg fuel req i st = (Ok tt, s) ->
  successCount s = S (successCount st) /\ failCount s = failCount st
  /\ botVar s = botVar st
  /\ (exists l, log s = (l ++ log st)%list)
  /\ exists name mode, In (Server.batchProgress (i + 1) C name mode) (log s).
Proof.
  unfold Server.batchIteration. cbv zeta.
  unfold bind at 1.
  destruct (Server.jobProlog drv req i st) as [[p|e|] s1] eqn:E1; simpl;
    try discriminate.
  destruct (jobProlog_inv _ _ E1) as (A1 & A2 & A3 & l1 & A4).
  unfold bind at 1.
  destruct (runJob_quiet (Server.songTitleOf (Server.preset_name p) i)
              (Server.lyrics req) (Server.preset_style p) s1)
    as ((_ & B2 & B3 & B4 & l2 & B5) & _).
  unfold final in *.
  destruct (Server.runJob drv cfg fuel _ _ _ s1) as [[[]|e|] s2] eqn:E2; simpl in *;
    try discriminate.
  rewrite bind_getState. unfold setSuccessCount. rewrite bind_modify.
  destruct (Server.beforeLast i (Server.songsCount req)); simpl; intros H; inversion H; subst;
    simpl; (split; [lia | split; [congruence | split; [congruence|]]]);
    rewrite B5, A4; split.
  - eexists (_ :: l2 ++ _ :: l1)%list. simpl. rewrite <- app_assoc. reflexivity.
  - eexists _, _. right. apply in_or_app. right. left. reflexivity.
  - eexists (l2 ++ _ :: l1)%list. rewrite <- app_assoc. reflexivity.
  - eexists _, _. apply in_or_app. right. left. reflexivity.
Qed.

Lemma batchStep_Ok i st s :
  Server.batchIteration drv cfg fuel req i st = (Ok tt, s) ->
  Server.batchStep drv cfg fuel req i st = (Ok tt, s).
Proof. intros H. unfold Server.batchStep. apply tryCatch_Ok. exact H. Qed.

(** An iteration whose creation step raises is caught and counted as one
    failure. *)
Lemma batchStep_failed i st p s1 e :
  Server.jobProlog drv req i st = (Ok p, s1) ->
  res (SunoBot.createSong drv cfg fuel (Server.songTitleOf (Server.preset_name p) i)
         (Server.lyrics req) (Server.preset_style p) s1) = Throw e ->
  exists s,
    Server.batchStep drv cfg fuel req i st = (Ok tt, s)
    /\ successCount s = successCount st /\ failCount s = S (failCount st)
    /\ botVar s = botVar st
    /\ (exists l, log s = (l ++ log st)%list)
    /\ exists name mode, In (Server.batchProgress (i + 1) C name mode) (log s).
Proof.
  intros E1 E2.
  destruct (jobProlog_inv _ _ E1) as (A1 & A2 & A3 & l1 & A4).
  destruct (createSong_quiet drv cfg fuel
              (Server.songTitleOf (Server.preset_name p) i)
              (Server.lyrics req) (Server.preset_style p) s1)
    as ((_ & B2 & B3 & B4 & l2 & B5) & _).
  unfold res, final in *.
  destruct (SunoBot.createSong drv cfg fuel _ _ _ s1) as [[r|e'|] s2] eqn:E3;
    simpl in *; try discriminate.
  inversion E2; subst e'.
  eexists. split.
  - unfold Server.batchStep, Server.batchIteration. cbv zeta.
    erewrite tryCatch_Throw.
    2:{ erewrite bind_Ok by exact E1. unfold Server.runJob.
        rewrite ?bind_assoc. erewrite bind_Throw by exact E3. reflexivity. }
    rewrite bind_getState. unfold setFailCount. rewrite bind_modify.
    reflexivity.
  - simpl. split; [congruence|]. split; [rewrite B3, A2; lia|].
    split; [congruence|]. rewrite B5, A4. split.
    + eexists (_ :: l2 ++ _ :: l1)%list. simpl. rewrite <- app_assoc. reflexivity.
    + eexists _, _. right. apply in_or_app. right. left. reflexivity.
Qed.

Lemma batchLoop_app (xs ys : list nat) : forall st,
  Server.batchLoop drv cfg fuel req (xs ++ ys) st
  = bind (Server.batchLoop drv cfg fuel req xs)
         (fun _ => Server.batchLoop drv cfg fuel req ys) st.
Proof.
  unfold Server.batchLoop, forEach.
  induction xs as [|x xs IH]; intros st; simpl; [reflexivity|].
  unfold bind in *.
  destruct (Server.batchStep drv cfg fuel req x st) as [[[]|e|] st']; simpl;
    [apply IH | reflexivity | reflexivity].
Qed.

Lemma batchLoop_single i st :
  Server.batchLoop drv cfg fuel req [i] st
  = bind (Server.batchStep drv cfg fuel req i) (fun _ => ret tt) st.
Proof.
  unfold Server.batchLoop, forEach. simpl. unfold bind.
  destruct (Server.batchStep drv cfg fuel req i st) as [[[]|e|] st']; reflexivity.
Qed.

Lemma batchLoop_snoc (xs : list nat) i st s1 s2 :
  Server.batchLoop drv cfg fuel req xs st = (Ok tt, s1) ->
  Server.batchStep drv cfg fuel req i s1 = (Ok tt, s2) ->
  Server.batchLoop drv cfg fuel req (xs ++ [i]) st = (Ok tt, s2).
Proof.
  intros H1 H2. rewrite batchLoop_app. erewrite bind_Ok by exact H1.
  rewrite batchLoop_single. erewrite bind_Ok by exact H2. reflexivity.
Qed.

(** The hypotheses of the scenario: every job but [k] succeeds, job [k]
    raises in its creation step. *)
Variable s0 : State W.
Variable k : nat.

Let before (i : nat) : State W := stateBefore drv cfg fuel req s0 i.

Hypothesis others_succeed :
  forall i, (i < N)%nat -> i <> k ->
            res (Server.batchIteration drv cfg fuel req i (before i)) = Ok tt.

Hypothesis creation_fails :
  exists p s e,
    Server.jobProlog drv req k (before k) = (Ok p, s)
    /\ res (SunoBot.createSong drv cfg fuel
              (Server.songTitleOf (Server.preset_name p) k)
              (Server.lyrics req) (Server.preset_style p) s) = Throw e.

Lemma batchLoop_invariant (n : nat) :
  (n <= N)%nat ->
  Server.batchLoop drv cfg fuel req (seq 0 n) s0 = (Ok tt, before n)
  /\ (successCount (before n) + (if (k <? n)%nat then 1 else 0)
      = successCount s0 + n)%nat
  /\ (failCount (before n) = failCount s0 + (if (k <? n)%nat then 1 else 0))%nat
  /\ botVar (before n) = botVar s0
  /\ (forall i, (i < n)%nat ->
                exists name mode,
                  In (Server.batchProgress (i + 1) C name mode) (log (before n))).
Proof.
  induction n as [|n IH]; intros Hn.
  - unfold before, stateBefore. simpl. repeat split; try lia.
  - destruct IH as (E & Hs & Hf & Hb & Hp); [lia|].
    assert (Hstep : exists s,
               Server.batchStep drv cfg fuel req n (before n) = (Ok tt, s)
               /\ (successCount s + (if (k <? S n)%nat then 1 else 0)
                   = successCount s0 + S n)%nat
               /\ (failCount s
                   = failCount s0 + (if (k <? S n)%nat then 1 else 0))%nat
               /\ botVar s = botVar s0
               /\ (exists l, log s = (l ++ log (before n))%list)
               /\ exists name mode,
                    In (Server.batchProgress (n + 1) C name mode) (log s)).
    { destruct (Nat.eq_dec n k) as [->|Hne].
      - destruct creation_fails as (p & s & e & E1 & E2).
        destruct (batchStep_failed _ _ E1 E2) as (s' & G1 & G2 & G3 & G4 & G5 & G6).
        exists s'. split; [exact G1|].
        assert (Hk1 : (k <? k)%nat = false) by (apply Nat.ltb_ge; lia).
        assert (Hk2 : (k <? S k)%nat = true) by (apply Nat.ltb_lt; lia).
        rewrite Hk1 in *. rewrite Hk2.
        repeat split; try lia; try congruence; assumption.
      - pose proof (others_succeed (i:=n) ltac:(lia) Hne) as Hok.
        unfold res in Hok.
        destruct (Server.batchIteration drv cfg fuel req n (before n))
          as [r s'] eqn:E1.
        simpl in Hok. subst r.
        destruct (batchIteration_Ok _ _ E1) as (G2 & G3 & G4 & G5 & G6).
        exists s'. split; [apply batchStep_Ok; exact E1|].
        assert (Hk : (k <? S n)%nat = (k <? n)%nat).
        { destruct (k <? n)%nat eqn:Hlt.
          - apply Nat.ltb_lt in Hlt. apply Nat.ltb_lt. lia.
          - apply Nat.ltb_ge in Hlt. apply Nat.ltb_ge. lia. }
        rewrite Hk.
        repeat split; try lia; try congruence; assumption. }
    destruct Hstep as (s & G1 & G2 & G3 & G4 & (l & G5) & G6).
    assert (Eloop : Server.batchLoop drv cfg fuel req (seq 0 (S n)) s0 = (Ok tt, s)).
    { rewrite seq_S. simpl. eapply batchLoop_snoc; [exact E | exact G1]. }
    assert (Hbefore : before (S n) = s).
    { unfold before, stateBefore. rewrite Eloop. reflexivity. }
    rewrite Hbefore.
    repeat split; try assumption.
    intros i Hi. destruct (Nat.eq_dec i n) as [->|Hne]; [exact G6|].
    destruct (Hp i ltac:(lia)) as (name & mode & Hin).
    exists name, mode. rewrite G5. apply in_or_app. right. exact Hin.
Qed.

End Batch.

Section BatchRun.
Context {W : Type} (drv : Driver W) (cfg : Config) (fuel : nat).

(** The state after the declarations of the closure's variables. *)
Let locals (st : State W) : State W := final (Server.batchLocals (W:=W) st).

Lemma batchLocals_run (st : State W) : Server.batchLocals st = (Ok tt, locals st).
Proof. reflexivity. Qed.

Lemma batchEntry_inv st s0 :
  batchEntry drv cfg st = (Ok tt, s0) ->
  Server.batchSetup drv cfg (locals st) = (Ok tt, s0)
  /\ successCount s0 = O /\ failCount s0 = O /\ botVar s0 = true.
Proof.
  unfold batchEntry. erewrite bind_Ok by apply batchLocals_run.
  intros H. split; [exact H|]. revert H.
  unfold Server.batchSetup, SunoBot.newBot, setAuthManager, setContext, setBotVar,
    setCurrentBot.
  repeat (first [rewrite bind_assoc | rewrite bind_modify]; cbv beta).
  match goal with
  | |- ?m ?s = _ -> _ =>
      destruct (setupRest_quiet drv cfg s) as ((_ & H2 & H3 & H4 & _) & _);
      intros H; unfold final in *; rewrite H in *; simpl in *
  end.
  repeat split; assumption.
Qed.

Lemma close_Ok (st : State W) :
  (forall w, fst (act drv CloseContext w) = Done tt) ->
  exists s, SunoBot.close drv st = (Ok tt, s)
            /\ successCount s = successCount st /\ failCount s = failCount st
            /\ exists l, log s = (l ++ log st)%list.
Proof.
  intros Hc.
  destruct (close_keepsCounts drv st) as ((H1 & H2 & H3) & _). unfold final in *.
  assert (Hres : res (SunoBot.close drv st) = Ok tt).
  { unfold SunoBot.close, emit. rewrite bind_modify, bind_getState. simpl.
    destruct (authManager st); [|reflexivity].
    unfold AuthManagerPersistent.close. rewrite bind_getState. simpl.
    destruct (context st); [|reflexivity].
    unfold prim, res. simpl.
    specialize (Hc (world st)).
    destruct (act drv CloseContext (world st)) as [[[]|e] w]; simpl in *;
      [reflexivity | discriminate]. }
  unfold res in Hres.
  destruct (SunoBot.close drv st) as [r s]. simpl in *. subst r.
  exists s. repeat split; assumption.
Qed.

End BatchRun.

Lemma run_eta {W A} (x : outcome A * State W) (o : outcome A) :
  res x = o -> x = (o, final x).
Proof.
  destruct x as [o' s]. unfold res, final. cbn [fst snd]. intros ->. reflexivity.
Qed.

(** C3. In a batch of [N] jobs whose browser starts and whose login is
    done, when job [k] raises in its creation step and every other job
    succeeds, the run ends normally, its last event is the batch-complete
    status with [N - 1] successes and one failure, and every job of the batch
    was started, those after [k] included. *)
Theorem batch_isolates_failed_job {W} (drv : Driver W) (cfg : Config) (fuel : nat)
        (req : Server.BatchRequest) (st : State W) (N k : nat) :
  let s0 := final (batchEntry drv cfg st) in
  Server.songsCount req = Server.Num N ->
  (k < N)%nat ->
  res (batchEntry drv cfg st) = Ok tt ->
  (forall i, (i < N)%nat -> i <> k ->
             res (Server.batchIteration drv cfg fuel req i
                    (stateBefore drv cfg fuel req s0 i)) = Ok tt) ->
  (exists p s e,
      Server.jobProlog drv req k (stateBefore drv cfg fuel req s0 k) = (Ok p, s)
      /\ res (SunoBot.createSong drv cfg fuel
                (Server.songTitleOf (Server.preset_name p) k)
                (Server.lyrics req) (Server.preset_style p) s) = Throw e) ->
  (forall w, fst (act drv CloseContext w) = Done tt) ->
  let r := Server.batchProcess drv cfg fuel req st in
  res r = Ok tt
  /\ hd_error (log (final r)) = Some (Server.batchComplete (Server.Num N) (N - 1) 1)
  /\ forall i, (i < N)%nat ->
               exists name mode,
                 In (Server.batchProgress (i + 1) (Server.Num N) name mode)
                    (log (final r)).
Proof.
  intros s0 HN Hk Hentry Hothers Hfail Hclose r.
  pose proof (run_eta _ Hentry) as Eentry.
  change (final (batchEntry drv cfg st)) with s0 in Eentry.
  destruct (batchEntry_inv _ _ _ Eentry) as (Esetup & Hs0 & Hf0 & Hb0).
  destruct (@batchLoop_invariant _ drv cfg fuel req N s0 k Hothers Hfail N (le_n N))
    as (Eloop & Hs & Hf & Hb & Hp).
  assert (Hlt : (k <? N)%nat = true) by (apply Nat.ltb_lt; exact Hk).
  rewrite Hlt in *.
  set (sN := stateBefore drv cfg fuel req s0 N) in *.
  destruct (close_Ok drv sN Hclose) as (sc & Ec & Hcs & Hcf & lc & Hcl).
  assert (Erun : r = (Ok tt,
                      final (Server.batchFinally drv req sN))
                 /\ Server.batchFinally drv req sN
                    = (Ok tt, final (Server.batchFinally drv req sN))
                 /\ log (final (Server.batchFinally drv req sN))
                    = Server.batchComplete (Server.Num N) (successCount sN)
                        (failCount sN) :: log sc).
  { assert (Efin : Server.batchFinally drv req sN
                   = (Ok tt, final (Server.batchFinally drv req sN))
                   /\ log (final (Server.batchFinally drv req sN))
                      = Server.batchComplete (Server.Num N) (successCount sN)
                          (failCount sN) :: log sc).
    { unfold Server.batchFinally. rewrite bind_getState. rewrite Hb, Hb0.
      rewrite ?bind_assoc. erewrite bind_Ok by exact Ec.
      unfold setCurrentBot, setIsProcessing, Server.broadcastStatus, emit.
      rewrite !bind_modify, !bind_getState. simpl.
      rewrite Hcs, Hcf, HN. split; reflexivity. }
    destruct Efin as [Efin1 Efin2]. split; [|split; assumption].
    unfold r, Server.batchProcess.
    erewrite bind_Ok by apply batchLocals_run.
    unfold tryFinally.
    erewrite tryCatch_Ok.
    2:{ erewrite bind_Ok by exact Esetup. rewrite HN. exact Eloop. }
    rewrite Efin1. reflexivity. }
  destruct Erun as (Er & _ & Elog).
  set (sF := final (Server.batchFinally drv req sN)) in *. clearbody sF.
  clearbody r. subst r. unfold res, final. cbn [fst snd]. repeat split.
  - rewrite Elog. cbn [hd_error]. f_equal. f_equal; lia.
  - intros i Hi. destruct (Hp i Hi) as (name & mode & Hin).
    exists name, mode. rewrite Elog, Hcl. right. apply in_or_app. right.
    rewrite <- HN. exact Hin.
Qed.

Lemma batch_isolates_failed_job_witness :
  res (Server.batchProcess (Worlds.flaky 3) Worlds.defaultConfig 5 Worlds.threeSongs
         (initState (0%Z, O))) = Ok tt
  /\ hd_error (log (final (Server.batchProcess (Worlds.flaky 3) Worlds.defaultConfig 5
                             Worlds.threeSongs (initState (0%Z, O)))))
     = Some (Server.batchComplete (Server.Num 3) 2 1)
  /\ forall i, (i < 3)%nat ->
               exists name mode,
                 In (Server.batchProgress (i + 1) (Server.Num 3) name mode)
                    (log (final (Server.batchProcess (Worlds.flaky 3)
                                   Worlds.defaultConfig 5 Worlds.threeSongs
                                   (initState (0%Z, O))))).
Proof.
  apply (@batch_isolates_failed_job _ (Worlds.flaky 3) Worlds.defaultConfig 5
           Worlds.threeSongs (initState (0%Z, O)) 3 1).
  - reflexivity.
  - lia.
  - vm_compute. reflexivity.
  - intros i Hi Hne. simpl in Hi.
    destruct i as [|[|[|i]]]; [vm_compute; reflexivity | contradiction
                              | vm_compute; reflexivity | lia].
  - eexists _, _, _. split; [vm_compute; reflexivity | vm_compute; reflexivity].
  - intros w. reflexivity.
Defined.
(** ** download-manager.js, suno-bot.js: waiting for a song to complete *)

Section EnsuresLoops.
Context {W : Type}.

(** A loop keeps an invariant of its variables when every iteration does;
    a value returned from inside it satisfies what the iterations promise. *)
Lemma ensures_forOf {A S Ret} (I : S -> Prop) (Q : Ret -> Prop) (xs : list A)
      (body : A -> S -> M W (ctl S Ret)) :
  (forall x s, In x xs -> I s ->
     ensures (fun c => match c with
                       | Continue s' | Break s' => I s'
                       | Return r => Q r
                       end) (body x s)) ->
  forall s, I s ->
    ensures (fun r => match r with inl s' => I s' | inr r => Q r end)
            (forOf xs body s).
Proof.
  induction xs as [|x xs IH]; intros Hb s Hs; simpl.
  - apply ensures_ret. exact Hs.
  - eapply ensures_bind_strong.
    + apply Hb; [left; reflexivity | exact Hs].
    + intros [s'|s'|r] Hc; [|apply ensures_ret; exact Hc|apply ensures_ret; exact Hc].
      apply IH; [|exact Hc]. intros y t Hy Ht. apply Hb; [right; exact Hy | exact Ht].
Qed.

Lemma ensures_forEach {A S} (I : S -> Prop) (xs : list A)
      (body : A -> S -> M W (ctl S Empty_set)) :
  (forall x s, In x xs -> I s ->
     ensures (fun c => match c with
                       | Continue s' | Break s' => I s'
                       | Return r => False
                       end) (body x s)) ->
  forall s, I s -> ensures I (forEach xs body s).
Proof.
  intros Hb s Hs. unfold forEach.
  eapply ensures_bind_strong.
  - apply (@ensures_forOf A S Empty_set I (fun _ => False) xs body Hb s Hs).
  - intros [s'|[]] H. apply ensures_ret. exact H.
Qed.

(** A [while] loop returns from inside only what its body returns. *)
Lemma ensures_while {S Ret} (Q : Ret -> Prop) (cond : S -> M W bool)
      (body : S -> M W (ctl S Ret)) :
  (forall s, ensures (fun c => match c with Return r => Q r | _ => True end)
                     (body s)) ->
  forall fuel s,
    ensures (fun r => match r with inr r => Q r | inl _ => True end)
            (while fuel cond body s).
Proof.
  intros Hb. induction fuel as [|n IH]; intros s; simpl.
  - intros st a E. discriminate E.
  - apply ensures_bind. intros [|]; [|apply ensures_ret; exact I].
    eapply ensures_bind_strong; [apply Hb|].
    intros [s'|s'|r] Hc; [apply IH | apply ensures_ret; exact I
                          | apply ensures_ret; exact Hc].
Qed.

Lemma while_S {S Ret} n (cond : S -> M W bool) (body : S -> M W (ctl S Ret)) s :
  while (Datatypes.S n) cond body s
  = bind (cond s) (fun c =>
      if c : bool then
        bind (body s) (fun r =>
          match r with
          | Continue s' => while n cond body s'
          | Break s' => ret (inl s')
          | Return r => ret (inr r)
          end)
      else ret (inl s)).
Proof. reflexivity. Qed.

(** What a computation that always returns does on one state, with the
    promise on its value and the relation it obeys. *)
Lemma runs_to {A} (R : State W -> State W -> Prop) (P : A -> Prop) (m : M W A) st :
  total_ m -> ensures P m -> obeys R false m ->
  exists a st', m st = (Ok a, st') /\ P a /\ R st st'.
Proof.
  intros Ht He Ho. destruct (Ht st) as [a Ha]. destruct (Ho st) as [HR _].
  exists a, (final (m st)). split; [apply run_eta; exact Ha | split].
  - eapply He. exact Ha.
  - exact HR.
Qed.

End EnsuresLoops.

Section GeneratingListing.
Context {W : Type} (drv : Driver W) (cfg : Config).
Hypothesis generating : permanentlyGenerating drv.

Lemma visibleOrFalse_shown l :
  (forall w, fst (probe drv (IsVisible l) w) = Done true) ->
  ensures (fun b => b = true) (visibleOrFalse drv l).
Proof.
  intros H st b. unfold visibleOrFalse, catchDefault, tryCatch, isVisible, prim, res.
  specialize (H (world st)).
  destruct (probe drv (IsVisible l) (world st)) as [[v|e] w]; simpl in *.
  - intros E. inversion E. congruence.
  - discriminate H.
Qed.

Lemma isGenerating_shown song :
  ensures (fun b => b = true) (DownloadManager.isGenerating drv song).
Proof.
  destruct (generating song) as (sel & Hin & Hsel).
  unfold DownloadManager.isGenerating, forEach.
  eapply ensures_bind_strong with (Q := fun r => r = inl true).
  2:{ intros r ->. apply ensures_ret. reflexivity. }
  match goal with |- ensures _ (forOf _ ?b _) => set (body := b) end.
  generalize false. revert Hin. generalize DownloadManager.loadingIndicators.
  induction l as [|x xs IH]; intros Hin s; [destruct Hin|].
  simpl forOf. unfold body at 1. destruct (string_dec x sel) as [->|Hne].
  - eapply ensures_bind_strong with (Q := fun c => c = Break true).
    + eapply ensures_bind_strong; [apply visibleOrFalse_shown; apply Hsel|].
      intros b ->. apply ensures_ret. reflexivity.
    + intros c ->. apply ensures_ret. reflexivity.
  - eapply ensures_bind_strong
      with (Q := fun c => c = Break true \/ c = Continue false).
    + apply ensures_bind. intros [|]; apply ensures_ret; auto.
    + intros c [->| ->]; [apply ensures_ret; reflexivity|].
      apply IH. destruct Hin as [Hx|Hin]; [contradiction | exact Hin].
Qed.

Lemma scanEntry_generating song :
  ensures (fun b => b = false) (DownloadManager.scanEntry drv song).
Proof.
  unfold DownloadManager.scanEntry. apply ensures_bind. intros songText.
  eapply ensures_bind_strong; [apply isGenerating_shown|].
  intros g ->. cbv beta iota delta [negb]. apply ensures_ret. reflexivity.
Qed.

Lemma checkSongStatus_generating title :
  ensures (fun b => b = false) (DownloadManager.checkSongStatus drv cfg title).
Proof.
  unfold DownloadManager.checkSongStatus.
  apply ensures_tryCatch; [|intros; apply ensures_ret; reflexivity].
  apply ensures_bind; intros currentUrl.
  apply ensures_bind; intros _. apply ensures_bind; intros _.
  apply ensures_bind; intros _. apply ensures_bind; intros allSongs.
  destruct (List.length allSongs =? 0)%nat.
  - apply ensures_bind; intros _. apply ensures_ret; reflexivity.
  - eapply ensures_bind_strong with (Q := fun o => o = None).
    + apply ensures_forEach with (I := fun o : option Locator => o = None);
        [|reflexivity].
      intros song s _ _.
      eapply ensures_bind_strong; [apply scanEntry_generating|].
      intros b ->. apply ensures_ret. reflexivity.
    + intros o ->. apply ensures_ret. reflexivity.
Qed.

Lemma pollOnce_goes_on fuel title :
  ensures (fun c => c = Continue tt) (DownloadManager.pollOnce drv cfg fuel title).
Proof.
  unfold DownloadManager.pollOnce. apply ensures_tryCatch.
  - apply ensures_bind; intros [|]; [apply ensures_throw|].
    apply ensures_bind; intros hasCaptcha. apply ensures_bind; intros _.
    eapply ensures_bind_strong; [apply checkSongStatus_generating|].
    intros b ->. apply ensures_bind; intros _. apply ensures_ret; reflexivity.
  - intros e. destruct (DownloadManager.isClosedError e); [apply ensures_throw|].
    apply ensures_bind; intros _. apply ensures_ret; reflexivity.
Qed.

Lemma waitForSongCompletion_no_value fuel title maxWaitTime' :
  ensures (fun _ => False)
          (DownloadManager.waitForSongCompletion drv cfg fuel title maxWaitTime').
Proof.
  unfold DownloadManager.waitForSongCompletion. cbv zeta.
  apply ensures_bind; intros startTime.
  eapply ensures_bind_strong.
  - apply ensures_while with (Q := fun _ : bool => False).
    intros s. eapply ensures_weaken; [|apply pollOnce_goes_on].
    intros c ->. exact I.
  - intros [u|b] H; [apply ensures_throw | destruct H].
Qed.

End GeneratingListing.

Section SteadyPage.
Context {W : Type} (drv : Driver W) (cfg : Config).
Hypothesis generating : permanentlyGenerating drv.
Hypothesis calmPage : noChallenge drv.
Hypothesis open : pageStaysOpen drv.
Hypothesis waits : waitsWork drv.
Hypothesis clock : clockMonotone drv.

Lemma later_refl (st : State W) : later drv st st.
Proof. unfold later. lia. Qed.

Lemma later_trans (a b c : State W) : later drv a b -> later drv b c -> later drv a c.
Proof. unfold later. lia. Qed.

Ltac later_side :=
  intros; unfold later; destruct clock as (Ha & Hp & Hc & Ht & Hg);
  cbn [world setWorld]; auto.

Lemma checkSongStatus_later title :
  obeys (later drv) false (DownloadManager.checkSongStatus drv cfg title).
Proof. obeys_tac later_refl later_trans ltac:(later_side). Qed.

Lemma checkForCaptcha_later : obeys (later drv) false (DownloadManager.checkForCaptcha drv).
Proof. obeys_tac later_refl later_trans ltac:(later_side). Qed.

Lemma checkForCaptcha_none :
  ensures (fun b => b = false) (DownloadManager.checkForCaptcha drv).
Proof.
  destruct calmPage as [Hv Hu]. unfold DownloadManager.checkForCaptcha.
  apply ensures_tryCatch; [|intros; apply ensures_ret; reflexivity].
  eapply ensures_bind_strong with (Q := fun r : unit + bool => exists u, r = inl u).
  - eapply ensures_weaken;
      [|apply ensures_forOf with (I := fun _ : unit => True) (Q := fun _ : bool => False)].
    + intros [u|r] H; [eauto | destruct H].
    + intros x s Hin _.
      apply ensures_tryCatch; [|intros; apply ensures_ret; exact I].
      eapply ensures_bind_strong with (Q := fun v => v = false).
      * unfold isVisible. apply ensures_prim. intros w [|] E; [|reflexivity].
        exfalso. eapply Hv; eauto.
      * intros v ->. apply ensures_ret. exact I.
    + exact I.
  - intros r [u ->].
    eapply ensures_bind_strong
      with (Q := fun a => JS.includes a "404" = false /\ JS.includes a "error" = false).
    + unfold pageUrl. apply ensures_peek. apply Hu.
    + intros a [E1 E2]. rewrite E1, E2. apply ensures_ret. reflexivity.
Qed.

Lemma safeWaitForTimeout_run ms st :
  exists st', DownloadManager.safeWaitForTimeout drv ms st = (Ok tt, st')
              /\ now drv (world st) + ms <= now drv (world st').
Proof.
  unfold DownloadManager.safeWaitForTimeout, tryCatch, bind, peek, waitForTimeout, prim.
  rewrite (open (world st)). destruct (waits ms (world st)) as [E Hle].
  destruct (act drv (WaitForTimeout ms) (world st)) as [[[]|e] w]; simpl in *;
    [|discriminate].
  eexists; split; [reflexivity | exact Hle].
Qed.

(** One look at a page that goes on generating: not complete, and the
    pause before the next look has passed. *)
Lemma pollOnce_run fuel title st :
  exists st', DownloadManager.pollOnce drv cfg fuel title st = (Ok (Continue tt), st')
              /\ now drv (world st) + pollInterval cfg <= now drv (world st').
Proof.
  destruct (@runs_to _ _ (later drv) (fun b => b = false)
              (DownloadManager.checkForCaptcha drv) st
              (checkForCaptcha_total drv) checkForCaptcha_none checkForCaptcha_later)
    as (b1 & s1 & E1 & -> & L1).
  destruct (@runs_to _ _ (later drv) (fun b => b = false)
              (DownloadManager.checkSongStatus drv cfg title) s1
              (checkSongStatus_total drv cfg title)
              (checkSongStatus_generating cfg generating title)
              (checkSongStatus_later title))
    as (b2 & s2 & E2 & -> & L2).
  destruct (safeWaitForTimeout_run (pollInterval cfg) s2) as (s3 & E3 & L3).
  exists s3. split; [|unfold later in *; lia].
  unfold DownloadManager.pollOnce. apply tryCatch_Ok.
  rewrite (@bind_Ok _ _ _ _ _ st false st) by (unfold peek; rewrite open; reflexivity).
  cbv beta iota. erewrite bind_Ok by exact E1. cbv beta iota. rewrite bind_ret.
  erewrite bind_Ok by exact E2. cbv beta iota.
  erewrite bind_Ok by exact E3. reflexivity.
Qed.

Lemma pollLoop_times_out fuel title start maxWait :
  0 < pollInterval cfg ->
  forall n st,
    maxWait - (now drv (world st) - start) <= Z.of_nat n * pollInterval cfg ->
    exists st',
      while (S n) (fun _ : unit => t <- dateNow drv ;; ret (t - start <? maxWait))
            (fun _ => DownloadManager.pollOnce drv cfg fuel title) tt st
      = (Ok (inl tt), st')
      /\ maxWait <= now drv (world st') - start.
Proof.
  intros Hpoll. induction n as [|n IH]; intros st Hn; rewrite while_S;
    (rewrite (@bind_Ok _ _ _ _ _ st (now drv (world st) - start <? maxWait) st)
      by reflexivity);
    destruct (now drv (world st) - start <? maxWait) eqn:Ec;
    try (exists st; split; [reflexivity | apply Z.ltb_ge; exact Ec]).
  - apply Z.ltb_lt in Ec. simpl in Hn. lia.
  - apply Z.ltb_lt in Ec.
    destruct (pollOnce_run fuel title st) as (s1 & E1 & L1).
    erewrite bind_Ok by exact E1. cbv beta iota.
    apply IH. rewrite Nat2Z.inj_succ, Z.mul_succ_l in Hn. lia.
Qed.

Lemma waitForSongCompletion_times_out fuel title maxWaitTime' st :
  let maxWait := JS.orNum maxWaitTime' (maxWaitTime cfg) in
  let r := DownloadManager.waitForSongCompletion drv cfg fuel title maxWaitTime' st in
  0 < pollInterval cfg ->
  (Z.to_nat (maxWait / pollInterval cfg) + 2 <= fuel)%nat ->
  res r = Throw (DownloadManager.timedOutMessage maxWait)
  /\ maxWait <= now drv (world (final r)) - now drv (world st).
Proof.
  intros maxWait r Hpoll Hfuel. destruct fuel as [|n]; [lia|].
  destruct (@pollLoop_times_out (S n) title (now drv (world st)) maxWait Hpoll n st)
    as (s' & E & Hle).
  { assert (H := Z.mul_succ_div_gt maxWait (pollInterval cfg) Hpoll).
    assert (Hn : maxWait / pollInterval cfg + 1 <= Z.of_nat n).
    { destruct (Z_lt_le_dec (maxWait / pollInterval cfg) 0) as [Hneg|Hpos]; [lia|].
      rewrite <- (Z2Nat.id _ Hpos). lia. }
    nia. }
  assert (Er : r = (Throw (DownloadManager.timedOutMessage maxWait), s')).
  { unfold r, DownloadManager.waitForSongCompletion. cbv zeta. fold maxWait.
    rewrite (@bind_Ok _ _ _ _ _ st (now drv (world st)) st) by reflexivity.
    erewrite bind_Ok by exact E. reflexivity. }
  clearbody r. subst r. unfold res, final. cbn [fst snd]. split; [reflexivity | exact Hle].
Qed.

End SteadyPage.

(** [SunoBot.waitForCompletion] with a wait that works: completion is
    reported once the time has passed. *)
Lemma waitForCompletion_completes {W} (drv : Driver W) (cfg : Config)
      (title : string) (maxWaitTime' : option Z) (st : State W) :
  let waitTime := JS.orNum maxWaitTime' (maxWaitTime cfg) in
  let r := SunoBot.waitForCompletion drv cfg title maxWaitTime' st in
  waitsWork drv ->
  res r = Ok true
  /\ hd_error (log (final r)) = Some (Status "song_completed" [("title", VStr title)])
  /\ waitTime <= now drv (world (final r)) - now drv (world st).
Proof.
  intros waitTime r Hw. destruct (Hw waitTime (world st)) as [Hd Hle].
  unfold r, SunoBot.waitForCompletion. cbv zeta. fold waitTime.
  unfold tryCatch, bind, SunoBot.updateStatus, emit, modify, waitForTimeout, prim,
    res, final.
  cbn [world setWorld fst snd].
  destruct (act drv (WaitForTimeout waitTime) (world st)) as [[[]|e] w];
    cbn in *; [|discriminate].
  repeat split. lia.
Qed.

(** C2 (as amended).  Take a listing that goes on generating - inside every
    entry one of the loading selectors is reported visible by [isVisible()],
    a single matching element that is visible - on a page that stays open
    and shows no challenge, with waits that last at least as long as asked,
    a positive poll interval and a limit [maxWait] of at most 2^52
    milliseconds in absolute value.  [SunoBot.waitForCompletion], the wait
    that the runs call, does not look at the listing: it reports completion,
    [true] after a completed event, once [maxWait] has passed.
    [DownloadManager.waitForSongCompletion] never reports completion,
    whatever the fuel; with enough fuel for its polls it raises the
    timed-out error, whose message gives [maxWait / 1000], and not before
    [maxWait] has passed since the call.  Nothing bounds the time by which
    the error comes after [maxWait]: the clock is read between polls only. *)
Theorem completion_wait_on_generating_listing {W} (drv : Driver W) (cfg : Config)
        (fuel : nat) (title : string) (maxWaitTime' : option Z) (st : State W) :
  let maxWait := JS.orNum maxWaitTime' (maxWaitTime cfg) in
  let simple := SunoBot.waitForCompletion drv cfg title maxWaitTime' st in
  let poll := DownloadManager.waitForSongCompletion drv cfg fuel title maxWaitTime' st in
  permanentlyGenerating drv -> noChallenge drv -> pageStaysOpen drv ->
  waitsWork drv -> clockMonotone drv ->
  0 < pollInterval cfg ->
  Z.abs maxWait <= 2 ^ 52 ->
  (Z.to_nat (maxWait / pollInterval cfg) + 2 <= fuel)%nat ->
  (res simple = Ok true
   /\ hd_error (log (final simple))
      = Some (Status "song_completed" [("title", VStr title)])
   /\ maxWait <= now drv (world (final simple)) - now drv (world st))
  /\ (forall n b,
        res (DownloadManager.waitForSongCompletion drv cfg n title maxWaitTime' st)
        <> Ok b)
  /\ res poll = Throw (DownloadManager.timedOutMessage maxWait)
  /\ maxWait <= now drv (world (final poll)) - now drv (world st).
Proof.
  intros maxWait simple poll Hg Hc Ho Hw Hm Hpoll _ Hfuel.
  split; [exact (waitForCompletion_completes cfg title maxWaitTime' st Hw)|].
  split.
  - intros n b.
    exact (@waitForSongCompletion_no_value _ drv cfg Hg n title maxWaitTime' st b).
  - exact (@waitForSongCompletion_times_out _ drv cfg Hg Hc Ho Hw Hm fuel title
             maxWaitTime' st Hpoll Hfuel).
Qed.

(** X1. While, inside every entry of the listing, one of the loading
    selectors goes on being reported visible by [isVisible()] - a single
    matching element that is visible - [waitForSongCompletion] never reports
    completion and never returns a value at all: whatever the page does
    otherwise, the call can only end by raising an error (the model may also
    cut the loop off when its fuel is spent). *)
Theorem poller_never_completes_while_generating {W} (drv : Driver W) (cfg : Config)
        (fuel : nat) (title : string) (maxWaitTime' : option Z) (st : State W) :
  let r := DownloadManager.waitForSongCompletion drv cfg fuel title maxWaitTime' st in
  permanentlyGenerating drv ->
  (exists e, res r = Throw e) \/ res r = OutOfFuel.
Proof.
  intros r Hg.
  pose proof (@waitForSongCompletion_no_value _ drv cfg Hg fuel title maxWaitTime' st)
    as Hno.
  fold r in Hno. destruct (res r) as [b|e|] eqn:E.
  - exfalso. exact (Hno b eq_refl).
  - left. exists e. reflexivity.
  - right. reflexivity.
Qed.

Lemma stillGenerating_permanently : permanentlyGenerating Worlds.stillGenerating.
Proof.
  intros song. exists (hd EmptyString DownloadManager.loadingIndicators). split.
  - left. reflexivity.
  - intros w. reflexivity.
Qed.

Lemma stillGenerating_calm : noChallenge Worlds.stillGenerating.
Proof.
  split.
  - intros sel w _. simpl. discriminate.
  - intros w. split; reflexivity.
Qed.

Lemma stillGenerating_waits : waitsWork Worlds.stillGenerating.
Proof. intros ms w. split; [reflexivity | simpl; lia]. Qed.

Lemma stillGenerating_clock : clockMonotone Worlds.stillGenerating.
Proof.
  repeat split; intros; try (simpl; lia).
  - destruct a; simpl; lia.
  - destruct p as [[]|[]|[]]; simpl; lia.
  - destruct l; simpl; lia.
Qed.

Lemma completion_wait_on_generating_listing_witness :
  (res (SunoBot.waitForCompletion Worlds.stillGenerating Worlds.quickConfig "Test"
          None (initState 0)) = Ok true
   /\ hd_error (log (final (SunoBot.waitForCompletion Worlds.stillGenerating
                              Worlds.quickConfig "Test" None (initState 0))))
      = Some (Status "song_completed" [("title", VStr "Test")])
   /\ 2000 <= now Worlds.stillGenerating
                (world (final (SunoBot.waitForCompletion Worlds.stillGenerating
                                 Worlds.quickConfig "Test" None (initState 0))))
              - 0)
  /\ (forall n b,
        res (DownloadManager.waitForSongCompletion Worlds.stillGenerating
               Worlds.quickConfig n "Test" None (initState 0)) <> Ok b)
  /\ res (DownloadManager.waitForSongCompletion Worlds.stillGenerating
            Worlds.quickConfig 5 "Test" None (initState 0))
     = Throw "Song generation timed out after 2 seconds"
  /\ 2000 <= now Worlds.stillGenerating
               (world (final (DownloadManager.waitForSongCompletion
                                Worlds.stillGenerating Worlds.quickConfig 5 "Test"
                                None (initState 0))))
             - 0.
Proof.
  apply (@completion_wait_on_generating_listing _ Worlds.stillGenerating
           Worlds.quickConfig 5 "Test" None (initState 0)).
  - exact stillGenerating_permanently.
  - exact stillGenerating_calm.
  - intros w. reflexivity.
  - exact stillGenerating_waits.
  - exact stillGenerating_clock.
  - reflexivity.
  - vm_compute. discriminate.
  - vm_compute. lia.
Defined.

(** C2 (counterexample to the claim as worded).  On a listing all of whose
    entries go on generating, with a limit of two seconds and a poll every
    second, [SunoBot.waitForCompletion] reports completion, and
    [DownloadManager.waitForSongCompletion] raises its timed-out error four
    seconds after the call, two seconds past the limit: a poll waits three
    seconds for the listing and then one second until the next. *)
Lemma completion_wait_counterexample :
  permanentlyGenerating Worlds.stillGenerating
  /\ maxWaitTime Worlds.quickConfig = 2000
  /\ res (SunoBot.waitForCompletion Worlds.stillGenerating Worlds.quickConfig "Test"
            None (initState 0)) = Ok true
  /\ res (DownloadManager.waitForSongCompletion Worlds.stillGenerating
            Worlds.quickConfig 5 "Test" None (initState 0))
     = Throw "Song generation timed out after 2 seconds"
  /\ now Worlds.stillGenerating
         (world (final (DownloadManager.waitForSongCompletion Worlds.stillGenerating
                          Worlds.quickConfig 5 "Test" None (initState 0))))
     - now Worlds.stillGenerating (world (initState 0)) = 4000.
Proof.
  split; [exact stillGenerating_permanently|].
  repeat split; vm_compute; reflexivity.
Qed.

Lemma poller_never_completes_while_generating_witness :
  (exists e, res (DownloadManager.waitForSongCompletion Worlds.stillGenerating
                    Worlds.quickConfig 5 "Test" None (initState 0)) = Throw e)
  \/ res (DownloadManager.waitForSongCompletion Worlds.stillGenerating
            Worlds.quickConfig 5 "Test" None (initState 0)) = OutOfFuel.
Proof.
  exact (@poller_never_completes_while_generating _ Worlds.stillGenerating
           Worlds.quickConfig 5 "Test" None (initState 0)
           stillGenerating_permanently).
Defined.

(** X2. On a page that stays open, shows no challenge and goes on
    generating, with waits that last as long as asked, a positive poll
    interval, a limit [maxWait] of at most 2^52 milliseconds in absolute
    value and enough fuel for the polls, [waitForSongCompletion] ends by
    raising the timed-out error, whose message gives [maxWait / 1000], and
    not before [maxWait] has passed since the call. *)
Theorem poller_times_out_not_before_maxWait {W} (drv : Driver W) (cfg : Config)
        (fuel : nat) (title : string) (maxWaitTime' : option Z) (st : State W) :
  let maxWait := JS.orNum maxWaitTime' (maxWaitTime cfg) in
  let r := DownloadManager.waitForSongCompletion drv cfg fuel title maxWaitTime' st in
  permanentlyGenerating drv -> noChallenge drv -> pageStaysOpen drv ->
  waitsWork drv -> clockMonotone drv ->
  0 < pollInterval cfg ->
  Z.abs maxWait <= 2 ^ 52 ->
  (Z.to_nat (maxWait / pollInterval cfg) + 2 <= fuel)%nat ->
  res r = Throw (DownloadManager.timedOutMessage maxWait)
  /\ maxWait <= now drv (world (final r)) - now drv (world st).
Proof.
  intros maxWait r Hg Hc Ho Hw Hm Hpoll _ Hfuel.
  exact (@waitForSongCompletion_times_out _ drv cfg Hg Hc Ho Hw Hm fuel title
           maxWaitTime' st Hpoll Hfuel).
Qed.

Lemma poller_times_out_not_before_maxWait_witness :
  res (DownloadManager.waitForSongCompletion Worlds.stillGenerating
         Worlds.quickConfig 5 "Test" None (initState 0))
  = Throw "Song generation timed out after 2 seconds"
  /\ 2000 <= now Worlds.stillGenerating
               (world (final (DownloadManager.waitForSongCompletion
                                Worlds.stillGenerating Worlds.quickConfig 5 "Test"
                                None (initState 0))))
             - 0.
Proof.
  apply (@poller_times_out_not_before_maxWait _ Worlds.stillGenerating
           Worlds.quickConfig 5 "Test" None (initState 0)).
  - exact stillGenerating_permanently.
  - exact stillGenerating_calm.
  - intros w. reflexivity.
  - exact stillGenerating_waits.
  - exact stillGenerating_clock.
  - reflexivity.
  - vm_compute. discriminate.
  - vm_compute. lia.
Defined.

(** X3. [SunoBot.waitForCompletion] performs one operation on the page, the
    wait for the configured time, and nothing else: when that wait succeeds
    it reports completion, without a look at the listing; when it fails, the
    failure is recorded and raised again. *)
Theorem waitForCompletion_is_a_plain_wait {W} (drv : Driver W) (cfg : Config)
        (title : string) (maxWaitTime' : option Z) (st : State W) :
  let waitTime := JS.orNum maxWaitTime' (maxWaitTime cfg) in
  let r := SunoBot.waitForCompletion drv cfg title maxWaitTime' st in
  let started := Status "waiting_for_completion" [("title", VStr title)] in
  match act drv (WaitForTimeout waitTime) (world st) with
  | (Done _, w) =>
      res r = Ok true /\ world (final r) = w
      /\ log (final r)
         = Status "song_completed" [("title", VStr title)] :: started :: log st
  | (Fail e, w) =>
      res r = Throw e /\ world (final r) = w
      /\ log (final r)
         = Status "completion_timeout" [("error", VStr e)] :: started :: log st
  end.
Proof.
  intros waitTime r started. unfold r, SunoBot.waitForCompletion. cbv zeta.
  fold waitTime.
  unfold tryCatch, bind, SunoBot.updateStatus, emit, modify, waitForTimeout, prim,
    res, final.
  cbn [world setWorld fst snd].
  destruct (act drv (WaitForTimeout waitTime) (world st)) as [[[]|e] w];
    cbn; repeat split.
Qed.

(** X4. A page found closed when the wait is entered ends
    [waitForSongCompletion] at once with the page-closed error: nothing is
    done on the page and no pause is taken. *)
Theorem poller_stops_on_closed_page {W} (drv : Driver W) (cfg : Config)
        (fuel : nat) (title : string) (maxWaitTime' : option Z) (st : State W) :
  isClosed drv (world st) = true ->
  0 < JS.orNum maxWaitTime' (maxWaitTime cfg) ->
  DownloadManager.waitForSongCompletion drv cfg (S fuel) title maxWaitTime' st
  = (Throw DownloadManager.pageClosedMessage, st).
Proof.
  intros Hclosed Hpos. unfold DownloadManager.waitForSongCompletion. cbv zeta.
  rewrite (@bind_Ok _ _ _ _ _ st (now drv (world st)) st) by reflexivity.
  rewrite while_S.
  rewrite (@bind_Throw _ _ _ _ _ st DownloadManager.pageClosedMessage st);
    [reflexivity|].
  rewrite (@bind_Ok _ _ _ _ _ st true st).
  2:{ unfold bind, dateNow, peek, ret. rewrite Z.sub_diag.
      apply Z.ltb_lt in Hpos. rewrite Hpos. reflexivity. }
  cbv beta iota.
  rewrite (@bind_Throw _ _ _ _ _ st DownloadManager.pageClosedMessage st);
    [reflexivity|].
  unfold DownloadManager.pollOnce.
  rewrite (@tryCatch_Throw _ _ _ _ st DownloadManager.pageClosedMessage st).
  - reflexivity.
  - rewrite (@bind_Ok _ _ _ _ _ st true st) by (unfold peek; rewrite Hclosed; reflexivity).
    reflexivity.
Qed.

Lemma poller_stops_on_closed_page_witness :
  DownloadManager.waitForSongCompletion Worlds.closedPage Worlds.quickConfig 1
    "Test" None (initState 0)
  = (Throw "Browser page was closed unexpectedly", initState 0).
Proof.
  apply (@poller_stops_on_closed_page _ Worlds.closedPage Worlds.quickConfig 0
           "Test" None (initState 0)); reflexivity.
Defined.
(** ** server.js: every job of a batch is counted *)

Section BatchCounts.
Context {W : Type} (drv : Driver W) (cfg : Config) (fuel : nat).
Variable req : Server.BatchRequest.

Lemma jobProlog_quiet i : obeys quiet false (Server.jobProlog drv req i).
Proof. quiet_tac. Qed.

(** An iteration that raises has counted nothing. *)
Lemma batchIteration_Throw i st e s :
  Server.batchIteration drv cfg fuel req i st = (Throw e, s) ->
  successCount s = successCount st /\ failCount s = failCount st
  /\ botVar s = botVar st /\ exists l, log s = (l ++ log st)%list.
Proof.
  unfold Server.batchIteration. cbv zeta.
  destruct (jobProlog_quiet i st) as ((_ & A2 & A3 & A4 & A5) & _).
  unfold bind at 1. unfold final in *.
  destruct (Server.jobProlog drv req i st) as [[p|e1|] s1] eqn:E1; cbn [fst snd] in *;
    try discriminate.
  2:{ intros H. inversion H. subst. auto. }
  destruct (runJob_quiet drv cfg fuel (Server.songTitleOf (Server.preset_name p) i)
              (Server.lyrics req) (Server.preset_style p) s1)
    as ((_ & B2 & B3 & B4 & l2 & B5) & _).
  unfold bind at 1. unfold final in *.
  destruct (Server.runJob drv cfg fuel _ _ _ s1) as [[[]|e2|] s2] eqn:E2;
    cbn [fst snd] in *; try discriminate.
  - rewrite bind_getState. unfold setSuccessCount. rewrite bind_modify.
    destruct (Server.beforeLast i (Server.songsCount req)); discriminate.
  - intros H. inversion H. subst. destruct A5 as [l1 A5].
    repeat split; try congruence.
    exists (l2 ++ l1)%list. rewrite B5, A5. apply app_assoc.
Qed.

(** One step of the loop, unless it is cut off, counts exactly one job, as
    a success or as a failure. *)
Lemma batchStep_counts i st :
  res (Server.batchStep drv cfg fuel req i st) = OutOfFuel
  \/ exists s,
       Server.batchStep drv cfg fuel req i st = (Ok tt, s)
       /\ (successCount s + failCount s = S (successCount st + failCount st))%nat
       /\ botVar s = botVar st.
Proof.
  unfold Server.batchStep.
  destruct (Server.batchIteration drv cfg fuel req i st) as [[[]|e|] s] eqn:E.
  - right. exists s. split; [apply tryCatch_Ok; exact E|].
    destruct (batchIteration_Ok drv cfg fuel req i st E) as (H1 & H2 & H3 & _).
    split; [lia | exact H3].
  - right. destruct (batchIteration_Throw i st E) as (H1 & H2 & H3 & _).
    eexists. split.
    + erewrite tryCatch_Throw by exact E.
      rewrite bind_getState. unfold setFailCount. rewrite bind_modify. reflexivity.
    + cbn. split; [lia | exact H3].
  - left. erewrite tryCatch_OutOfFuel by exact E. reflexivity.
Qed.

Lemma batchLoop_counts indices : forall st,
  res (Server.batchLoop drv cfg fuel req indices st) = OutOfFuel
  \/ exists s,
       Server.batchLoop drv cfg fuel req indices st = (Ok tt, s)
       /\ (successCount s + failCount s
           = successCount st + failCount st + List.length indices)%nat
       /\ botVar s = botVar st.
Proof.
  induction indices as [|i rest IH]; intros st.
  - right. exists st. split; [reflexivity | split; [simpl; lia | reflexivity]].
  - destruct (batchStep_counts i st) as [Hout | (s1 & E1 & C1 & B1)].
    + left. unfold Server.batchLoop, forEach. simpl forOf.
      unfold res in *.
      destruct (Server.batchStep drv cfg fuel req i st) as [o s1] eqn:E.
      simpl in Hout. subst o. rewrite !bind_assoc.
      erewrite bind_OutOfFuel by exact E. reflexivity.
    + assert (Estep : Server.batchLoop drv cfg fuel req (i :: rest) st
                      = Server.batchLoop drv cfg fuel req rest s1).
      { unfold Server.batchLoop, forEach. simpl forOf. rewrite !bind_assoc.
        erewrite bind_Ok by exact E1. rewrite bind_ret. reflexivity. }
      rewrite Estep.
      destruct (IH s1) as [Hout | (s & E & C & B)]; [left; exact Hout|].
      right. exists s. split; [exact E|]. split; [simpl; lia | congruence].
Qed.

End BatchCounts.

Lemma tryFinally_Ok {W A} (m : M W A) (f : M W unit) st a st' st'' :
  m st = (Ok a, st') -> f st' = (Ok tt, st'') -> tryFinally m f st = (Ok a, st'').
Proof. intros H1 H2. unfold tryFinally. rewrite H1, H2. reflexivity. Qed.

Lemma batchEntry_Throw_inv {W} (drv : Driver W) (cfg : Config) (st : State W) e s1 :
  batchEntry drv cfg st = (Throw e, s1) ->
  Server.batchSetup drv cfg (final (Server.batchLocals st)) = (Throw e, s1)
  /\ successCount s1 = O /\ failCount s1 = O /\ botVar s1 = true.
Proof.
  unfold batchEntry. erewrite bind_Ok by apply batchLocals_run.
  intros H. split; [exact H|]. revert H.
  unfold Server.batchSetup, SunoBot.newBot, setAuthManager, setContext, setBotVar,
    setCurrentBot.
  repeat (first [rewrite bind_assoc | rewrite bind_modify]; cbv beta).
  match goal with
  | |- ?m ?s = _ -> _ =>
      set (s' := s);
      assert (Hs : successCount s' = O /\ failCount s' = O /\ botVar s' = true)
        by (repeat split; reflexivity);
      clearbody s'
  end.
  destruct (setupRest_quiet drv cfg s') as ((_ & H2 & H3 & H4 & _) & _).
  intros H. unfold final in H2, H3, H4. rewrite H in H2, H3, H4.
  cbn [snd] in H2, H3, H4. destruct Hs as (A & B & C).
  repeat split; congruence.
Qed.

Section BatchEnd.
Context {W : Type} (drv : Driver W) (cfg : Config) (fuel : nat).
Variable req : Server.BatchRequest.
Hypothesis closes : forall w, fst (act drv CloseContext w) = Done tt.

(** The [finally] block of a batch whose bot exists: the session is
    released, the server is free again and the totals are announced. *)
Lemma batchFinally_run s :
  botVar s = true ->
  exists s',
    Server.batchFinally drv req s = (Ok tt, s')
    /\ isProcessing s' = false /\ currentBot s' = false
    /\ exists l,
         log s' = (Server.batchComplete (Server.songsCount req) (successCount s)
                     (failCount s) :: l ++ log s)%list.
Proof.
  intros Hb. destruct (close_Ok drv s closes) as (sc & Ec & Hcs & Hcf & lc & Hcl).
  unfold Server.batchFinally. rewrite bind_getState, Hb.
  rewrite ?bind_assoc. erewrite bind_Ok by exact Ec.
  unfold setCurrentBot, setIsProcessing, Server.broadcastStatus, emit.
  rewrite !bind_modify, !bind_getState. cbn [successCount failCount].
  eexists. split; [reflexivity|]. cbn. rewrite Hcs, Hcf, Hcl.
  split; [reflexivity | split; [reflexivity|]]. exists lc. reflexivity.
Qed.

Lemma batchProcess_counts st :
  res (batchEntry drv cfg st) = Ok tt ->
  res (Server.batchProcess drv cfg fuel req st) <> OutOfFuel ->
  exists s,
    Server.batchProcess drv cfg fuel req st = (Ok tt, s)
    /\ isProcessing s = false /\ currentBot s = false
    /\ exists success failed,
         hd_error (log s)
         = Some (Server.batchComplete (Server.songsCount req) success failed)
         /\ match Server.songsCount req with
            | Server.Num N => (success + failed = N)%nat
            | Server.NotANumber => success = O /\ failed = O
            end.
Proof.
  intros Hentry Hfuel.
  pose proof (run_eta _ Hentry) as Eentry.
  destruct (batchEntry_inv _ _ _ Eentry) as (Esetup & Hs0 & Hf0 & Hb0).
  set (s0 := final (batchEntry drv cfg st)) in *. clearbody s0.
  destruct (batchLoop_counts drv cfg fuel req (Server.indices (Server.songsCount req)) s0)
    as [Hout | (sN & Eloop & Hsum & HbN)].
  - exfalso. apply Hfuel.
    unfold Server.batchProcess. erewrite bind_Ok by apply batchLocals_run.
    unfold tryFinally, tryCatch. erewrite bind_Ok by exact Esetup.
    unfold res in *.
    destruct (Server.batchLoop drv cfg fuel req _ s0) as [o s]. cbn [fst] in Hout.
    subst o. reflexivity.
  - destruct (batchFinally_run sN) as (s' & Efin & Hp & Hc & l & Hlog);
      [congruence|].
    exists s'. split.
    + unfold Server.batchProcess. erewrite bind_Ok by apply batchLocals_run.
      unfold tryFinally. erewrite tryCatch_Ok.
      2:{ erewrite bind_Ok by exact Esetup. exact Eloop. }
      rewrite Efin. reflexivity.
    + split; [exact Hp | split; [exact Hc|]].
      exists (successCount sN), (failCount sN). rewrite Hlog. split; [reflexivity|].
      destruct (Server.songsCount req) as [N|]; simpl in Hsum.
      * rewrite length_seq in Hsum. lia.
      * lia.
Qed.

(** A batch whose browser start or login raises: the error is announced,
    the session is still released and the totals are zero. *)
Lemma batchProcess_setup_fails st e :
  res (batchEntry drv cfg st) = Throw e ->
  exists s,
    Server.batchProcess drv cfg fuel req st = (Ok tt, s)
    /\ isProcessing s = false /\ currentBot s = false
    /\ hd_error (log s) = Some (Server.batchComplete (Server.songsCount req) 0 0)
    /\ In (Status "batch_error" [("message", VStr (Server.batchFailed e))]) (log s).
Proof.
  intros Hentry. pose proof (run_eta _ Hentry) as Eentry. clear Hentry.
  set (s1 := final (batchEntry drv cfg st)) in *. clearbody s1.
  pose proof (batchEntry_Throw_inv _ _ _ Eentry) as Esetup.
  destruct Esetup as (Esetup & Hs & Hf & Hb).
  set (ev := Status "batch_error" [("message", VStr (Server.batchFailed e))]).
  set (s2 := final (Server.broadcastStatus ev s1)).
  assert (E2 : Server.broadcastStatus ev s1 = (Ok tt, s2)) by reflexivity.
  assert (Hl2 : log s2 = ev :: log s1) by reflexivity.
  assert (Hs2 : successCount s2 = O) by exact Hs.
  assert (Hf2 : failCount s2 = O) by exact Hf.
  assert (Hb2 : botVar s2 = true) by exact Hb.
  clearbody s2.
  destruct (batchFinally_run s2 Hb2) as (s' & Efin & Hp & Hc & l & Hlog).
  exists s'. split.
  - unfold Server.batchProcess. erewrite bind_Ok by apply batchLocals_run.
    apply tryFinally_Ok with (st' := s2); [|exact Efin].
    erewrite tryCatch_Throw by (erewrite bind_Throw by exact Esetup; reflexivity).
    exact E2.
  - split; [exact Hp | split; [exact Hc|]]. rewrite Hlog, Hs2, Hf2, Hl2.
    split; [reflexivity|]. apply in_cons. apply in_or_app. right. apply in_eq.
Qed.

End BatchEnd.

(** X5. A batch whose browser start and login are done, whose session
    closes and which is not cut off, ends normally, the server is free again
    and holds no bot, and its final batch-complete event carries the count
    of the request as its total.  When that count is a number [N], every one
    of the [N] jobs is counted exactly once: the two totals add up to [N],
    whatever job succeeded or failed.  When the count is not a number (the
    [parseInt] of a text without leading digits, which the comparisons of
    the route let through), no job is run and both totals are zero. *)
Theorem batch_counts_every_job {W} (drv : Driver W) (cfg : Config) (fuel : nat)
        (req : Server.BatchRequest) (st : State W) :
  let r := Server.batchProcess drv cfg fuel req st in
  res (batchEntry drv cfg st) = Ok tt ->
  (forall w, fst (act drv CloseContext w) = Done tt) ->
  res r <> OutOfFuel ->
  res r = Ok tt
  /\ isProcessing (final r) = false /\ currentBot (final r) = false
  /\ exists success failed,
       hd_error (log (final r))
       = Some (Server.batchComplete (Server.songsCount req) success failed)
       /\ match Server.songsCount req with
          | Server.Num N => (success + failed = N)%nat
          | Server.NotANumber => success = O /\ failed = O
          end.
Proof.
  intros r Hentry Hclose Hfuel.
  destruct (batchProcess_counts drv cfg fuel req Hclose st Hentry Hfuel)
    as (s & E & H).
  fold r in E. clearbody r. subst r. exact (conj eq_refl H).
Qed.

Lemma batch_counts_every_job_witness :
  (res (Server.batchProcess Worlds.offline Worlds.defaultConfig 5 Worlds.threeSongs
          (initState 0)) = Ok tt
   /\ isProcessing (final (Server.batchProcess Worlds.offline Worlds.defaultConfig 5
                             Worlds.threeSongs (initState 0))) = false
   /\ currentBot (final (Server.batchProcess Worlds.offline Worlds.defaultConfig 5
                           Worlds.threeSongs (initState 0))) = false
   /\ exists success failed,
        hd_error (log (final (Server.batchProcess Worlds.offline Worlds.defaultConfig
                                5 Worlds.threeSongs (initState 0))))
        = Some (Server.batchComplete (Server.Num 3) success failed)
        /\ (success + failed = 3)%nat)
  /\ (res (Server.batchProcess Worlds.offline Worlds.defaultConfig 5 Worlds.noCount
           (initState 0)) = Ok tt
      /\ isProcessing (final (Server.batchProcess Worlds.offline Worlds.defaultConfig 5
                                Worlds.noCount (initState 0))) = false
      /\ currentBot (final (Server.batchProcess Worlds.offline Worlds.defaultConfig 5
                              Worlds.noCount (initState 0))) = false
      /\ exists success failed,
           hd_error (log (final (Server.batchProcess Worlds.offline
                                   Worlds.defaultConfig 5 Worlds.noCount
                                   (initState 0))))
           = Some (Server.batchComplete Server.NotANumber success failed)
           /\ success = O /\ failed = O).
Proof.
  split.
  - apply (@batch_counts_every_job _ Worlds.offline Worlds.defaultConfig 5
             Worlds.threeSongs (initState 0)).
    + vm_compute. reflexivity.
    + intros w. reflexivity.
    + vm_compute. discriminate.
  - apply (@batch_counts_every_job _ Worlds.offline Worlds.defaultConfig 5
             Worlds.noCount (initState 0)).
    + vm_compute. reflexivity.
    + intros w. reflexivity.
    + vm_compute. discriminate.
Defined.

(** X6. A batch whose browser start or login raises attempts no job: the
    error is announced as a batch error whose message is the text
    'Batch process failed: ' followed by the message of the error, the
    session is still released, the server is free again and the final
    batch-complete event reports no song created and none failed. *)
Theorem batch_setup_failure_runs_no_job {W} (drv : Driver W) (cfg : Config)
        (fuel : nat) (req : Server.BatchRequest) (st : State W) (e : string) :
  let r := Server.batchProcess drv cfg fuel req st in
  res (batchEntry drv cfg st) = Throw e ->
  (forall w, fst (act drv CloseContext w) = Done tt) ->
  res r = Ok tt
  /\ isProcessing (final r) = false /\ currentBot (final r) = false
  /\ hd_error (log (final r)) = Some (Server.batchComplete (Server.songsCount req) 0 0)
  /\ In (Status "batch_error" [("message", VStr (Server.batchFailed e))])
        (log (final r)).
Proof.
  intros r Hentry Hclose.
  destruct (batchProcess_setup_fails drv cfg fuel req Hclose st Hentry)
    as (s & E & H).
  fold r in E. clearbody r. subst r. exact (conj eq_refl H).
Qed.

Lemma batch_setup_failure_runs_no_job_witness :
  res (Server.batchProcess Worlds.noBrowser Worlds.defaultConfig 5 Worlds.threeSongs
         (initState 0)) = Ok tt
  /\ isProcessing (final (Server.batchProcess Worlds.noBrowser Worlds.defaultConfig 5
                            Worlds.threeSongs (initState 0))) = false
  /\ currentBot (final (Server.batchProcess Worlds.noBrowser Worlds.defaultConfig 5
                          Worlds.threeSongs (initState 0))) = false
  /\ hd_error (log (final (Server.batchProcess Worlds.noBrowser Worlds.defaultConfig 5
                             Worlds.threeSongs (initState 0))))
     = Some (Server.batchComplete (Server.Num 3) 0 0)
  /\ In (Status "batch_error"
                [("message", VStr (Server.batchFailed Worlds.launchFailed))])
        (log (final (Server.batchProcess Worlds.noBrowser Worlds.defaultConfig 5
                       Worlds.threeSongs (initState 0)))).
Proof.
  apply (@batch_setup_failure_runs_no_job _ Worlds.noBrowser Worlds.defaultConfig 5
           Worlds.threeSongs (initState 0) Worlds.launchFailed).
  - vm_compute. reflexivity.
  - intros w. reflexivity.
Defined.
(** ** suno-bot.js: the rounds of the full process *)

Section Rounds.
Context {W : Type} (drv : Driver W) (cfg : Config) (fuel : nat).

(** A loop that is never left early runs its body once for each element:
    an invariant indexed by the number of iterations done. *)
Lemma ensures_forOf_counted {A S Ret} (I : nat -> S -> Prop) (xs : list A)
      (body : A -> S -> M W (ctl S Ret)) :
  (forall x s n, I n s ->
     ensures (fun c => match c with
                       | Continue s' => I (Datatypes.S n) s'
                       | _ => False
                       end) (body x s)) ->
  forall n s, I n s ->
    ensures (fun r => match r with
                      | inl s' => I (n + List.length xs)%nat s'
                      | inr _ => False
                      end) (forOf xs body s).
Proof.
  intros Hb. induction xs as [|x xs IH]; intros n s Hs; simpl.
  - apply ensures_ret. rewrite Nat.add_0_r. exact Hs.
  - eapply ensures_bind_strong; [apply (Hb x s n Hs)|].
    intros [s'|s'|r] Hc; try contradiction.
    rewrite <- Nat.add_succ_comm. apply IH. exact Hc.
Qed.

Lemma downloadBothSongs_pair songTitle :
  ensures (fun r => List.length (DownloadManager.downloads r) = 2%nat
                    /\ DownloadManager.dl_count r = 2%nat
                    /\ Forall nonEmpty (DownloadManager.downloads r))
          (DownloadManager.downloadBothSongs drv cfg songTitle).
Proof.
  unfold DownloadManager.downloadBothSongs.
  apply ensures_tryCatch; [|intros e; apply ensures_throw].
  eapply ensures_bind_strong; [apply downloadSingleSong_nonEmpty|].
  intros d1 H1. cbv zeta. apply ensures_bind. intros _.
  eapply ensures_bind_strong; [apply downloadSingleSong_nonEmpty|].
  intros d2 H2. apply ensures_ret. simpl. repeat split; auto.
Qed.

Lemma botDownloadBothSongs_pair songTitle :
  ensures (fun r => List.length (DownloadManager.downloads r) = 2%nat
                    /\ DownloadManager.dl_count r = 2%nat
                    /\ Forall nonEmpty (DownloadManager.downloads r))
          (SunoBot.downloadBothSongs drv cfg songTitle).
Proof.
  unfold SunoBot.downloadBothSongs.
  apply ensures_tryCatch; [|intros e; apply ensures_bind; intros _; apply ensures_throw].
  apply ensures_bind. intros _.
  eapply ensures_bind_strong; [apply downloadBothSongs_pair|].
  intros r H. apply ensures_bind. intros _. apply ensures_ret. exact H.
Qed.

Lemma automateFullProcess_two_per_round title lyrics style rounds :
  ensures (fun r => SunoBot.fr_title r = title
                    /\ SunoBot.fr_totalRounds r = rounds
                    /\ SunoBot.fr_count r = (2 * rounds)%nat
                    /\ List.length (SunoBot.fr_downloads r) = (2 * rounds)%nat
                    /\ Forall nonEmpty (SunoBot.fr_downloads r))
          (SunoBot.automateFullProcess drv cfg fuel title lyrics style rounds).
Proof.
  unfold SunoBot.automateFullProcess.
  apply ensures_tryCatch; [|intros e; apply ensures_bind; intros _; apply ensures_throw].
  apply ensures_bind. intros hasAuthManager. apply ensures_bind. intros _.
  cbv zeta. apply ensures_bind. intros _.
  eapply ensures_bind_strong
    with (Q := fun acc : list DownloadManager.Artifact * nat =>
                 snd acc = (2 * rounds)%nat
                 /\ List.length (fst acc) = (2 * rounds)%nat
                 /\ Forall nonEmpty (fst acc)).
  - unfold forEach.
    eapply ensures_bind_strong.
    + apply ensures_forOf_counted
        with (I := fun n (acc : list DownloadManager.Artifact * nat) =>
                     snd acc = (2 * n)%nat
                     /\ List.length (fst acc) = (2 * n)%nat
                     /\ Forall nonEmpty (fst acc))
             (n := O).
      * intros round [allDownloads total] n (H1 & H2 & H3). cbn [fst snd] in *.
        apply ensures_bind. intros _. apply ensures_bind. intros createResult.
        cbv zeta. apply ensures_bind. intros _. apply ensures_bind. intros _.
        eapply ensures_bind_strong; [apply botDownloadBothSongs_pair|].
        intros d (D1 & D2 & D3). apply ensures_bind. intros _.
        apply ensures_ret. cbn [fst snd].
        rewrite length_app, D1, D2, H1, H2.
        repeat split; try lia. apply Forall_app. split; assumption.
      * cbn. repeat split. constructor.
    + intros [acc|[]] H. apply ensures_ret.
      rewrite length_seq in H. exact H.
  - intros [allDownloads total] (H1 & H2 & H3). cbn [fst snd] in *.
    apply ensures_bind. intros _. apply ensures_ret. cbn. auto.
Qed.

End Rounds.

(** X7. Whenever the full process of [rounds] rounds returns, its result
    carries exactly two artifacts for each round, none of them empty, and
    its count says so; a round that fails makes the whole process raise, so
    no partial result is ever returned. *)
Theorem full_process_returns_two_per_round {W} (drv : Driver W) (cfg : Config)
        (fuel : nat) (title lyrics style : string) (rounds : nat) (st : State W)
        (r : SunoBot.FullResult) :
  res (SunoBot.automateFullProcess drv cfg fuel title lyrics style rounds st) = Ok r ->
  SunoBot.fr_title r = title
  /\ SunoBot.fr_totalRounds r = rounds
  /\ SunoBot.fr_count r = (2 * rounds)%nat
  /\ List.length (SunoBot.fr_downloads r) = (2 * rounds)%nat
  /\ Forall nonEmpty (SunoBot.fr_downloads r).
Proof.
  intros H.
  exact (@automateFullProcess_two_per_round _ drv cfg fuel title lyrics style rounds
           st r H).
Qed.

Lemma full_process_returns_two_per_round_witness :
  exists r,
    res (SunoBot.automateFullProcess (Worlds.flaky 100) Worlds.defaultConfig 5
           "Test" EmptyString "lofi" 2 (initState (0, O))) = Ok r
    /\ SunoBot.fr_title r = "Test"
    /\ SunoBot.fr_totalRounds r = 2%nat
    /\ SunoBot.fr_count r = 4%nat
    /\ List.length (SunoBot.fr_downloads r) = 4%nat
    /\ Forall nonEmpty (SunoBot.fr_downloads r).
Proof.
  eexists. split; [vm_compute; reflexivity|].
  apply (@full_process_returns_two_per_round _ (Worlds.flaky 100)
           Worlds.defaultConfig 5 "Test" EmptyString "lofi" 2 (initState (0, O))).
  vm_compute. reflexivity.
Defined.
(** ** server.js: the single-song process always frees the server *)

Section SingleSong.
Context {W : Type} (drv : Driver W) (cfg : Config) (fuel : nat).
Hypothesis closes : forall w, fst (act drv CloseContext w) = Done tt.

(** The [finally] block: the session-release hook is called, and nothing
    else is recorded. *)
Lemma releaseBlock_run s :
  exists s',
    (SunoBot.close drv ;; setCurrentBot false ;; setIsProcessing false) s = (Ok tt, s')
    /\ isProcessing s' = false /\ currentBot s' = false
    /\ log s' = SunoBot.closeHook :: log s.
Proof.
  unfold SunoBot.close, emit. rewrite !bind_assoc, bind_modify.
  rewrite bind_assoc, bind_getState. cbn [authManager].
  destruct (authManager s).
  - unfold AuthManagerPersistent.close. rewrite !bind_assoc, bind_getState.
    cbn [context]. destruct (context s).
    + unfold prim. cbv beta. unfold bind at 1. cbn [world].
      pose proof (closes (world s)) as Hc.
      destruct (act drv CloseContext (world s)) as [[[]|e] w']; cbn [fst] in Hc;
        [|discriminate].
      unfold setCurrentBot, setIsProcessing. rewrite bind_modify. unfold modify.
      eexists. split; [reflexivity|]. cbn. auto.
    + rewrite bind_ret. unfold setCurrentBot, setIsProcessing.
      rewrite bind_modify. unfold modify.
      eexists. split; [reflexivity|]. cbn. auto.
  - rewrite bind_ret. unfold setCurrentBot, setIsProcessing.
    rewrite bind_modify. unfold modify.
    eexists. split; [reflexivity|]. cbn. auto.
Qed.

Lemma songProcessBody_frees title' lyrics style rounds s1 :
  let a := SunoBot.automateFullProcess drv cfg fuel title' lyrics style rounds s1 in
  let r := tryFinally
             (tryCatch
                (_ <- SunoBot.automateFullProcess drv cfg fuel title' lyrics style
                        rounds ;;
                 Server.broadcastStatus (Status "complete" []))
                (fun e =>
                   Server.broadcastStatus (Status "error" [("message", VStr e)]) ;;
                   setTimeoutPromise drv 30000))
             (SunoBot.close drv ;; setCurrentBot false ;; setIsProcessing false) s1 in
  res r <> OutOfFuel ->
  res r = Ok tt
  /\ isProcessing (final r) = false /\ currentBot (final r) = false
  /\ (forall v, res a = Ok v ->
        log (final r) = SunoBot.closeHook :: Status "complete" [] :: log (final a))
  /\ (forall e, res a = Throw e ->
        log (final r)
        = SunoBot.closeHook :: Status "error" [("message", VStr e)] :: log (final a)).
Proof.
  intros a r. subst r. unfold res, final. subst a.
  destruct (SunoBot.automateFullProcess drv cfg fuel title' lyrics style rounds s1)
    as [[v|e|] s2] eqn:Ea; cbn [fst snd]; intros Hfuel.
  - set (s3 := final (Server.broadcastStatus (Status "complete" []) s2)).
    assert (E3 : Server.broadcastStatus (Status "complete" []) s2 = (Ok tt, s3))
      by reflexivity.
    assert (Hl3 : log s3 = Status "complete" [] :: log s2) by reflexivity.
    clearbody s3.
    destruct (releaseBlock_run s3) as (s' & Er & Hp & Hc & Hl).
    erewrite tryFinally_Ok with (st' := s3) (st'' := s'); [| |exact Er].
    2:{ apply tryCatch_Ok. erewrite bind_Ok by exact Ea. exact E3. }
    cbn [fst snd]. repeat split; try assumption.
    + intros _ _. rewrite Hl, Hl3. reflexivity.
    + intros e He. discriminate.
  - set (s3 := final ((Server.broadcastStatus (Status "error" [("message", VStr e)]) ;;
                       setTimeoutPromise drv 30000) s2)).
    assert (E3 : (Server.broadcastStatus (Status "error" [("message", VStr e)]) ;;
                  setTimeoutPromise drv 30000) s2 = (Ok tt, s3)) by reflexivity.
    assert (Hl3 : log s3 = Status "error" [("message", VStr e)] :: log s2)
      by reflexivity.
    clearbody s3.
    destruct (releaseBlock_run s3) as (s' & Er & Hp & Hc & Hl).
    erewrite tryFinally_Ok with (st' := s3) (st'' := s'); [| |exact Er].
    2:{ erewrite tryCatch_Throw by (erewrite bind_Throw by exact Ea; reflexivity).
        exact E3. }
    cbn [fst snd]. repeat split; try assumption.
    + intros v Hv. discriminate.
    + intros e' He. inversion He. subst e'. rewrite Hl, Hl3. reflexivity.
  - exfalso. apply Hfuel. unfold tryFinally, tryCatch.
    erewrite bind_OutOfFuel by exact Ea. reflexivity.
Qed.

End SingleSong.

(** X8. The process started by POST /api/create-song never raises when the
    session can be closed, and what it announces follows the outcome of
    [automateFullProcess], which is run on the state left by the creation of
    the bot with the title of the request, or 'Untitled Song' when that is
    empty.  When the automation returns, a complete event is broadcast after
    the events of the automation; when it raises, an error event carrying
    the message of the error is broadcast instead.  In both cases the
    session-release hook is called afterwards and nothing else is recorded,
    the server is marked free again and it holds no bot. *)
Theorem single_song_process_always_frees_server {W} (drv : Driver W) (cfg : Config)
        (fuel : nat) (title lyrics style : string) (rounds : nat) (st : State W) :
  let a := SunoBot.automateFullProcess drv cfg fuel
             (if JS.truthy title then title else "Untitled Song") lyrics style rounds
             (final ((SunoBot.newBot ;; setCurrentBot true) st)) in
  let r := Server.createSongProcess drv cfg fuel title lyrics style rounds st in
  (forall w, fst (act drv CloseContext w) = Done tt) ->
  res r <> OutOfFuel ->
  res r = Ok tt
  /\ isProcessing (final r) = false /\ currentBot (final r) = false
  /\ (forall v, res a = Ok v ->
        log (final r) = SunoBot.closeHook :: Status "complete" [] :: log (final a))
  /\ (forall e, res a = Throw e ->
        log (final r)
        = SunoBot.closeHook :: Status "error" [("message", VStr e)] :: log (final a)).
Proof.
  intros a r Hclose Hfuel.
  exact (@songProcessBody_frees _ drv cfg fuel Hclose
           (if JS.truthy title then title else "Untitled Song") lyrics style rounds
           (final ((SunoBot.newBot ;; setCurrentBot true) st)) Hfuel).
Qed.

Lemma single_song_process_always_frees_server_witness :
  res (Server.createSongProcess Worlds.offline Worlds.defaultConfig 5 "Test"
         EmptyString "lofi" 1 (initState 0)) = Ok tt
  /\ isProcessing (final (Server.createSongProcess Worlds.offline Worlds.defaultConfig
                            5 "Test" EmptyString "lofi" 1 (initState 0))) = false
  /\ currentBot (final (Server.createSongProcess Worlds.offline Worlds.defaultConfig
                          5 "Test" EmptyString "lofi" 1 (initState 0))) = false
  /\ (forall v,
        res (SunoBot.automateFullProcess Worlds.offline Worlds.defaultConfig 5 "Test"
               EmptyString "lofi" 1
               (final ((SunoBot.newBot ;; setCurrentBot true) (initState 0)))) = Ok v ->
        log (final (Server.createSongProcess Worlds.offline Worlds.defaultConfig
                      5 "Test" EmptyString "lofi" 1 (initState 0)))
        = SunoBot.closeHook :: Status "complete" []
            :: log (final (SunoBot.automateFullProcess Worlds.offline
                             Worlds.defaultConfig 5 "Test" EmptyString "lofi" 1
                             (final ((SunoBot.newBot ;; setCurrentBot true)
                                       (initState 0))))))
  /\ (forall e,
        res (SunoBot.automateFullProcess Worlds.offline Worlds.defaultConfig 5 "Test"
               EmptyString "lofi" 1
               (final ((SunoBot.newBot ;; setCurrentBot true) (initState 0)))) = Throw e ->
        log (final (Server.createSongProcess Worlds.offline Worlds.defaultConfig
                      5 "Test" EmptyString "lofi" 1 (initState 0)))
        = SunoBot.closeHook :: Status "error" [("message", VStr e)]
            :: log (final (SunoBot.automateFullProcess Worlds.offline
                             Worlds.defaultConfig 5 "Test" EmptyString "lofi" 1
                             (final ((SunoBot.newBot ;; setCurrentBot true)
                                       (initState 0)))))).
Proof.
  apply (@single_song_process_always_frees_server _ Worlds.offline
           Worlds.defaultConfig 5 "Test" EmptyString "lofi" 1 (initState 0)).
  - intros w. reflexivity.
  - vm_compute. discriminate.
Defined.
(** ** auth-persistent.js: the dispatch of [login], and the password path *)

Section LoginDispatch.
Context {W : Type} (drv : Driver W) (cfg : Config).

Lemma login_after_check st b s :
  AuthManagerPersistent.checkIfLoggedIn drv cfg st = (Ok b, s) ->
  AuthManagerPersistent.login drv cfg st
  = (if b : bool then ret AuthManagerPersistent.LoginTrue
     else if String.eqb (authMethod cfg) "google" then
       credentials <- tryCatch (prim (loadCredentials drv)) (fun _ => ret None) ;;
       match credentials with
       | Some (email, password) =>
           AuthManagerPersistent.loginWithGoogle drv cfg email password
       | None =>
           AuthManagerPersistent.loginWithGoogle drv cfg EmptyString EmptyString
       end
     else if String.eqb (authMethod cfg) "password" then
       if (negb (JS.truthy (credEmail cfg)) || negb (JS.truthy (credPassword cfg)))%bool
       then throw "Email and password are required for password authentication"
       else AuthManagerPersistent.loginWithPassword drv cfg (credEmail cfg)
              (credPassword cfg)
     else throw ("Unknown auth method: " ++ authMethod cfg)) s.
Proof.
  intros E. unfold AuthManagerPersistent.login. erewrite bind_Ok by exact E.
  reflexivity.
Qed.

Lemma checkIfLoggedIn_run st :
  exists b, AuthManagerPersistent.checkIfLoggedIn drv cfg st
            = (Ok b, final (AuthManagerPersistent.checkIfLoggedIn drv cfg st)).
Proof.
  destruct (checkIfLoggedIn_total drv cfg st) as [b Hb]. exists b.
  apply run_eta. exact Hb.
Qed.

(** The sign-in form of the password path cannot be completed. *)
Lemma loginWithPassword_raises email password :
  (forall l text w, exists e, fst (act drv (Fill l text) w) = Fail e) ->
  raises (AuthManagerPersistent.loginWithPassword drv cfg email password).
Proof.
  intros Hfill. apply finishes_no_value_raises; [finishes_tac|].
  unfold AuthManagerPersistent.loginWithPassword.
  apply ensures_tryCatch; [|intros e; apply ensures_throw].
  do 7 (apply ensures_bind; intros ?).
  eapply ensures_bind_strong with (Q := fun _ => False); [|intros ? []].
  unfold fill. apply ensures_prim. intros w u E.
  destruct (Hfill (First (Css ("input[type=" ++ q "email" ++ "], input[name="
                                ++ q "email" ++ "]"))) email w) as [e He].
  rewrite He in E. discriminate E.
Qed.

End LoginDispatch.

(** X9. When the configuration names no usable method, an unknown method
    or the password method without an e-mail address or a password, [login]
    does nothing on the page beyond its check of the session: it returns
    [true] when the session is found logged in, and otherwise raises the
    configuration error. *)
Theorem login_refuses_unusable_configuration {W} (drv : Driver W) (cfg : Config)
        (st : State W) :
  let r := AuthManagerPersistent.login drv cfg st in
  let checked := AuthManagerPersistent.checkIfLoggedIn drv cfg st in
  (authMethod cfg <> "google" /\ authMethod cfg <> "password")
  \/ (authMethod cfg = "password"
      /\ (credEmail cfg = EmptyString \/ credPassword cfg = EmptyString)) ->
  final r = final checked
  /\ (res checked = Ok true -> res r = Ok AuthManagerPersistent.LoginTrue)
  /\ (res checked = Ok false ->
      res r = Throw (if String.eqb (authMethod cfg) "password"
                     then "Email and password are required for password authentication"
                     else "Unknown auth method: " ++ authMethod cfg)).
Proof.
  intros r checked Hcfg.
  destruct (checkIfLoggedIn_run drv cfg st) as [b Eb].
  pose proof (login_after_check drv cfg st Eb) as Er. fold r in Er. fold checked in Eb.
  set (s := final (AuthManagerPersistent.checkIfLoggedIn drv cfg st)) in *.
  assert (Hres : res checked = Ok b) by (rewrite Eb; reflexivity).
  assert (Hfin : final checked = s) by (rewrite Eb; reflexivity).
  clearbody r checked s. rewrite Hres, Hfin. clear Eb Hres Hfin.
  destruct b.
  - subst r. split; [reflexivity|]. split; [intros _; reflexivity | discriminate].
  - assert (Hr : r = (Throw (if String.eqb (authMethod cfg) "password"
                             then "Email and password are required for password authentication"
                             else "Unknown auth method: " ++ authMethod cfg), s)).
    { rewrite Er. destruct Hcfg as [[Hg Hp] | [Hp Hc]].
      - apply String.eqb_neq in Hg. apply String.eqb_neq in Hp.
        rewrite Hg, Hp. reflexivity.
      - rewrite Hp. cbn [String.eqb Ascii.eqb Bool.eqb].
        change (String.eqb "password" "google") with false.
        change (String.eqb "password" "password") with true. cbv iota.
        destruct Hc as [-> | ->]; [reflexivity|].
        rewrite orb_true_r. reflexivity. }
    rewrite Hr. split; [reflexivity|]. split; [discriminate | intros _; reflexivity].
Qed.

Lemma login_refuses_unusable_configuration_witness :
  res (AuthManagerPersistent.login Worlds.lockedForm Worlds.ssoConfig (initState 0))
  = Throw "Unknown auth method: sso"
  /\ res (AuthManagerPersistent.login Worlds.lockedForm Worlds.passwordMissing
            (initState 0))
     = Throw "Email and password are required for password authentication".
Proof.
  split.
  - destruct (@login_refuses_unusable_configuration _ Worlds.lockedForm
                Worlds.ssoConfig (initState 0)) as (_ & _ & H).
    + left. split; discriminate.
    + rewrite H; [reflexivity|]. vm_compute. reflexivity.
  - destruct (@login_refuses_unusable_configuration _ Worlds.lockedForm
                Worlds.passwordMissing (initState 0)) as (_ & _ & H).
    + right. split; [reflexivity | right; reflexivity].
    + rewrite H; [reflexivity|]. vm_compute. reflexivity.
Defined.

(** X10. With the password method and both credentials, a session that is
    never found logged in and a sign-in form whose fields cannot be filled,
    the login of the bot raises: the failure is announced as [auth_failed],
    the newest event, and the session is not reported as authenticated. *)
Theorem password_login_failure_is_raised {W} (drv : Driver W) (cfg : Config)
        (st : State W) :
  let r := SunoBot.login drv cfg st in
  authMethod cfg = "password" ->
  credEmail cfg <> EmptyString -> credPassword cfg <> EmptyString ->
  (forall s, res (AuthManagerPersistent.checkIfLoggedIn drv cfg s) <> Ok true) ->
  (forall l text w, exists e, fst (act drv (Fill l text) w) = Fail e) ->
  exists e,
    res r = Throw e
    /\ hd_error (log (final r)) = Some (Status "auth_failed" [("error", VStr e)]).
Proof.
  intros r Hm He Hp Hout Hfill.
  set (s0 := final (SunoBot.updateStatus (W:=W) "authenticating" [] st)).
  destruct (checkIfLoggedIn_run drv cfg s0) as [b Eb].
  assert (Hb : b = false).
  { destruct b; [|reflexivity]. exfalso. apply (Hout s0). rewrite Eb. reflexivity. }
  subst b.
  pose proof (login_after_check drv cfg s0 Eb) as El.
  set (s1 := final (AuthManagerPersistent.checkIfLoggedIn drv cfg s0)) in *.
  clearbody s1.
  destruct (loginWithPassword_raises drv cfg (credEmail cfg) (credPassword cfg) Hfill s1)
    as [e Hraise].
  pose proof (run_eta _ Hraise) as Ep.
  set (s2 := final (AuthManagerPersistent.loginWithPassword drv cfg (credEmail cfg)
                      (credPassword cfg) s1)) in *.
  clearbody s2.
  assert (Elogin : AuthManagerPersistent.login drv cfg s0 = (Throw e, s2)).
  { rewrite El. cbv iota. rewrite Hm.
    change (String.eqb "password" "google") with false.
    change (String.eqb "password" "password") with true. cbv iota.
    destruct (credEmail cfg) as [|c1 e1]; [contradiction He; reflexivity|].
    destruct (credPassword cfg) as [|c2 p2]; [contradiction Hp; reflexivity|].
    exact Ep. }
  exists e.
  assert (Er : r = (Throw e,
                    final (SunoBot.updateStatus (W:=W) "auth_failed"
                             [("error", VStr e)] s2))).
  { unfold r, SunoBot.login.
    erewrite tryCatch_Throw.
    2:{ rewrite (@bind_Ok _ _ _ _ _ st tt s0) by reflexivity.
        erewrite bind_Throw by exact Elogin. reflexivity. }
    reflexivity. }
  clearbody r. subst r. split; reflexivity.
Qed.

Lemma password_login_failure_is_raised_witness :
  exists e,
    res (SunoBot.login Worlds.lockedForm Worlds.passwordConfig (initState 0)) = Throw e
    /\ hd_error (log (final (SunoBot.login Worlds.lockedForm Worlds.passwordConfig
                               (initState 0))))
       = Some (Status "auth_failed" [("error", VStr e)]).
Proof.
  apply (@password_login_failure_is_raised _ Worlds.lockedForm Worlds.passwordConfig
           (initState 0)).
  - reflexivity.
  - discriminate.
  - discriminate.
  - intros s. vm_compute. discriminate.
  - intros l text w. exists Worlds.fillTimeout. reflexivity.
Defined.
(** ** song-creator.js: lyrics that cannot be entered, a Create button that
    cannot be used *)

Section CreatorErrors.
Context {W : Type} (drv : Driver W) (cfg : Config) (fuel : nat).

Lemma raises_bind_ensures {A B} (Q : A -> Prop) (m : M W A) (k : A -> M W B) :
  finishes m -> ensures Q m -> (forall a, Q a -> raises (k a)) -> raises (bind m k).
Proof.
  intros Hf Hq Hk st. destruct (Hf st) as [_ Hn]. specialize (Hq st).
  unfold bind, res in *.
  destruct (m st) as [[a|e|] st'] eqn:E; simpl in *.
  - apply Hk. apply Hq. reflexivity.
  - exists e. reflexivity.
  - exfalso. apply Hn; reflexivity.
Qed.

Lemma visibleOrFalse_hidden l :
  (forall w, fst (probe drv (IsVisible l) w) <> Done true) ->
  ensures (fun b => b = false) (visibleOrFalse drv l).
Proof.
  intros H st b. unfold visibleOrFalse, catchDefault, tryCatch, isVisible, prim, res.
  specialize (H (world st)).
  destruct (probe drv (IsVisible l) (world st)) as [[[|]|e] w]; simpl in *;
    intros E; inversion E; [exfalso; apply H|..]; reflexivity.
Qed.

Lemma visibleOrFalse_total l : total_ (visibleOrFalse drv l).
Proof.
  unfold visibleOrFalse, catchDefault.
  apply tryCatch_total; [finishes_tac | intros; apply ret_total].
Qed.

(** [scanSelectors] leaves no candidate or one of its candidates. *)
Lemma scanSelectors_candidate selectors :
  ensures (fun o => o = None
                    \/ exists sel, In sel selectors /\ o = Some (First (Css sel)))
          (scanSelectors drv selectors).
Proof.
  unfold scanSelectors.
  apply ensures_forEach
    with (I := fun o => o = None
                        \/ exists sel, In sel selectors /\ o = Some (First (Css sel)));
    [|left; reflexivity].
  intros sel s Hin _. cbv zeta. apply ensures_bind. intros [|]; apply ensures_ret;
    right; exists sel; split; auto.
Qed.

Lemma scanSelectors_finishes selectors : finishes (scanSelectors drv selectors).
Proof. finishes_tac. Qed.

Lemma setAndVisible_finishes o : finishes (setAndVisible drv o).
Proof. finishes_tac. Qed.

Lemma fillLyrics_raises lyrics :
  lyricsUnlocatable drv -> raises (SongCreator.fillLyrics drv lyrics).
Proof.
  intros H. unfold SongCreator.fillLyrics.
  apply raises_tryCatch; [|intros e; apply raises_throw].
  eapply raises_bind_ensures;
    [apply scanSelectors_finishes | apply scanSelectors_candidate|].
  intros o [-> | (sel & Hin & ->)].
  - apply raises_bind_r; [apply setAndVisible_finishes|]. intros _. apply raises_throw.
  - eapply raises_bind_ensures with (Q := fun v => v = false).
    + apply setAndVisible_finishes.
    + cbn [setAndVisible]. apply visibleOrFalse_hidden. intros w. apply H. exact Hin.
    + intros v ->. apply raises_throw.
Qed.

Lemma createSong_lyrics_raises title lyrics style :
  lyricsUnlocatable drv ->
  (JS.truthy lyrics && negb (JS.isBlank lyrics))%bool = true ->
  raises (SongCreator.createSong drv cfg fuel title lyrics style).
Proof.
  intros H Hl. unfold SongCreator.createSong.
  apply raises_tryCatch; [|intros e; apply raises_throw].
  apply raises_bind_r; [finishes_tac|]. intros _.
  apply raises_bind_r; [finishes_tac|]. intros _.
  apply raises_bind_r; [finishes_tac|]. intros _.
  apply raises_bind_r; [finishes_tac|]. intros d.
  apply raises_bind_r; [finishes_tac|]. intros _.
  apply raises_bind_l. rewrite Hl. apply raises_bind_l. apply fillLyrics_raises. exact H.
Qed.

(** With no usable Create button the search of [clickCreate] finds none. *)
Lemma createSearch_none :
  createUnavailable drv ->
  ensures (fun o => o = None)
    (forEach SongCreator.createSelectors
       (fun selector (_ : option Locator) =>
          let b := First (Css selector) in
          v <- visibleOrFalse drv b ;;
          if v : bool then
            disabled <- catchDefault (isDisabled drv b) false ;;
            if negb disabled then ret (Break (Some b)) else ret (Continue None)
          else ret (Continue None))
       None).
Proof.
  intros H.
  apply ensures_forEach with (I := fun o : option Locator => o = None); [|reflexivity].
  intros sel s Hin _. cbv zeta. destruct (H sel Hin) as [Hv | Hd].
  - eapply ensures_bind_strong; [apply visibleOrFalse_hidden; exact Hv|].
    intros v ->. apply ensures_ret. reflexivity.
  - apply ensures_bind. intros [|]; [|apply ensures_ret; reflexivity].
    eapply ensures_bind_strong with (Q := fun d => d = true).
    + intros st d. unfold catchDefault, tryCatch, isDisabled, prim, res.
      specialize (Hd (world st)).
      destruct (probe drv (IsDisabled (First (Css sel))) (world st)) as [[v|e] w];
        simpl in *; [|discriminate Hd].
      intros E. inversion E. congruence.
    + intros d ->. apply ensures_ret. reflexivity.
Qed.

Lemma clickCreate_raises :
  createUnavailable drv -> raises (SongCreator.clickCreate drv fuel).
Proof.
  intros H. unfold SongCreator.clickCreate.
  apply raises_tryCatch.
  2:{ intros e. apply raises_bind_r; [apply takeDebugScreenshot_finishes|].
      intros _. apply raises_throw. }
  apply raises_bind_r; [finishes_tac|]. intros d.
  apply raises_bind_r; [finishes_tac|]. intros _.
  apply raises_bind_r; [finishes_tac|]. intros _.
  eapply raises_bind_ensures; [finishes_tac | apply createSearch_none; exact H|].
  intros o ->.
  apply raises_bind_r; [finishes_tac|]. intros _.
  apply raises_bind_r; [finishes_tac|]. intros allButtons.
  apply raises_bind_r; [finishes_tac|]. intros _. apply raises_throw.
Qed.

Lemma fillLyrics_finishes lyrics : finishes (SongCreator.fillLyrics drv lyrics).
Proof. finishes_tac. Qed.

Lemma fillStyles_finishes style : finishes (SongCreator.fillStyles drv style).
Proof. finishes_tac. Qed.

Lemma addSongTitle_finishes title : finishes (SongCreator.addSongTitle drv title).
Proof. finishes_tac. Qed.

Lemma createSong_create_raises title lyrics style :
  createUnavailable drv ->
  raises (SongCreator.createSong drv cfg fuel title lyrics style).
Proof.
  intros H. unfold SongCreator.createSong.
  apply raises_tryCatch; [|intros e; apply raises_throw].
  apply raises_bind_r; [finishes_tac|]. intros _.
  apply raises_bind_r; [finishes_tac|]. intros _.
  apply raises_bind_r; [finishes_tac|]. intros _.
  apply raises_bind_r; [finishes_tac|]. intros d.
  apply raises_bind_r; [finishes_tac|]. intros _.
  apply raises_bind_r.
  { destruct (JS.truthy lyrics && negb (JS.isBlank lyrics))%bool; finishes_tac. }
  intros _.
  apply raises_bind_r; [apply fillStyles_finishes|]. intros _.
  apply raises_bind_r.
  { destruct (JS.truthy title); finishes_tac. }
  intros _.
  apply raises_bind_r; [finishes_tac|]. intros _.
  apply raises_bind_l. apply clickCreate_raises. exact H.
Qed.

End CreatorErrors.

(** X11. Lyrics are mandatory once given: when no lyrics input can be
    located, [fillLyrics] raises, and so does every [createSong] call whose
    lyrics are not blank, that is, whose [trim()] is not empty: blank lyrics
    are made of the white space and line terminators of the language only,
    the ideographic space and the other Unicode spaces included. *)
Theorem lyrics_required_when_given {W} (drv : Driver W) (cfg : Config) (fuel : nat)
        (title lyrics style : string) (st : State W) :
  lyricsUnlocatable drv ->
  (exists e, res (SongCreator.fillLyrics drv lyrics st) = Throw e)
  /\ ((JS.truthy lyrics && negb (JS.isBlank lyrics))%bool = true ->
      exists e, res (SongCreator.createSong drv cfg fuel title lyrics style st)
                = Throw e).
Proof.
  intros H. split.
  - apply fillLyrics_raises. exact H.
  - intros Hl. apply createSong_lyrics_raises; assumption.
Qed.

Lemma lyrics_required_when_given_witness :
  (exists e, res (SongCreator.fillLyrics Worlds.idle "la la" (initState 0)) = Throw e)
  /\ exists e, res (SongCreator.createSong Worlds.idle Worlds.defaultConfig 5 "Test"
                      "la la" "lofi" (initState 0)) = Throw e.
Proof.
  destruct (@lyrics_required_when_given _ Worlds.idle Worlds.defaultConfig 5 "Test"
              "la la" "lofi" (initState 0)) as [H1 H2].
  - intros sel w Hin. vm_compute. discriminate.
  - split; [exact H1 | apply H2; reflexivity].
Defined.

(** X12. Without a usable Create button, each candidate being hidden or
    disabled, [clickCreate] raises and so does the whole [createSong] call:
    a button that is shown but disabled does not count as found. *)
Theorem create_button_required {W} (drv : Driver W) (cfg : Config) (fuel : nat)
        (title lyrics style : string) (st : State W) :
  createUnavailable drv ->
  (exists e, res (SongCreator.clickCreate drv fuel st) = Throw e)
  /\ exists e, res (SongCreator.createSong drv cfg fuel title lyrics style st) = Throw e.
Proof.
  intros H. split.
  - apply clickCreate_raises. exact H.
  - apply createSong_create_raises. exact H.
Qed.

Lemma create_button_required_witness :
  (exists e, res (SongCreator.clickCreate Worlds.idle 5 (initState 0)) = Throw e)
  /\ exists e, res (SongCreator.createSong Worlds.idle Worlds.defaultConfig 5 "Test"
                      EmptyString "lofi" (initState 0)) = Throw e.
Proof.
  apply (@create_button_required _ Worlds.idle Worlds.defaultConfig 5 "Test"
           EmptyString "lofi" (initState 0)).
  intros sel Hin. left. intros w. vm_compute. discriminate.
Defined.
(** ** config/style-presets.js: the store of presets *)

Section PresetLists.
Import StylePresetManager.

Lemma findIndex_Some i ps n p :
  findIndex i ps = Some (n, p) ->
  lookup i ps = Some p /\ nth_error ps n = Some p /\ hasId i p = true.
Proof.
  revert n. induction ps as [|q rest IH]; intros n H; simpl in *; [discriminate|].
  unfold lookup. simpl. destruct (hasId i q) eqn:Hq.
  - inversion H; subst. auto.
  - destruct (findIndex i rest) as [[m r]|] eqn:E; [|discriminate].
    inversion H; subst. destruct (IH m eq_refl) as (H1 & H2 & H3). auto.
Qed.

Lemma findIndex_None i ps : findIndex i ps = None -> lookup i ps = None.
Proof.
  induction ps as [|q rest IH]; intros H; simpl in *; [reflexivity|].
  unfold lookup. simpl. destruct (hasId i q); [discriminate|].
  destruct (findIndex i rest) as [[m r]|]; [discriminate|]. apply IH. reflexivity.
Qed.

Lemma length_updateAt n f ps : List.length (updateAt n f ps) = List.length ps.
Proof.
  revert n. induction ps as [|q rest IH]; intros [|n]; simpl; auto.
Qed.

Lemma updateAt_twice n f g ps :
  updateAt n f (updateAt n g ps) = updateAt n (fun p => f (g p)) ps.
Proof.
  revert n. induction ps as [|q rest IH]; intros [|n]; simpl; auto.
  rewrite IH. reflexivity.
Qed.

Lemma updateAt_same n f ps : (forall p, f p = p) -> updateAt n f ps = ps.
Proof.
  intros H. revert n. induction ps as [|q rest IH]; intros [|n]; simpl; auto.
  - rewrite H. reflexivity.
  - rewrite IH. reflexivity.
Qed.

Lemma nth_error_updateAt n f ps k :
  nth_error (updateAt n f ps) k
  = if (k =? n)%nat then option_map f (nth_error ps k) else nth_error ps k.
Proof.
  revert n k. induction ps as [|q rest IH]; intros [|n] [|k]; simpl; auto.
  - destruct (k =? n)%nat; reflexivity.
Qed.

(** A change of the preset found for [i] that keeps its identifier. *)
Lemma findIndex_updateAt i ps n p f :
  (forall q, sp_id (f q) = sp_id q) ->
  findIndex i ps = Some (n, p) ->
  findIndex i (updateAt n f ps) = Some (n, f p).
Proof.
  intros Hf. revert n. induction ps as [|q rest IH]; intros n H; simpl in *;
    [discriminate|].
  destruct (hasId i q) eqn:Hq.
  - inversion H; subst. simpl. unfold hasId in *. rewrite Hf, Hq. reflexivity.
  - destruct (findIndex i rest) as [[m r]|] eqn:E; [|discriminate].
    inversion H; subst. simpl. rewrite Hq, (IH m eq_refl). reflexivity.
Qed.

Lemma lookup_updateAt i ps n p f j :
  (forall q, sp_id (f q) = sp_id q) ->
  findIndex i ps = Some (n, p) ->
  lookup j (updateAt n f ps)
  = if String.eqb i j then Some (f p) else lookup j ps.
Proof.
  intros Hf. unfold lookup. revert n.
  induction ps as [|q rest IH]; intros n H; simpl in *; [discriminate|].
  unfold hasId in *. destruct (String.eqb (sp_id q) i) eqn:Hq.
  - inversion H; subst. simpl. rewrite Hf. apply String.eqb_eq in Hq. subst i.
    destruct (String.eqb (sp_id p) j); reflexivity.
  - destruct (findIndex i rest) as [[m r]|] eqn:E; [|discriminate].
    inversion H; subst. simpl. rewrite (IH m eq_refl).
    destruct (String.eqb (sp_id q) j) eqn:Hj; [|reflexivity].
    apply String.eqb_eq in Hj. subst j.
    rewrite String.eqb_sym, Hq. reflexivity.
Qed.

Lemma findIndex_bound i ps n p :
  findIndex i ps = Some (n, p) -> (n < List.length ps)%nat.
Proof.
  intros H. apply findIndex_Some in H. destruct H as (_ & H & _).
  apply nth_error_Some. congruence.
Qed.

Lemma length_removeAt n ps :
  (n < List.length ps)%nat -> S (List.length (removeAt n ps)) = List.length ps.
Proof.
  revert n. induction ps as [|q rest IH]; intros [|n] H; simpl in *; try lia.
  rewrite IH; [reflexivity | lia].
Qed.

Lemma lookup_removeAt i ps n p j :
  findIndex i ps = Some (n, p) -> j <> i ->
  lookup j (removeAt n ps) = lookup j ps.
Proof.
  intros H Hj. unfold lookup. revert n H.
  induction ps as [|q rest IH]; intros n H; simpl in *; [discriminate|].
  unfold hasId in *. destruct (String.eqb (sp_id q) i) eqn:Hq.
  - inversion H; subst. apply String.eqb_eq in Hq.
    destruct (String.eqb (sp_id p) j) eqn:E; [|reflexivity].
    apply String.eqb_eq in E. congruence.
  - destruct (findIndex i rest) as [[m r]|] eqn:E; [|discriminate].
    inversion H; subst. simpl. rewrite (IH m eq_refl). reflexivity.
Qed.

Lemma lookup_app_Some j ps qs p :
  lookup j ps = Some p -> lookup j (ps ++ qs) = Some p.
Proof.
  unfold lookup. induction ps as [|q rest IH]; simpl; [discriminate|].
  destruct (hasId j q); auto.
Qed.

Lemma lookup_app_None j ps qs :
  lookup j ps = None -> lookup j (ps ++ qs) = lookup j qs.
Proof.
  unfold lookup. induction ps as [|q rest IH]; simpl; [reflexivity|].
  destruct (hasId j q); [discriminate | auto].
Qed.

Lemma updateAt_fixed n f ps p :
  nth_error ps n = Some p -> f p = p -> updateAt n f ps = ps.
Proof.
  revert n. induction ps as [|q rest IH]; intros [|n] H Hf; simpl in *;
    try discriminate.
  - inversion H; subst. rewrite Hf. reflexivity.
  - rewrite (IH n H Hf). reflexivity.
Qed.

(** Two negations give a boolean flag back; a missing flag has become
    [false]. *)
Lemma toggled_toggled p b : sp_favorite p = Some b -> toggled (toggled p) = p.
Proof.
  destruct p. unfold toggled, isFavorite. simpl. intros ->. simpl.
  rewrite negb_involutive. reflexivity.
Qed.

Lemma toggled_toggled_flag p :
  sp_favorite (toggled (toggled p)) = Some (isFavorite p).
Proof.
  unfold toggled, isFavorite. simpl. rewrite negb_involutive. reflexivity.
Qed.

End PresetLists.

Section PresetRuns.
Import StylePresetManager.
Context {E : Type} (env : Env E).

Lemma save_run st :
  saves env ->
  exists d, save env st = (Ok tt, holding st (stored st) d).
Proof.
  intros Hs. unfold save, tryCatch, prim. specialize (Hs (presets (world st)) (outside (world st))).
  destruct (writePresets env (presets (world st)) (outside (world st))) as [[[]|e] d];
    simpl in *; [|discriminate].
  exists d. reflexivity.
Qed.

Lemma save_fails st err :
  cannotSave env err ->
  exists d, save env st = (Throw err, holding st (stored st) d).
Proof.
  intros Hs. unfold save, tryCatch, prim. specialize (Hs (presets (world st)) (outside (world st))).
  destruct (writePresets env (presets (world st)) (outside (world st))) as [[[]|e] d];
    simpl in *; [discriminate|].
  inversion Hs. subst. exists d. reflexivity.
Qed.


Lemma stored_holding (st : State (Mem E)) ps d : stored (holding st ps d) = ps.
Proof. reflexivity. Qed.

Lemma toggleFavorite_run i st n p :
  saves env -> findIndex i (stored st) = Some (n, p) ->
  exists d, toggleFavorite env i st
            = (Ok (negb (isFavorite p)), holding st (updateAt n toggled (stored st)) d).
Proof.
  intros Hs Hf. unfold toggleFavorite.
  rewrite (@bind_Ok _ _ _ _ _ st (stored st) st) by reflexivity.
  rewrite Hf.
  rewrite (@bind_Ok _ _ _ _ _ st tt
             (holding st (updateAt n toggled (stored st)) (outside (world st))))
    by reflexivity.
  destruct (save_run (holding st (updateAt n toggled (stored st)) (outside (world st)))
              Hs) as [d Ed].
  erewrite bind_Ok by exact Ed. exists d. reflexivity.
Qed.

Lemma toggleFavorite_unknown i st :
  findIndex i (stored st) = None -> toggleFavorite env i st = (Ok false, st).
Proof.
  intros Hf. unfold toggleFavorite.
  rewrite (@bind_Ok _ _ _ _ _ st (stored st) st) by reflexivity.
  rewrite Hf. reflexivity.
Qed.

Lemma incrementUsage_run i st n p :
  saves env -> findIndex i (stored st) = Some (n, p) ->
  exists d, incrementUsage env i st
            = (Ok tt, holding st (updateAt n (used (isoNow env (outside (world st))))
                                    (stored st)) d).
Proof.
  intros Hs Hf. unfold incrementUsage.
  rewrite (@bind_Ok _ _ _ _ _ st (stored st) st) by reflexivity.
  rewrite Hf.
  rewrite (@bind_Ok _ _ _ _ _ st (isoNow env (outside (world st))) st) by reflexivity.
  set (ps' := updateAt n (used (isoNow env (outside (world st)))) (stored st)).
  rewrite (@bind_Ok _ _ _ _ _ st tt (holding st ps' (outside (world st))))
    by reflexivity.
  destruct (save_run (holding st ps' (outside (world st))) Hs) as [d Ed].
  rewrite Ed. exists d. reflexivity.
Qed.

Lemma incrementUsage_unknown i st :
  findIndex i (stored st) = None -> incrementUsage env i st = (Ok tt, st).
Proof.
  intros Hf. unfold incrementUsage.
  rewrite (@bind_Ok _ _ _ _ _ st (stored st) st) by reflexivity.
  rewrite Hf. reflexivity.
Qed.

Lemma deletePreset_run i st n p :
  saves env -> findIndex i (stored st) = Some (n, p) ->
  exists d, deletePreset env i st = (Ok true, holding st (removeAt n (stored st)) d).
Proof.
  intros Hs Hf. unfold deletePreset.
  rewrite (@bind_Ok _ _ _ _ _ st (stored st) st) by reflexivity.
  rewrite Hf.
  rewrite (@bind_Ok _ _ _ _ _ st tt
             (holding st (removeAt n (stored st)) (outside (world st))))
    by reflexivity.
  destruct (save_run (holding st (removeAt n (stored st)) (outside (world st))) Hs)
    as [d Ed].
  erewrite bind_Ok by exact Ed. exists d. reflexivity.
Qed.

Lemma deletePreset_unknown i st :
  findIndex i (stored st) = None -> deletePreset env i st = (Throw (notFound i), st).
Proof.
  intros Hf. unfold deletePreset.
  rewrite (@bind_Ok _ _ _ _ _ st (stored st) st) by reflexivity.
  rewrite Hf. reflexivity.
Qed.

Lemma updatePreset_unknown i u st :
  findIndex i (stored st) = None -> updatePreset env i u st = (Throw (notFound i), st).
Proof.
  intros Hf. unfold updatePreset.
  rewrite (@bind_Ok _ _ _ _ _ st (stored st) st) by reflexivity.
  rewrite Hf. reflexivity.
Qed.

(** The preset that [createPreset] builds in a state. *)
Lemma createPreset_run name style category st :
  saves env ->
  exists d,
    let p := mkStylePreset (fst (randomHex env (outside (world st)))) name style
                           (orElse category "Custom") (Some false) (Some O)
                           (Some (isoNow env (snd (randomHex env (outside (world st))))))
                           None None None in
    createPreset env name style category st
    = (Ok p, holding st (stored st ++ [p]) d).
Proof.
  intros Hs. unfold createPreset, randomId, total.
  unfold bind at 1. destruct (randomHex env (outside (world st))) as [i d1] eqn:Er.
  cbn [fst snd].
  set (s1 := setWorld st (mkMem (presets (world st)) d1)).
  rewrite (@bind_Ok _ _ _ _ _ s1 (isoNow env d1) s1) by reflexivity.
  cbv zeta.
  rewrite (@bind_Ok _ _ _ _ _ s1 (stored st) s1) by reflexivity.
  set (p := mkStylePreset i name style (orElse category "Custom") (Some false) (Some O)
                          (Some (isoNow env d1)) None None None).
  rewrite (@bind_Ok _ _ _ _ _ s1 tt (holding st (stored st ++ [p]) d1)) by reflexivity.
  destruct (save_run (holding st (stored st ++ [p]) d1) Hs) as [d Ed].
  erewrite bind_Ok by exact Ed. exists d. reflexivity.
Qed.

Lemma createPreset_fails name style category st err :
  cannotSave env err ->
  exists p d,
    createPreset env name style category st
    = (Throw err, holding st (stored st ++ [p]) d)
    /\ sp_name p = name.
Proof.
  intros Hs. unfold createPreset, randomId, total.
  unfold bind at 1. destruct (randomHex env (outside (world st))) as [i d1] eqn:Er.
  set (s1 := setWorld st (mkMem (presets (world st)) d1)).
  rewrite (@bind_Ok _ _ _ _ _ s1 (isoNow env d1) s1) by reflexivity.
  cbv zeta.
  rewrite (@bind_Ok _ _ _ _ _ s1 (stored st) s1) by reflexivity.
  set (p := mkStylePreset i name style (orElse category "Custom") (Some false) (Some O)
                          (Some (isoNow env d1)) None None None).
  rewrite (@bind_Ok _ _ _ _ _ s1 tt (holding st (stored st ++ [p]) d1)) by reflexivity.
  destruct (save_fails (holding st (stored st ++ [p]) d1) Hs) as [d Ed].
  erewrite bind_Throw by exact Ed. exists p, d. split; reflexivity.
Qed.

Lemma deletePreset_fails i st n p err :
  cannotSave env err -> findIndex i (stored st) = Some (n, p) ->
  exists d, deletePreset env i st = (Throw err, holding st (removeAt n (stored st)) d).
Proof.
  intros Hs Hf. unfold deletePreset.
  rewrite (@bind_Ok _ _ _ _ _ st (stored st) st) by reflexivity.
  rewrite Hf.
  rewrite (@bind_Ok _ _ _ _ _ st tt
             (holding st (removeAt n (stored st)) (outside (world st))))
    by reflexivity.
  destruct (save_fails (holding st (removeAt n (stored st)) (outside (world st))) Hs)
    as [d Ed].
  erewrite bind_Throw by exact Ed. exists d. reflexivity.
Qed.

End PresetRuns.

Section PresetStore.
Import StylePresetManager.
Context {E : Type} (env : Env E).

Lemma lookup_findIndex i ps :
  lookup i ps = None -> findIndex i ps = None.
Proof.
  intros H. destruct (findIndex i ps) as [[n p]|] eqn:Ef; [|reflexivity].
  apply findIndex_Some in Ef. destruct Ef as (Hl & _). congruence.
Qed.

Lemma lookup_known i ps :
  lookup i ps <> None -> exists n p, findIndex i ps = Some (n, p).
Proof.
  intros H. destruct (findIndex i ps) as [[n p]|] eqn:Ef; [eauto|].
  exfalso. apply H. apply findIndex_None. exact Ef.
Qed.

Lemma toggled_id q : sp_id (toggled q) = sp_id q.
Proof. reflexivity. Qed.

Lemma used_id ts q : sp_id (used ts q) = sp_id q.
Proof. reflexivity. Qed.

Lemma lookup_removeAt_self i ps n p :
  NoDup (map sp_id ps) -> findIndex i ps = Some (n, p) ->
  lookup i (removeAt n ps) = None.
Proof.
  intros Hnd. revert n. induction ps as [|q rest IH]; intros n H; simpl in *;
    [discriminate|].
  inversion Hnd as [|x xs Hnotin Hnd']; subst.
  unfold hasId in *. destruct (String.eqb (sp_id q) i) eqn:Hq.
  - inversion H; subst. apply String.eqb_eq in Hq. subst i.
    simpl removeAt. destruct (lookup (sp_id p) rest) as [r|] eqn:El; [|reflexivity].
    exfalso. apply Hnotin. unfold lookup in El. apply find_some in El.
    destruct El as [Hin Hid]. unfold hasId in Hid. apply String.eqb_eq in Hid.
    rewrite <- Hid. apply in_map. exact Hin.
  - destruct (findIndex i rest) as [[m r]|] eqn:Ef; [|discriminate].
    inversion H; subst. unfold lookup. simpl. unfold hasId. rewrite Hq.
    apply (IH Hnd' m eq_refl).
Qed.

Lemma reissueAll_run ps : forall st,
  exists added d,
    reissueAll env ps st = (Ok added, holding st (stored st) d)
    /\ Forall2 (fun p q => exists i ts, q = reissued i ts p) ps added.
Proof.
  induction ps as [|p rest IH]; intros st.
  - exists [], (outside (world st)). split; [|constructor].
    unfold holding, stored. destruct st as [[ps0 d0] l a c b cb ip sc fc]. reflexivity.
  - simpl reissueAll. unfold randomId, total. unfold bind at 1.
    destruct (randomHex env (outside (world st))) as [i d1] eqn:Er.
    set (s1 := setWorld st (mkMem (presets (world st)) d1)).
    rewrite (@bind_Ok _ _ _ _ _ s1 (isoNow env d1) s1) by reflexivity.
    destruct (IH s1) as (added & d & Ea & Hall).
    erewrite bind_Ok by exact Ea.
    exists (reissued i (isoNow env d1) p :: added), d. split; [reflexivity|].
    constructor; [eauto | exact Hall].
Qed.

End PresetStore.

(** X13. Two calls of [toggleFavorite] on the identifier of a stored preset
    answer the negation of the truth value of its favorite flag and then
    that truth value, a missing flag counting as false.  When the preset
    carries a boolean flag, as the built-in and the created presets do, the
    array of the manager is the same after the two calls as before.  When
    it carries none, as a preset that was imported without one, the array
    is not restored: the preset is left with the flag [false].  For an
    unknown identifier both calls answer [false] and nothing changes. *)
Theorem toggleFavorite_twice_restores {E} (env : StylePresetManager.Env E)
        (i : string) (st : State (StylePresetManager.Mem E)) :
  let r1 := StylePresetManager.toggleFavorite env i st in
  let r2 := StylePresetManager.toggleFavorite env i (final r1) in
  saves env ->
  match lookup i (stored st) with
  | Some p =>
      res r1 = Ok (negb (StylePresetManager.isFavorite p))
      /\ res r2 = Ok (StylePresetManager.isFavorite p)
      /\ match StylePresetManager.sp_favorite p with
         | Some _ => stored (final r2) = stored st
         | None =>
             stored (final r2) <> stored st
             /\ exists q, lookup i (stored (final r2)) = Some q
                          /\ StylePresetManager.sp_favorite q = Some false
         end
  | None => res r1 = Ok false /\ res r2 = Ok false /\ stored (final r2) = stored st
  end.
Proof.
  intros r1 r2 Hs.
  destruct (StylePresetManager.findIndex i (stored st)) as [[n p]|] eqn:Ef.
  - destruct (@toggleFavorite_run _ env i st n p Hs Ef) as [d1 E1].
    destruct (findIndex_Some _ _ Ef) as (Hl & Hn & _). rewrite Hl.
    assert (Ef2 : StylePresetManager.findIndex i
                    (stored (holding st (StylePresetManager.updateAt n
                                           StylePresetManager.toggled (stored st)) d1))
                  = Some (n, StylePresetManager.toggled p)).
    { rewrite stored_holding.
      apply findIndex_updateAt; [apply toggled_id | exact Ef]. }
    destruct (@toggleFavorite_run _ env i _ n _ Hs Ef2) as [d2 E2].
    unfold r2, r1. rewrite E1. cbn [final snd res fst]. rewrite E2.
    cbn [final snd res fst]. split; [reflexivity|]. split.
    { unfold StylePresetManager.isFavorite, StylePresetManager.toggled. simpl.
      rewrite negb_involutive. reflexivity. }
    rewrite !stored_holding, updateAt_twice.
    assert (Hq : lookup i (StylePresetManager.updateAt n
                             (fun q => StylePresetManager.toggled
                                         (StylePresetManager.toggled q)) (stored st))
                 = Some (StylePresetManager.toggled (StylePresetManager.toggled p))).
    { rewrite (@lookup_updateAt i (stored st) n p _ i); [|intros q; reflexivity | exact Ef].
      rewrite String.eqb_refl. reflexivity. }
    destruct (StylePresetManager.sp_favorite p) as [b|] eqn:Hb.
    + apply updateAt_fixed with (p := p); [exact Hn|].
      apply toggled_toggled with (b := b). exact Hb.
    + split.
      * intros Heq. rewrite Heq, Hl in Hq. inversion Hq as [Hp].
        pose proof (toggled_toggled_flag p) as Hflag.
        rewrite <- Hp, Hb in Hflag. discriminate.
      * eexists. split; [exact Hq|]. rewrite toggled_toggled_flag.
        unfold StylePresetManager.isFavorite. rewrite Hb. reflexivity.
  - rewrite (findIndex_None _ _ Ef).
    unfold r2, r1. rewrite (toggleFavorite_unknown env i st Ef).
    cbn [final snd res fst]. rewrite (toggleFavorite_unknown env i st Ef).
    repeat split.
Qed.

Lemma numbered_saves : saves Worlds.numbered.
Proof. intros ps e. reflexivity. Qed.

Lemma toggleFavorite_twice_restores_witness :
  (res (StylePresetManager.toggleFavorite Worlds.numbered "lofi-02"
          Worlds.twoPresets) = Ok false
   /\ res (StylePresetManager.toggleFavorite Worlds.numbered "lofi-02"
             (final (StylePresetManager.toggleFavorite Worlds.numbered "lofi-02"
                       Worlds.twoPresets))) = Ok true
   /\ stored (final (StylePresetManager.toggleFavorite Worlds.numbered "lofi-02"
                       (final (StylePresetManager.toggleFavorite Worlds.numbered
                                 "lofi-02" Worlds.twoPresets))))
      = stored Worlds.twoPresets)
  /\ (res (StylePresetManager.toggleFavorite Worlds.numbered "imported-01"
             Worlds.withImported) = Ok true
      /\ res (StylePresetManager.toggleFavorite Worlds.numbered "imported-01"
                (final (StylePresetManager.toggleFavorite Worlds.numbered
                          "imported-01" Worlds.withImported))) = Ok false
      /\ stored (final (StylePresetManager.toggleFavorite Worlds.numbered
                          "imported-01"
                          (final (StylePresetManager.toggleFavorite Worlds.numbered
                                    "imported-01" Worlds.withImported))))
         <> stored Worlds.withImported
         /\ exists q,
              lookup "imported-01"
                (stored (final (StylePresetManager.toggleFavorite Worlds.numbered
                                  "imported-01"
                                  (final (StylePresetManager.toggleFavorite
                                            Worlds.numbered "imported-01"
                                            Worlds.withImported)))))
              = Some q
              /\ StylePresetManager.sp_favorite q = Some false).
Proof.
  split.
  - exact (@toggleFavorite_twice_restores _ Worlds.numbered "lofi-02"
             Worlds.twoPresets numbered_saves).
  - exact (@toggleFavorite_twice_restores _ Worlds.numbered "imported-01"
             Worlds.withImported numbered_saves).
Defined.

(** X14. [incrementUsage] adds one to the usage count of the first preset
    that carries the identifier, a missing count standing for zero, and
    stamps its last use; its other fields, the length of the array and what
    every other identifier finds stay as they are.  For an unknown
    identifier nothing changes and nothing is written. *)
Theorem incrementUsage_counts_one_use {E} (env : StylePresetManager.Env E)
        (i : string) (st : State (StylePresetManager.Mem E)) :
  let r := StylePresetManager.incrementUsage env i st in
  saves env ->
  res r = Ok tt
  /\ List.length (stored (final r)) = List.length (stored st)
  /\ (forall j, j <> i -> lookup j (stored (final r)) = lookup j (stored st))
  /\ match lookup i (stored st) with
     | Some p =>
         exists p',
           lookup i (stored (final r)) = Some p'
           /\ StylePresetManager.sp_usageCount p'
              = Some (StylePresetManager.orElse (StylePresetManager.sp_usageCount p) O
                      + 1)%nat
           /\ StylePresetManager.sp_lastUsed p'
              = Some (StylePresetManager.isoNow env
                        (StylePresetManager.outside (world st)))
           /\ StylePresetManager.sp_name p' = StylePresetManager.sp_name p
           /\ StylePresetManager.sp_style p' = StylePresetManager.sp_style p
           /\ StylePresetManager.sp_category p' = StylePresetManager.sp_category p
           /\ StylePresetManager.sp_favorite p' = StylePresetManager.sp_favorite p
     | None => final r = st
     end.
Proof.
  intros r Hs.
  destruct (StylePresetManager.findIndex i (stored st)) as [[n p]|] eqn:Ef.
  - destruct (@incrementUsage_run _ env i st n p Hs Ef) as [d Er].
    destruct (findIndex_Some _ _ Ef) as (Hl & _). rewrite Hl.
    unfold r. rewrite Er. cbn [final snd res fst].
    rewrite !stored_holding.
    split; [reflexivity|]. split; [apply length_updateAt|]. split.
    + intros j Hj. erewrite lookup_updateAt; [|intros; apply used_id | exact Ef].
      destruct (String.eqb i j) eqn:Eij; [|reflexivity].
      apply String.eqb_eq in Eij. congruence.
    + eexists. split.
      * erewrite lookup_updateAt; [|intros; apply used_id | exact Ef].
        rewrite String.eqb_refl. reflexivity.
      * repeat split.
  - rewrite (findIndex_None _ _ Ef). unfold r.
    rewrite (incrementUsage_unknown env i st Ef). cbn [final snd res fst].
    repeat split.
Qed.

Lemma incrementUsage_counts_one_use_witness :
  res (StylePresetManager.incrementUsage Worlds.numbered "lofi-02" Worlds.twoPresets)
  = Ok tt
  /\ exists p',
       lookup "lofi-02"
              (stored (final (StylePresetManager.incrementUsage Worlds.numbered
                                "lofi-02" Worlds.twoPresets))) = Some p'
       /\ StylePresetManager.sp_usageCount p' = Some 4%nat.
Proof.
  destruct (@incrementUsage_counts_one_use _ Worlds.numbered "lofi-02"
              Worlds.twoPresets numbered_saves) as (H1 & _ & _ & H4).
  split; [exact H1|]. cbn in H4. destruct H4 as (p' & Hl & Hc & _).
  exists p'. split; [exact Hl | exact Hc].
Defined.

(** X15. [deletePreset] on a known identifier removes exactly one preset,
    the first that carries it: the array gets shorter by one and every other
    identifier finds what it found before; when the identifiers are unique,
    the deleted one is no longer found. *)
Theorem deletePreset_removes_one {E} (env : StylePresetManager.Env E)
        (i : string) (st : State (StylePresetManager.Mem E)) :
  let r := StylePresetManager.deletePreset env i st in
  saves env -> lookup i (stored st) <> None ->
  res r = Ok true
  /\ S (List.length (stored (final r))) = List.length (stored st)
  /\ (forall j, j <> i -> lookup j (stored (final r)) = lookup j (stored st))
  /\ (NoDup (map StylePresetManager.sp_id (stored st)) ->
      lookup i (stored (final r)) = None).
Proof.
  intros r Hs Hk. destruct (lookup_known _ _ Hk) as (n & p & Ef).
  destruct (@deletePreset_run _ env i st n p Hs Ef) as [d Er].
  unfold r. rewrite Er. cbn [final snd res fst].
  rewrite !stored_holding.
  split; [reflexivity|]. split; [apply length_removeAt; eapply findIndex_bound; eauto|].
  split.
  - intros j Hj. eapply lookup_removeAt; eauto.
  - intros Hnd. eapply lookup_removeAt_self; eauto.
Qed.

Lemma deletePreset_removes_one_witness :
  res (StylePresetManager.deletePreset Worlds.numbered "lofi-01" Worlds.twoPresets)
  = Ok true
  /\ S (List.length (stored (final (StylePresetManager.deletePreset Worlds.numbered
                                      "lofi-01" Worlds.twoPresets))))
     = List.length (stored Worlds.twoPresets)
  /\ lookup "lofi-01"
            (stored (final (StylePresetManager.deletePreset Worlds.numbered "lofi-01"
                              Worlds.twoPresets))) = None.
Proof.
  destruct (@deletePreset_removes_one _ Worlds.numbered "lofi-01" Worlds.twoPresets
              numbered_saves) as (H1 & H2 & _ & H4).
  - vm_compute. discriminate.
  - split; [exact H1 | split; [exact H2|]]. apply H4.
    repeat constructor; simpl; intuition discriminate.
Defined.

(** X16. For an identifier that no preset carries, [updatePreset] and
    [deletePreset] raise the not-found error and leave the manager and its
    file alone, while [incrementUsage] and [toggleFavorite] return without an
    error, the latter answering [false], also without a change or a write. *)
Theorem unknown_preset_identifier {E} (env : StylePresetManager.Env E) (i : string)
        (u : StylePresetManager.Updates) (st : State (StylePresetManager.Mem E)) :
  lookup i (stored st) = None ->
  StylePresetManager.updatePreset env i u st
  = (Throw (StylePresetManager.notFound i), st)
  /\ StylePresetManager.deletePreset env i st
     = (Throw (StylePresetManager.notFound i), st)
  /\ StylePresetManager.incrementUsage env i st = (Ok tt, st)
  /\ StylePresetManager.toggleFavorite env i st = (Ok false, st).
Proof.
  intros H. apply lookup_findIndex in H.
  split; [apply updatePreset_unknown; exact H|].
  split; [apply deletePreset_unknown; exact H|].
  split; [apply incrementUsage_unknown; exact H | apply toggleFavorite_unknown; exact H].
Qed.

Lemma unknown_preset_identifier_witness :
  StylePresetManager.updatePreset Worlds.numbered "lofi-99"
    (StylePresetManager.mkUpdates None (Some "New name") None None None None)
    Worlds.twoPresets
  = (Throw "Preset not found: lofi-99", Worlds.twoPresets)
  /\ StylePresetManager.deletePreset Worlds.numbered "lofi-99" Worlds.twoPresets
     = (Throw "Preset not found: lofi-99", Worlds.twoPresets)
  /\ StylePresetManager.incrementUsage Worlds.numbered "lofi-99" Worlds.twoPresets
     = (Ok tt, Worlds.twoPresets)
  /\ StylePresetManager.toggleFavorite Worlds.numbered "lofi-99" Worlds.twoPresets
     = (Ok false, Worlds.twoPresets).
Proof.
  apply (@unknown_preset_identifier _ Worlds.numbered "lofi-99"
           (StylePresetManager.mkUpdates None (Some "New name") None None None None)
           Worlds.twoPresets).
  reflexivity.
Defined.

(** X17. [createPreset] appends the new preset, unused and not a
    favorite, with the given name and style and the category [Custom] when
    none is given.  What an identifier found before, it still finds; the new
    preset is found under its own identifier whenever that identifier was
    free. *)
Theorem createPreset_appends {E} (env : StylePresetManager.Env E)
        (name style : string) (category : option string)
        (st : State (StylePresetManager.Mem E)) :
  let r := StylePresetManager.createPreset env name style category st in
  saves env ->
  exists p,
    res r = Ok p
    /\ stored (final r) = (stored st ++ [p])%list
    /\ StylePresetManager.sp_name p = name
    /\ StylePresetManager.sp_style p = style
    /\ StylePresetManager.sp_category p = StylePresetManager.orElse category "Custom"
    /\ StylePresetManager.sp_favorite p = Some false
    /\ StylePresetManager.sp_usageCount p = Some O
    /\ (forall j q, lookup j (stored st) = Some q ->
                    lookup j (stored (final r)) = Some q)
    /\ (lookup (StylePresetManager.sp_id p) (stored st) = None ->
        lookup (StylePresetManager.sp_id p) (stored (final r)) = Some p).
Proof.
  intros r Hs.
  destruct (@createPreset_run _ env name style category st Hs) as [d Er].
  cbv zeta in Er. unfold r. rewrite Er. cbn [final snd res fst].
  eexists. split; [reflexivity|]. rewrite stored_holding.
  split; [reflexivity|]. do 5 (split; [reflexivity|]). split.
  - intros j q Hq. apply lookup_app_Some. exact Hq.
  - intros Hfree. rewrite (lookup_app_None _ _ _ Hfree).
    unfold lookup, StylePresetManager.hasId. cbn [find StylePresetManager.sp_id].
    rewrite String.eqb_refl. reflexivity.
Qed.

Lemma createPreset_appends_witness :
  exists p,
    res (StylePresetManager.createPreset Worlds.numbered "Night Drive" "synthwave"
           None Worlds.twoPresets) = Ok p
    /\ stored (final (StylePresetManager.createPreset Worlds.numbered "Night Drive"
                        "synthwave" None Worlds.twoPresets))
       = (stored Worlds.twoPresets ++ [p])%list
    /\ StylePresetManager.sp_category p = "Custom"
    /\ lookup (StylePresetManager.sp_id p)
              (stored (final (StylePresetManager.createPreset Worlds.numbered
                                "Night Drive" "synthwave" None Worlds.twoPresets)))
       = Some p.
Proof.
  destruct (@createPreset_appends _ Worlds.numbered "Night Drive" "synthwave" None
              Worlds.twoPresets numbered_saves)
    as (p & H1 & H2 & _ & _ & H5 & _ & _ & _ & H9).
  exists p. split; [exact H1 | split; [exact H2 | split; [exact H5|]]].
  apply H9. vm_compute in H1. inversion H1. reflexivity.
Defined.

(** X18. A merging import keeps the presets of the manager as they are and
    in their order, and appends, with fresh identifiers and an import stamp,
    exactly the imported presets whose name no preset of the manager carried
    before; it answers the new number of presets.  A replacing import puts
    the imported presets in place of the old ones; missing data are refused
    with an error and change nothing. *)
Theorem importPresets_merges_by_name {E} (env : StylePresetManager.Env E)
        (imported : list StylePresetManager.StylePreset) (merge : bool)
        (st : State (StylePresetManager.Mem E)) :
  saves env ->
  (let r := StylePresetManager.importPresets env (Some imported) true st in
   exists added,
     stored (final r) = (stored st ++ added)%list
     /\ res r = Ok (List.length (stored st) + List.length added)%nat
     /\ Forall2 (fun p q => exists i ts, q = StylePresetManager.reissued i ts p)
                (filter (fun p => negb (StylePresetManager.nameIn
                                          (map StylePresetManager.sp_name (stored st)) p))
                        imported)
                added
     /\ Forall (fun q => ~ In (StylePresetManager.sp_name q)
                              (map StylePresetManager.sp_name (stored st)))
               added)
  /\ (let r := StylePresetManager.importPresets env (Some imported) false st in
      stored (final r) = imported /\ res r = Ok (List.length imported))
  /\ StylePresetManager.importPresets env None merge st
     = (Throw "Invalid import data", st).
Proof.
  intros Hs. split; [|split; [|reflexivity]].
  - cbv zeta. unfold StylePresetManager.importPresets.
    rewrite ?bind_assoc.
    rewrite (@bind_Ok _ _ _ _ _ st (stored st) st) by reflexivity. cbv zeta.
    set (fresh := filter (fun p => negb (StylePresetManager.nameIn
                                           (map StylePresetManager.sp_name (stored st)) p))
                         imported).
    destruct (@reissueAll_run _ env fresh st) as (added & d1 & Ea & Hall).
    rewrite ?bind_assoc. erewrite bind_Ok by exact Ea.
    rewrite (@bind_Ok _ _ _ _ _ _ tt (holding st (stored st ++ added) d1))
      by reflexivity.
    destruct (@save_run _ env (holding st (stored st ++ added) d1) Hs) as [d Ed].
    erewrite bind_Ok by exact Ed. rewrite stored_holding.
    exists added. cbn [final snd res fst].
    rewrite (@bind_Ok _ _ _ _ _ _ (stored st ++ added)%list
               (holding (holding st (stored st ++ added) d1) (stored st ++ added) d))
      by reflexivity.
    cbn [final snd res fst ret]. rewrite stored_holding.
    split; [reflexivity|]. split; [rewrite length_app; reflexivity|].
    split; [exact Hall|].
    assert (Hfresh : Forall (fun p => ~ In (StylePresetManager.sp_name p)
                                         (map StylePresetManager.sp_name (stored st)))
                            fresh).
    { apply Forall_forall. intros p Hp. unfold fresh in Hp.
      apply filter_In in Hp. destruct Hp as [_ Hn].
      apply negb_true_iff in Hn. intros Hin.
      unfold StylePresetManager.nameIn in Hn.
      assert (Ht : existsb (String.eqb (StylePresetManager.sp_name p))
                           (map StylePresetManager.sp_name (stored st)) = true).
      { apply existsb_exists. exists (StylePresetManager.sp_name p).
        split; [exact Hin | apply String.eqb_refl]. }
      congruence. }
    clear - Hall Hfresh. induction Hall as [|p q ps qs Hpq Hrest IH]; constructor.
    + inversion Hfresh; subst. destruct Hpq as (i & ts & ->). assumption.
    + apply IH. inversion Hfresh; assumption.
  - cbv zeta. unfold StylePresetManager.importPresets.
    rewrite ?bind_assoc.
    rewrite (@bind_Ok _ _ _ _ _ st tt (holding st imported
                                         (StylePresetManager.outside (world st))))
      by reflexivity.
    destruct (@save_run _ env (holding st imported
                                 (StylePresetManager.outside (world st))) Hs)
      as [d Ed].
    erewrite bind_Ok by exact Ed. rewrite stored_holding.
    split; reflexivity.
Qed.

Lemma importPresets_merges_by_name_witness :
  exists added,
    stored (final (StylePresetManager.importPresets Worlds.numbered
                     (Some [Worlds.builtin "x" "Nostalgic Soul" false 0;
                            Worlds.builtin "y" "Boom Bap Chill" false 0])
                     true Worlds.twoPresets))
    = (stored Worlds.twoPresets ++ added)%list
    /\ res (StylePresetManager.importPresets Worlds.numbered
              (Some [Worlds.builtin "x" "Nostalgic Soul" false 0;
                     Worlds.builtin "y" "Boom Bap Chill" false 0])
              true Worlds.twoPresets)
       = Ok (2 + List.length added)%nat
    /\ map StylePresetManager.sp_name added = ["Boom Bap Chill"].
Proof.
  destruct (@importPresets_merges_by_name _ Worlds.numbered
              [Worlds.builtin "x" "Nostalgic Soul" false 0;
               Worlds.builtin "y" "Boom Bap Chill" false 0]
              true Worlds.twoPresets numbered_saves)
    as ((added & H1 & H2 & H3 & _) & _).
  exists added. split; [exact H1 | split; [exact H2|]].
  vm_compute in H3. inversion H3 as [|p q ps qs Hpq Hrest]; subst.
  inversion Hrest; subst. destruct Hpq as (i & ts & ->). reflexivity.
Defined.

(** X19. A change is made in memory before it is written: when the presets
    file cannot be written, [createPreset] and [deletePreset] raise the
    write error, yet the new preset stays in the array of the manager,
    respectively the deleted one stays removed. *)
Theorem failed_save_keeps_memory_change {E} (env : StylePresetManager.Env E)
        (err name style : string) (category : option string) (i : string)
        (st : State (StylePresetManager.Mem E)) :
  cannotSave env err ->
  (let r := StylePresetManager.createPreset env name style category st in
   res r = Throw err
   /\ exists p, stored (final r) = (stored st ++ [p])%list
                /\ StylePresetManager.sp_name p = name)
  /\ (lookup i (stored st) <> None ->
      let r := StylePresetManager.deletePreset env i st in
      res r = Throw err
      /\ S (List.length (stored (final r))) = List.length (stored st)).
Proof.
  intros Hs. split.
  - destruct (@createPreset_fails _ env name style category st err Hs)
      as (p & d & Er & Hn).
    cbv zeta. rewrite Er. cbn [final snd res fst]. rewrite stored_holding.
    split; [reflexivity|]. exists p. split; [reflexivity | exact Hn].
  - intros Hk. destruct (lookup_known _ _ Hk) as (n & p & Ef).
    destruct (@deletePreset_fails _ env i st n p err Hs Ef) as [d Er].
    cbv zeta. rewrite Er. cbn [final snd res fst]. rewrite stored_holding.
    split; [reflexivity|]. apply length_removeAt. eapply findIndex_bound. exact Ef.
Qed.

Lemma failed_save_keeps_memory_change_witness :
  (res (StylePresetManager.createPreset Worlds.readOnly "Night Drive" "synthwave" None
          Worlds.twoPresets) = Throw "EACCES: permission denied"
   /\ exists p,
        stored (final (StylePresetManager.createPreset Worlds.readOnly "Night Drive"
                         "synthwave" None Worlds.twoPresets))
        = (stored Worlds.twoPresets ++ [p])%list
        /\ StylePresetManager.sp_name p = "Night Drive")
  /\ res (StylePresetManager.deletePreset Worlds.readOnly "lofi-01" Worlds.twoPresets)
     = Throw "EACCES: permission denied"
  /\ S (List.length (stored (final (StylePresetManager.deletePreset Worlds.readOnly
                                      "lofi-01" Worlds.twoPresets))))
     = List.length (stored Worlds.twoPresets).
Proof.
  destruct (@failed_save_keeps_memory_change _ Worlds.readOnly
              "EACCES: permission denied" "Night Drive" "synthwave" None "lofi-01"
              Worlds.twoPresets) as [H1 H2].
  - intros ps e. reflexivity.
  - split; [exact H1|]. apply H2. vm_compute. discriminate.
Defined.
(** ** utils.js: what sanitizeFilename keeps *)

Section SanitizeFilenameFixed.
  Import Utils.

Lemma collapseWhitespace_length (s : jsstring) (inRun : bool) :
  (List.length (collapseWhitespace inRun s) <= List.length s)%nat.
Proof.
  revert inRun; induction s as [|c r IH]; intros inRun; simpl; [lia|].
  destruct (isWhitespace c).
  - destruct inRun; simpl; [specialize (IH true); lia | specialize (IH true); lia].
  - simpl. specialize (IH false). lia.
Qed.

(** X20. [sanitizeFilename] returns its argument unchanged exactly when the
    argument holds none of the nine invalid characters, no white space, and
    at most 200 code units. *)
Theorem sanitizeFilename_fixed_points (s : jsstring) :
  sanitizeFilename s = s <-> Forall clean s /\ (List.length s <= 200)%nat.
Proof.
  split.
  - intros E. split.
    + rewrite <- E. apply sanitizeFilename_clean.
    + rewrite <- E. apply sanitizeFilename_length.
  - intros [Hc Hl]. unfold sanitizeFilename.
    rewrite (replaceInvalid_fixed Hc), (collapseWhitespace_fixed Hc).
    unfold substring0. apply firstn_all2. exact Hl.
Qed.

(** X21. The sanitized name is never longer than the given one, and it is
    empty only when the given name is empty. *)
Theorem sanitizeFilename_shrinks_nonempty (s : jsstring) :
  (List.length (sanitizeFilename s) <= List.length s)%nat
  /\ (sanitizeFilename s = [] <-> s = []).
Proof.
  split.
  - unfold sanitizeFilename, substring0.
    rewrite length_firstn.
    pose proof (collapseWhitespace_length (replaceInvalid s) false) as H.
    unfold replaceInvalid in H at 2. rewrite length_map in H. lia.
  - split; [|intros ->; reflexivity].
    destruct s as [|c r]; [reflexivity|].
    unfold sanitizeFilename, substring0. simpl.
    destruct (isWhitespace (if isInvalidChar c then hyphen else c)); simpl; discriminate.
Qed.

End SanitizeFilenameFixed.

(** ** seo-generator.js: the fallback title and tags *)

Section BasicMetadata.
  Import Utils SEOGenerator.

Lemma ellipsize_length (n : nat) (s : jsstring) :
  (3 <= n)%nat -> (List.length (ellipsize n s) <= n)%nat.
Proof.
  intros Hn. unfold ellipsize.
  destruct (n <? List.length s)%nat eqn:E.
  - apply Nat.ltb_lt in E. unfold substring0.
    rewrite length_app, length_firstn. simpl. lia.
  - apply Nat.ltb_ge in E. exact E.
Qed.

Lemma splitFrom_nonempty (s cur : jsstring) : splitFrom cur s <> [].
Proof.
  revert cur; induction s as [|c r IH]; intros cur; simpl; [discriminate|].
  destruct (c =? comma)%N; [discriminate | apply IH].
Qed.

(** X22. The fallback title never exceeds 100 code units, whatever the
    title and the style of the song are. *)
Theorem generateBasicTitle_at_most_100 (songData : SongData) :
  (List.length (generateBasicTitle songData) <= 100)%nat.
Proof. unfold generateBasicTitle. apply ellipsize_length. lia. Qed.

(** X23. A song title of 97 code units or more takes the whole fallback
    title: the result is its first 97 units followed by three dots; the
    style and the closing words AI Generated Music are cut off. *)
Theorem generateBasicTitle_long_title (songData : SongData) (t : jsstring) :
  sd_title songData = Some t -> (97 <= List.length t)%nat ->
  generateBasicTitle songData = (firstn 97 t ++ ofString "...")%list.
Proof.
  intros Ht Hl. unfold generateBasicTitle. rewrite Ht.
  destruct t as [|c r]; [simpl in Hl; lia|].
  cbn [orString].
  set (rest := (whenString (sd_style songData) _ [] ++ _)%list).
  unfold ellipsize.
  assert (El : (100 <? List.length ((c :: r) ++ rest))%nat = true).
  { apply Nat.ltb_lt. rewrite length_app.
    assert (21 <= List.length rest)%nat; [|lia].
    unfold rest. rewrite length_app.
    change (List.length (ofString " | AI Generated Music")) with 21%nat. lia. }
  rewrite El. f_equal.
  unfold substring0. change (100 - 3)%nat with 97%nat.
  rewrite firstn_app.
  replace (97 - List.length (c :: r))%nat with O by lia.
  rewrite firstn_O. apply app_nil_r.
Qed.

Lemma generateBasicTitle_long_title_witness :
  generateBasicTitle (mkSongData (Some (repeat 65%N 120)) (Some (ofString "jazz")) None)
  = (firstn 97 (repeat 65%N 120) ++ ofString "...")%list.
Proof.
  apply (@generateBasicTitle_long_title
           (mkSongData (Some (repeat 65%N 120)) (Some (ofString "jazz")) None)
           (repeat 65%N 120)).
  - reflexivity.
  - vm_compute. repeat constructor.
Defined.

(** X24. The fallback tags are the three opening tags, then at most three
    genre tags, then the three closing tags: between six and nine tags, so
    that the cut at ten never drops one.  There is no genre tag exactly
    when the style is missing or empty. *)
Theorem generateBasicTags_shape (toLowerCase : jsstring -> jsstring)
    (songData : SongData) :
  exists genres : list jsstring,
    generateBasicTags toLowerCase songData
    = ([ofString "music"; ofString "ai music"; ofString "generated music"]
       ++ genres
       ++ [ofString "new music"; ofString "original music"; ofString "instrumental"])%list
    /\ (List.length genres <= 3)%nat
    /\ (genres = [] <-> sd_style songData = None \/ sd_style songData = Some []).
Proof.
  unfold generateBasicTags.
  destruct (sd_style songData) as [[|c r]|] eqn:Es.
  - exists []. split; [reflexivity|]. split; [simpl; lia|].
    split; [right; reflexivity | reflexivity].
  - cbn [whenString].
    set (genres := firstn 3 (map _ (split (c :: r)))).
    assert (Hg : (List.length genres <= 3)%nat).
    { unfold genres. rewrite length_firstn. lia. }
    exists genres. split; [|split; [exact Hg|]].
    + rewrite <- app_assoc. apply firstn_all2.
      rewrite !length_app. simpl. lia.
    + split; [|intros [H|H]; discriminate].
      intros Eg. exfalso. unfold genres, split in Eg.
      pose proof (@splitFrom_nonempty (c :: r) []) as Hn.
      destruct (splitFrom [] (c :: r)) as [|g gs]; [congruence|].
      simpl in Eg. discriminate.
  - exists []. split; [reflexivity|]. split; [simpl; lia|].
    split; [left; reflexivity | reflexivity].
Qed.

End BasicMetadata.
